(** * Personal Finance Tracker: the core of [src/app/page.tsx]

    A shallow embedding of the transaction store (load, add, edit, delete),
    the form validator and the three aggregations of the [Home] component,
    with the save after every change, the colours of the pie and the dates
    and amounts of the list, followed by the properties of the
    specification that were checked against it and by further properties
    of the code.

    Conventions of the embedding.
    - A JavaScript number is an IEEE 754 binary64 value, given by
      [spec_float] of the Standard Library with [prec = 53] and
      [emax = 1024]; the arithmetic is the library's correctly rounded one.
    - A JavaScript string is a [string]; a character stands for the code
      unit of the same number, so the strings covered are those whose code
      units are below 256.
    - A [Date] is represented by its calendar fields in local time (the
      year and the month joined in one count of months), or is the Invalid
      Date.  [date-fns] and the built-ins ([parseFloat], [Math.round],
      [JSON.parse], [Date]) are not part of the repository; they are
      modelled after their documented behaviour, [parseISO] on complete
      calendar dates and the objects used as tables on keys that name no
      inherited property.
    - React state is a record; every handler is a function from the state
      before the event to the state after it.  What a handler reads off
      the clock is a parameter of it, one for each reading. *)

From Stdlib Require Import ZArith String Ascii List Bool Lia.
From Stdlib Require Import Floats.SpecFloat.
From stdpp Require Import gmap strings list.

Local Open Scope string_scope.
Local Open Scope Z_scope.

(** ** Numbers *)

Definition number : Type := spec_float.

Module JSNumber.

Definition prec : Z := 53.
Definition emax : Z := 1024.

Definition NaN : number := S754_nan.
Definition of_Z (n : Z) : number := binary_normalize prec emax n 0 false.
Definition zero : number := S754_zero false.

Definition add (x y : number) : number := SFadd prec emax x y.
Definition sub (x y : number) : number := SFsub prec emax x y.
Definition mul (x y : number) : number := SFmul prec emax x y.
Definition div (x y : number) : number := SFdiv prec emax x y.

(** [x <= y] and [x < y]; both are false as soon as an operand is NaN. *)
Definition leb (x y : number) : bool := SFleb x y.
Definition ltb (x y : number) : bool := SFltb x y.

(** ToBoolean on a number: [0], [-0] and [NaN] are falsy. *)
Definition truthy (x : number) : bool :=
  match x with
  | S754_zero _ | S754_nan => false
  | _ => true
  end.

(** [x || y] on numbers. *)
Definition or_else (x y : number) : number := if truthy x then x else y.

(** [Math.round]: the integer nearest to [x], ties going up; a result
    that is zero keeps the sign of [x]. *)
Definition Math_round (x : number) : number :=
  match x with
  | S754_finite s m e =>
      if 0 <=? e then x
      else
        let n := Z.shiftr (2 * cond_Zopp s (Zpos m) + Z.shiftl 1 (- e)) (- e + 1) in
        if n =? 0 then S754_zero s else binary_normalize prec emax n 0 false
  | _ => x
  end.

(** The number nearest to [m * 10 ^ e], for [0 <= m]: the rounding that
    numeric literals and [parseFloat] apply to a decimal numeral. *)
Definition of_decimal (neg : bool) (m e : Z) : number :=
  match m with
  | Zpos p =>
      if 0 <=? e then binary_round prec emax neg (p * Z.to_pos (10 ^ e))%positive 0
      else
        let '(q, e', l) := SFdiv_core_binary prec emax (Zpos p) 0 (10 ^ (- e)) 0 in
        binary_round_aux prec emax neg q e' l
  | _ => S754_zero neg
  end.

End JSNumber.

(** ** Strings *)

Module JSString.

(** WhiteSpace and LineTerminator code units below 256. *)
Definition is_white (c : ascii) : bool :=
  let n := nat_of_ascii c in
  ((9 <=? n) && (n <=? 13) || (n =? 32) || (n =? 160))%nat.

Definition is_digit (c : ascii) : bool :=
  let n := nat_of_ascii c in ((48 <=? n) && (n <=? 57))%nat.

Definition digit_value (c : ascii) : Z := Z.of_nat (nat_of_ascii c) - 48.

Fixpoint trimStart (s : string) : string :=
  match s with
  | String c s' => if is_white c then trimStart s' else s
  | EmptyString => EmptyString
  end.

(** [trimEnd] keeps a character when it is not white space or when
    something is kept after it. *)
Fixpoint trimEnd (s : string) : string :=
  match s with
  | String c s' =>
      match trimEnd s' with
      | EmptyString => if is_white c then EmptyString else String c EmptyString
      | r => String c r
      end
  | EmptyString => EmptyString
  end.

Definition trim (s : string) : string := trimEnd (trimStart s).

(** ToBoolean on a string: only the empty string is falsy. *)
Definition truthy (s : string) : bool :=
  match s with EmptyString => false | _ => true end.

(** [x || y] on strings. *)
Definition or_else (x y : string) : string := if truthy x then x else y.

(** The longest run of decimal digits at the head of [s], and the rest. *)
Fixpoint span_digits (s : string) : string * string :=
  match s with
  | String c s' =>
      if is_digit c then let '(d, r) := span_digits s' in (String c d, r)
      else (EmptyString, s)
  | EmptyString => (EmptyString, EmptyString)
  end.

(** The value of a run of decimal digits, most significant first. *)
Fixpoint digits_value (acc : Z) (s : string) : Z :=
  match s with
  | String c s' => digits_value (10 * acc + digit_value c) s'
  | EmptyString => acc
  end.

Fixpoint zeros (n : nat) : string :=
  match n with
  | S n' => String "0" (zeros n')
  | O => EmptyString
  end.

(** [s.padStart(n, '0')]. *)
Definition pad (n : nat) (s : string) : string :=
  zeros (n - String.length s) ++ s.

Fixpoint all_digits (s : string) : bool :=
  match s with
  | String c s' => is_digit c && all_digits s'
  | EmptyString => true
  end.

(** The decimal numeral of a natural number, without leading zeros. *)
Fixpoint of_digits_rev (fuel : nat) (n : N) (acc : string) : string :=
  match fuel with
  | O => acc
  | S fuel' =>
      let acc' := String (ascii_of_N (48 + n mod 10)) acc in
      if (n <? 10)%N then acc' else of_digits_rev fuel' (n / 10) acc'
  end.

Definition of_N (n : N) : string := of_digits_rev (S (N.to_nat (N.log2 n))) n "".

(** [Number.prototype.toString] on an integer below [10 ^ 21] in
    magnitude. *)
Definition of_Z (z : Z) : string :=
  match z with
  | Zneg p => "-" ++ of_N (Npos p)
  | _ => of_N (Z.to_N z)
  end.

End JSString.

(** ** [parseFloat] *)

(** The prefix of the input that is a StrDecimalLiteral is scanned as: an
    optional sign, then [Infinity] or a decimal numeral, then an exponent
    part when one is complete. *)
Definition scan_exponent (s : string) : Z :=
  match s with
  | String c s' =>
      if (c =? "e")%char || (c =? "E")%char then
        match s' with
        | String "+" s'' =>
            let '(d, _) := JSString.span_digits s'' in
            JSString.digits_value 0 d
        | String "-" s'' =>
            let '(d, _) := JSString.span_digits s'' in
            - JSString.digits_value 0 d
        | _ =>
            let '(d, _) := JSString.span_digits s' in
            JSString.digits_value 0 d
        end
      else 0
  | EmptyString => 0
  end.

Definition scan_unsigned (neg : bool) (s : string) : number :=
  if String.prefix "Infinity" s then S754_infinity neg
  else
    let '(int, r) := JSString.span_digits s in
    match r with
    | String "." r' =>
        let '(frac, r'') := JSString.span_digits r' in
        match int, frac with
        | EmptyString, EmptyString => JSNumber.NaN
        | _, _ =>
            JSNumber.of_decimal neg
              (JSString.digits_value 0 (int ++ frac))
              (scan_exponent r'' - Z.of_nat (String.length frac))
        end
    | _ =>
        match int with
        | EmptyString => JSNumber.NaN
        | _ =>
            JSNumber.of_decimal neg (JSString.digits_value 0 int) (scan_exponent r)
        end
    end.

Definition parseFloat (s : string) : number :=
  match JSString.trimStart s with
  | String "+" r => scan_unsigned false r
  | String "-" r => scan_unsigned true r
  | r => scan_unsigned false r
  end.

(** ** Exceptions *)

Inductive exn : Type :=
| RangeError (msg : string)
| SyntaxError (msg : string).

Inductive result (A : Type) : Type :=
| Ok (a : A)
| Throw (e : exn).

Arguments Ok {A} a.
Arguments Throw {A} e.

#[global] Instance exn_eq_dec : EqDecision exn.
Proof. solve_decision. Defined.

#[global] Instance result_eq_dec {A : Type} `{EqDecision A} : EqDecision (result A).
Proof. solve_decision. Defined.

#[global] Instance result_ret : MRet result := fun A a => Ok a.

#[global] Instance result_bind : MBind result := fun A B k r =>
  match r with
  | Ok a => k a
  | Throw e => Throw e
  end.

(** ** Dates *)

Module JSDate.

(** A valid date in local time.  [months] is [12 * year + month] with
    [month] counted from 0, so that every value is a calendar month;
    [ms] is the time of day in milliseconds. *)
Record localtime : Type := {
  months : Z;
  day : Z;
  ms : Z
}.

Inductive Date : Type :=
| Valid (t : localtime)
| InvalidDate.

Definition getFullYear (t : localtime) : Z := months t / 12.
Definition getMonth (t : localtime) : Z := months t mod 12.

(** [new Date(year, month, 1)]: a year from 0 to 99 stands for 1900 plus
    that year; a month outside of 0..11 carries into the year. *)
Definition new_Date (year month : Z) : localtime :=
  let year := if (0 <=? year) && (year <=? 99) then 1900 + year else year in
  {| months := 12 * year + month; day := 1; ms := 0 |}.

Definition isLeapYear (year : Z) : bool :=
  (year mod 400 =? 0) || ((year mod 4 =? 0) && negb (year mod 100 =? 0)).

(** The number of days of the month [month] (from 0) of [year]. *)
Definition daysInMonth (year month : Z) : Z :=
  match month with
  | 1 => if isLeapYear year then 29 else 28
  | 3 | 5 | 8 | 10 => 30
  | _ => 31
  end.

(** The order of time on local dates. *)
Definition leb (a b : localtime) : bool :=
  (months a <? months b)
  || ((months a =? months b)
      && ((day a <? day b) || ((day a =? day b) && (ms a <=? ms b)))).

(** [startOfMonth] and [endOfMonth] of date-fns. *)
Definition startOfMonth (t : localtime) : localtime :=
  {| months := months t; day := 1; ms := 0 |}.

Definition endOfMonth (t : localtime) : localtime :=
  {| months := months t;
     day := daysInMonth (getFullYear t) (getMonth t);
     ms := 86399999 |}.

(** [isWithinInterval(date, {start, end})] of date-fns, for an interval
    whose start is not after its end: an Invalid Date is in no interval. *)
Definition isWithinInterval (d : Date) (start finish : localtime) : bool :=
  match d with
  | Valid t => leb start t && leb t finish
  | InvalidDate => false
  end.

(** [parseISO] of date-fns on the complete calendar date [YYYY-MM-DD],
    the value of an [<input type="date">]: local midnight of that day,
    and the Invalid Date when the month or the day is out of range.  The
    other forms the library reads (reduced and week dates, times and
    zones) are outside of this model, in which they come out as the
    Invalid Date: the property below that rests on a date being left
    unread is stated for texts that the library does not read either (a
    year of five digits before the month and the day), and the rows of
    the monthly series are stated for dates that this model reads. *)
Definition parseISO (s : string) : Date :=
  match list_ascii_of_string s with
  | [y1; y2; y3; y4; h1; m1; m2; h2; d1; d2] =>
      if (h1 =? "-")%char && (h2 =? "-")%char
         && forallb JSString.is_digit [y1; y2; y3; y4; m1; m2; d1; d2]
      then
        let year := JSString.digits_value 0 (String y1 (String y2 (String y3 (String y4 "")))) in
        let month := JSString.digits_value 0 (String m1 (String m2 "")) - 1 in
        let date := JSString.digits_value 0 (String d1 (String d2 "")) in
        if (0 <=? month) && (month <=? 11) && (1 <=? date)
           && (date <=? daysInMonth year month)
        then Valid {| months := 12 * year + month; day := date; ms := 0 |}
        else InvalidDate
      else InvalidDate
  | _ => InvalidDate
  end.

Definition monthNames : list string :=
  ["Jan"; "Feb"; "Mar"; "Apr"; "May"; "Jun";
   "Jul"; "Aug"; "Sep"; "Oct"; "Nov"; "Dec"].

(** The text [format(date, 'MMM yyyy')] of date-fns gives for a valid
    date: the short English name of the month, and the year of the era on
    four digits at least (a year that is not positive is one before the
    common era, whose number is printed). *)
Definition formatted_MMM_yyyy (t : localtime) : string :=
  let signedYear := getFullYear t in
  let year := if 0 <? signedYear then signedYear else 1 - signedYear in
  nth (Z.to_nat (getMonth t)) monthNames ""
    ++ " " ++ JSString.pad 4 (JSString.of_Z year).

(** [format(date, 'MMM yyyy')]: a RangeError on the Invalid Date. *)
Definition format_MMM_yyyy (d : Date) : result string :=
  match d with
  | Valid t => Ok (formatted_MMM_yyyy t)
  | InvalidDate => Throw (RangeError "Invalid time value")
  end.

(** The calendar date of a count of days since 1 January 1970, as
    (year, month from 1, day). *)
Definition civil_from_days (z : Z) : Z * Z * Z :=
  let z := z + 719468 in
  let era := z / 146097 in
  let doe := z mod 146097 in
  let yoe := (doe - doe / 1460 + doe / 36524 - doe / 146096) / 365 in
  let doy := doe - (365 * yoe + yoe / 4 - yoe / 100) in
  let mp := (5 * doy + 2) / 153 in
  let d := doy - (153 * mp + 2) / 5 + 1 in
  let m := if mp <? 10 then mp + 3 else mp - 9 in
  let y := yoe + era * 400 + (if m <=? 2 then 1 else 0) in
  (y, m, d).

(** [new Date(t).toISOString()] for a time value [t] in milliseconds
    since the epoch. *)
Definition toISOString (t : Z) : string :=
  let '(y, m, d) := civil_from_days (t / 86400000) in
  let r := t mod 86400000 in
  let year :=
    if (0 <=? y) && (y <=? 9999) then JSString.pad 4 (JSString.of_Z y)
    else (if y <? 0 then "-" else "+") ++ JSString.pad 6 (JSString.of_Z (Z.abs y)) in
  year ++ "-" ++ JSString.pad 2 (JSString.of_Z m)
    ++ "-" ++ JSString.pad 2 (JSString.of_Z d)
    ++ "T" ++ JSString.pad 2 (JSString.of_Z (r / 3600000))
    ++ ":" ++ JSString.pad 2 (JSString.of_Z (r / 60000 mod 60))
    ++ ":" ++ JSString.pad 2 (JSString.of_Z (r / 1000 mod 60))
    ++ "." ++ JSString.pad 3 (JSString.of_Z (r mod 1000)) ++ "Z".

End JSDate.

(** ** Objects used as tables *)

(** A [Record<string, number>] as the tables of the source use it: the own
    properties in the order of their creation.  This is the object of the
    source for keys that are neither an array index (which
    [Object.entries] lists before the other keys) nor the name of a
    property every object inherits ([constructor], [toString] and the
    like, which [o[k]] finds without an own property).  The month labels
    of [getMonthlyData] and the labels of [CATEGORIES] are such keys; the
    properties of [getCategoryData] below are stated for the labels of
    [CATEGORIES], which are those the form offers. *)
Module JSObject.

Definition t : Type := list (string * number).

Definition empty : t := [].

Fixpoint get (o : t) (k : string) : option number :=
  match o with
  | (k', v) :: o' => if decide (k' = k) then Some v else get o' k
  | [] => None
  end.

Definition hasOwnProperty (o : t) (k : string) : bool :=
  match get o k with Some _ => true | None => false end.

(** [o[k] = v]: the value of an existing property is replaced where it
    stands, a new property goes last. *)
Fixpoint set (o : t) (k : string) (v : number) : t :=
  match o with
  | (k', v') :: o' =>
      if decide (k' = k) then (k, v) :: o' else (k', v') :: set o' k v
  | [] => [(k, v)]
  end.

Definition entries (o : t) : list (string * number) := o.

End JSObject.

(** ** The data model *)

Inductive TransactionType : Type := income | expense.

Record Transaction : Type := {
  id : string;
  amount : number;
  date : string;
  description : string;
  type : TransactionType;
  category : string;
  createdAt : string
}.

Definition CATEGORIES : list string :=
  ["Food & Dining"; "Transportation"; "Shopping"; "Entertainment";
   "Bills & Utilities"; "Healthcare"; "Education"; "Travel"; "Income";
   "Other"].

(** The [formData] state: what the fields of the form hold. *)
Record FormData : Type := {
  form_amount : string;
  form_date : string;
  form_description : string;
  form_type : TransactionType;
  form_category : string
}.

Definition emptyForm : FormData :=
  {| form_amount := ""; form_date := ""; form_description := "";
     form_type := expense; form_category := "" |}.

(** ** Validation *)

(** [validateForm] on the form data: the [newErrors] object it stores with
    [setErrors], and the boolean it returns. *)
Definition validateForm (formData : FormData) : gmap string string * bool :=
  let newErrors : gmap string string := ∅ in
  let newErrors :=
    if negb (JSString.truthy (form_amount formData))
       || JSNumber.leb (parseFloat (form_amount formData)) (JSNumber.of_Z 0)
    then <["amount" := "Amount must be greater than 0"]> newErrors
    else newErrors in
  let newErrors :=
    if negb (JSString.truthy (form_date formData))
    then <["date" := "Date is required"]> newErrors
    else newErrors in
  let newErrors :=
    if negb (JSString.truthy (JSString.trim (form_description formData)))
    then <["description" := "Description is required"]> newErrors
    else newErrors in
  let newErrors :=
    if negb (JSString.truthy (form_category formData))
    then <["category" := "Category is required"]> newErrors
    else newErrors in
  (newErrors, Nat.eqb (size newErrors) 0).

(** ** The store and its handlers *)

Record State : Type := {
  transactions : list Transaction;
  isAddDialogOpen : bool;
  isEditDialogOpen : bool;
  editingTransaction : option Transaction;
  formData : FormData;
  errors : gmap string string
}.

(** The state of the first render. *)
Definition initialState : State :=
  {| transactions := [];
     isAddDialogOpen := false;
     isEditDialogOpen := false;
     editingTransaction := None;
     formData := emptyForm;
     errors := ∅ |}.

(** The record [handleSubmit] builds.  The clock is read twice, in
    milliseconds: [now] is what [Date.now()] returns for the [id], and
    [created] is the time value of the [new Date()] of [createdAt], which
    is taken after it and need not be the same.  Without a transaction
    being edited, [editingTransaction?.id] is [undefined], falsy like the
    empty string. *)
Definition newTransaction (now created : Z) (editing : option Transaction)
    (formData : FormData) : Transaction :=
  {| id := JSString.or_else (from_option id "" editing) (JSString.of_Z now);
     amount := parseFloat (form_amount formData);
     date := form_date formData;
     description := JSString.trim (form_description formData);
     type := form_type formData;
     category := form_category formData;
     createdAt :=
       JSString.or_else (from_option createdAt "" editing) (JSDate.toISOString created) |}.

Definition handleSubmit (now created : Z) (s : State) : State :=
  let '(newErrors, valid) := validateForm (formData s) in
  if negb valid then
    {| transactions := transactions s;
       isAddDialogOpen := isAddDialogOpen s;
       isEditDialogOpen := isEditDialogOpen s;
       editingTransaction := editingTransaction s;
       formData := formData s;
       errors := newErrors |}
  else
    let transaction := newTransaction now created (editingTransaction s) (formData s) in
    match editingTransaction s with
    | Some editing =>
        {| transactions :=
             (fun t => if decide (id t = id editing) then transaction else t)
               <$> transactions s;
           isAddDialogOpen := isAddDialogOpen s;
           isEditDialogOpen := false;
           editingTransaction := None;
           formData := emptyForm;
           errors := ∅ |}
    | None =>
        {| transactions := transactions s ++ [transaction];
           isAddDialogOpen := false;
           isEditDialogOpen := isEditDialogOpen s;
           editingTransaction := None;
           formData := emptyForm;
           errors := ∅ |}
    end.

Definition handleDelete (id0 : string) (s : State) : State :=
  {| transactions := filter (fun t => id t ≠ id0) (transactions s);
     isAddDialogOpen := isAddDialogOpen s;
     isEditDialogOpen := isEditDialogOpen s;
     editingTransaction := editingTransaction s;
     formData := formData s;
     errors := errors s |}.

Definition withTransactions (l : list Transaction) (s : State) : State :=
  {| transactions := l;
     isAddDialogOpen := isAddDialogOpen s;
     isEditDialogOpen := isEditDialogOpen s;
     editingTransaction := editingTransaction s;
     formData := formData s;
     errors := errors s |}.

Section Handlers.

(** [Number.prototype.toString]: a built-in, whose digits play no role in
    what follows. *)
Variable Number_toString : number -> string.

Definition handleEdit (transaction : Transaction) (s : State) : State :=
  {| transactions := transactions s;
     isAddDialogOpen := isAddDialogOpen s;
     isEditDialogOpen := true;
     editingTransaction := Some transaction;
     formData :=
       {| form_amount := Number_toString (amount transaction);
          form_date := date transaction;
          form_description := description transaction;
          form_type := type transaction;
          form_category := category transaction |};
     errors := errors s |}.

(** What the user can do: fill the form, open or close a dialog, submit
    the form (the event carries the two readings of the clock that
    [handleSubmit] takes), press the edit or the delete button of a listed
    transaction. *)
Inductive Event : Type :=
| SetFormData (formData : FormData)
| SetIsAddDialogOpen (b : bool)
| SetIsEditDialogOpen (b : bool)
| Submit (now created : Z)
| Edit (transaction : Transaction)
| Delete (id0 : string).

(** An event is possible in a state when its button is on the page: the
    edit button hands over a transaction of the list, the delete button
    the [id] of one. *)
Definition enabled (s : State) (e : Event) : Prop :=
  match e with
  | Edit transaction => transaction ∈ transactions s
  | Delete id0 => id0 ∈ (id <$> transactions s)
  | _ => True
  end.

Definition handle (e : Event) (s : State) : State :=
  match e with
  | SetFormData fd =>
      {| transactions := transactions s;
         isAddDialogOpen := isAddDialogOpen s;
         isEditDialogOpen := isEditDialogOpen s;
         editingTransaction := editingTransaction s;
         formData := fd;
         errors := errors s |}
  | SetIsAddDialogOpen b =>
      {| transactions := transactions s;
         isAddDialogOpen := b;
         isEditDialogOpen := isEditDialogOpen s;
         editingTransaction := editingTransaction s;
         formData := formData s;
         errors := errors s |}
  | SetIsEditDialogOpen b =>
      {| transactions := transactions s;
         isAddDialogOpen := isAddDialogOpen s;
         isEditDialogOpen := b;
         editingTransaction := editingTransaction s;
         formData := formData s;
         errors := errors s |}
  | Submit now created => handleSubmit now created s
  | Edit transaction => handleEdit transaction s
  | Delete id0 => handleDelete id0 s
  end.

(** [reachable tr s]: [s] is reached from the first render by the events
    of [tr], the latest event first.  The display of the list sorts the
    array of the state where it stands ([transactions.sort] in the render),
    which rearranges the collection between two events: the order it
    leaves is any rearrangement here. *)
Inductive reachable : list Event -> State -> Prop :=
| reachable_init : reachable [] initialState
| reachable_step tr s e :
    reachable tr s -> enabled s e -> reachable (e :: tr) (handle e s)
| reachable_render tr s sorted :
    reachable tr s -> sorted ≡ₚ transactions s ->
    reachable tr (withTransactions sorted s).

(** The state the events of [tr] lead to, the latest event first. *)
Definition run (tr : list Event) : State := foldr handle initialState tr.

(** Every event of [tr] is possible in the state it occurs in. *)
Fixpoint allEnabled (tr : list Event) : Prop :=
  match tr with
  | e :: tr' => enabled (run tr') e ∧ allEnabled tr'
  | [] => True
  end.

End Handlers.

(** ** [JSON.parse] and the load at startup *)

#[local] Unset Elimination Schemes.

Inductive JSValue : Type :=
| JNull
| JBool (b : bool)
| JNum (n : number)
| JStr (s : string)
| JArr (l : list JSValue)
| JObj (l : list (string * JSValue)).

#[local] Set Elimination Schemes.

Module JSON.

(** The outcome of reading one piece of text: what was read and the text
    left, a token that the grammar does not allow, or too little fuel. *)
Inductive outcome (A : Type) : Type :=
| Parsed (a : A) (rest : string)
| Unexpected
| OutOfFuel.

Arguments Parsed {A} a rest.
Arguments Unexpected {A}.
Arguments OutOfFuel {A}.

Definition quote : ascii := ascii_of_nat 34.
Definition backslash : ascii := ascii_of_nat 92.

(** JSON white space: tab, line feed, carriage return, space. *)
Definition is_ws (c : ascii) : bool :=
  let n := nat_of_ascii c in ((n =? 9) || (n =? 10) || (n =? 13) || (n =? 32))%nat.

Fixpoint skip_ws (s : string) : string :=
  match s with
  | String c s' => if is_ws c then skip_ws s' else s
  | EmptyString => EmptyString
  end.

Fixpoint drop (n : nat) (s : string) : string :=
  match n, s with
  | S n', String _ s' => drop n' s'
  | _, _ => s
  end.

Definition parse_literal (lit : string) (v : JSValue) (s : string) : outcome JSValue :=
  if String.prefix lit s then Parsed v (drop (String.length lit) s) else Unexpected.

Definition hex_value (c : ascii) : option N :=
  let n := N_of_ascii c in
  if ((48 <=? n) && (n <=? 57))%N then Some (n - 48)%N
  else if ((65 <=? n) && (n <=? 70))%N then Some (n - 55)%N
  else if ((97 <=? n) && (n <=? 102))%N then Some (n - 87)%N
  else None.

(** The characters of a string up to its closing quote, escapes resolved
    (the code unit of a [\u] escape is kept modulo 256). *)
Fixpoint parse_chars (s : string) : option (string * string) :=
  match s with
  | EmptyString => None
  | String c r =>
      if (c =? quote)%char then Some (EmptyString, r)
      else if (c =? backslash)%char then
        match r with
        | String e r' =>
            if (e =? "u")%char then
              match r' with
              | String h1 (String h2 (String h3 (String h4 r''))) =>
                  match hex_value h1, hex_value h2, hex_value h3, hex_value h4 with
                  | Some a, Some b, Some c', Some d =>
                      match parse_chars r'' with
                      | Some (str, rest) =>
                          Some (String (ascii_of_N ((16 * c' + d) mod 256)) str, rest)
                      | None => None
                      end
                  | _, _, _, _ => None
                  end
              | _ => None
              end
            else
              let unescaped :=
                if (e =? quote)%char then Some quote
                else if (e =? backslash)%char then Some backslash
                else if (e =? "/")%char then Some "/"%char
                else if (e =? "b")%char then Some (ascii_of_nat 8)
                else if (e =? "f")%char then Some (ascii_of_nat 12)
                else if (e =? "n")%char then Some (ascii_of_nat 10)
                else if (e =? "r")%char then Some (ascii_of_nat 13)
                else if (e =? "t")%char then Some (ascii_of_nat 9)
                else None in
              match unescaped, parse_chars r' with
              | Some c', Some (str, rest) => Some (String c' str, rest)
              | _, _ => None
              end
        | EmptyString => None
        end
      else if (nat_of_ascii c <? 32)%nat then None
      else
        match parse_chars r with
        | Some (str, rest) => Some (String c str, rest)
        | None => None
        end
  end.

(** A JSON number: an optional minus, an integer part without a leading
    zero, an optional fraction and an optional exponent. *)
Definition parse_number (s : string) : outcome JSValue :=
  let '(neg, s1) :=
    match s with
    | String "-" r => (true, r)
    | _ => (false, s)
    end in
  let '(int, s2) := JSString.span_digits s1 in
  match int with
  | EmptyString => Unexpected
  | String d int' =>
      if (d =? "0")%char && negb (String.length int' =? 0)%nat then Unexpected
      else
        let '(frac, s3, okf) :=
          match s2 with
          | String "." r =>
              let '(f, r') := JSString.span_digits r in
              (f, r', negb (String.length f =? 0)%nat)
          | _ => (EmptyString, s2, true)
          end in
        let '(exp, s4, oke) :=
          match s3 with
          | String c r =>
              if (c =? "e")%char || (c =? "E")%char then
                let '(sign, r1) :=
                  match r with
                  | String "+" r' => (1, r')
                  | String "-" r' => (-1, r')
                  | _ => (1, r)
                  end in
                let '(e, r2) := JSString.span_digits r1 in
                (sign * JSString.digits_value 0 e, r2, negb (String.length e =? 0)%nat)
              else (0, s3, true)
          | EmptyString => (0, s3, true)
          end in
        if okf && oke then
          Parsed (JNum (JSNumber.of_decimal neg
                          (JSString.digits_value 0 (int ++ frac))
                          (exp - Z.of_nat (String.length frac))))
                 s4
        else Unexpected
  end.

(** [o[k] = v] on the members of an object: a repeated name keeps its
    place and takes the later value. *)
Fixpoint set_member (o : list (string * JSValue)) (k : string) (v : JSValue)
    : list (string * JSValue) :=
  match o with
  | (k', v') :: o' =>
      if decide (k' = k) then (k, v) :: o' else (k', v') :: set_member o' k v
  | [] => [(k, v)]
  end.

Fixpoint parse_value (fuel : nat) (s : string) {struct fuel} : outcome JSValue :=
  match fuel with
  | O => OutOfFuel
  | S fuel' =>
      match skip_ws s with
      | EmptyString => Unexpected
      | String c r =>
          if (c =? "n")%char then parse_literal "null" JNull (String c r)
          else if (c =? "t")%char then parse_literal "true" (JBool true) (String c r)
          else if (c =? "f")%char then parse_literal "false" (JBool false) (String c r)
          else if (c =? quote)%char then
            match parse_chars r with
            | Some (str, rest) => Parsed (JStr str) rest
            | None => Unexpected
            end
          else if (c =? "[")%char then
            match skip_ws r with
            | String "]" r' => Parsed (JArr []) r'
            | _ =>
                match parse_elements fuel' r with
                | Parsed vs rest => Parsed (JArr vs) rest
                | Unexpected => Unexpected
                | OutOfFuel => OutOfFuel
                end
            end
          else if (c =? "{")%char then
            match skip_ws r with
            | String "}" r' => Parsed (JObj []) r'
            | _ =>
                match parse_members fuel' r with
                | Parsed ms rest =>
                    Parsed (JObj (fold_left (fun o '(k, v) => set_member o k v) ms [])) rest
                | Unexpected => Unexpected
                | OutOfFuel => OutOfFuel
                end
            end
          else parse_number (String c r)
      end
  end

with parse_elements (fuel : nat) (s : string) {struct fuel} : outcome (list JSValue) :=
  match fuel with
  | O => OutOfFuel
  | S fuel' =>
      match parse_value fuel' s with
      | Parsed v r =>
          match skip_ws r with
          | String c r' =>
              if (c =? ",")%char then
                match parse_elements fuel' r' with
                | Parsed vs rest => Parsed (v :: vs) rest
                | Unexpected => Unexpected
                | OutOfFuel => OutOfFuel
                end
              else if (c =? "]")%char then Parsed [v] r'
              else Unexpected
          | EmptyString => Unexpected
          end
      | Unexpected => Unexpected
      | OutOfFuel => OutOfFuel
      end
  end

with parse_members (fuel : nat) (s : string) {struct fuel}
    : outcome (list (string * JSValue)) :=
  match fuel with
  | O => OutOfFuel
  | S fuel' =>
      match skip_ws s with
      | String q r =>
          if (q =? quote)%char then
            match parse_chars r with
            | Some (k, r1) =>
                match skip_ws r1 with
                | String ":" r2 =>
                    match parse_value fuel' r2 with
                    | Parsed v r3 =>
                        match skip_ws r3 with
                        | String c r4 =>
                            if (c =? ",")%char then
                              match parse_members fuel' r4 with
                              | Parsed ms rest => Parsed ((k, v) :: ms) rest
                              | Unexpected => Unexpected
                              | OutOfFuel => OutOfFuel
                              end
                            else if (c =? "}")%char then Parsed [(k, v)] r4
                            else Unexpected
                        | EmptyString => Unexpected
                        end
                    | Unexpected => Unexpected
                    | OutOfFuel => OutOfFuel
                    end
                | _ => Unexpected
                end
            | None => Unexpected
            end
          else Unexpected
      | EmptyString => Unexpected
      end
  end.

(** [JSON.parse(text)]: the value of the text, which is one JSON value
    between white space, and a SyntaxError for any other text.  The fuel
    covers two calls per character, which is what the descent needs. *)
Definition parse (text : string) : result JSValue :=
  match parse_value (2 * String.length text + 2) text with
  | Parsed v rest =>
      match skip_ws rest with
      | EmptyString => Ok v
      | _ => Throw (SyntaxError "Unexpected non-whitespace character after JSON")
      end
  | _ => Throw (SyntaxError "Unexpected token or end of JSON input")
  end.

End JSON.

(** The effect that runs once after the first render: what
    [localStorage.getItem('finance-transactions')] returned is [None] for
    [null]; the value is what the [transactions] state holds afterwards
    (its initial value is the empty array), and [Throw] stands for the
    exception that leaves the effect. *)
Definition load (savedTransactions : option string) : result JSValue :=
  match savedTransactions with
  | Some text =>
      if JSString.truthy text then parsed ← JSON.parse text; Ok parsed
      else Ok (JArr [])
  | None => Ok (JArr [])
  end.

(** ** Aggregation *)

(** [Math.round(amount * 100) / 100]. *)
Definition roundCents (amount : number) : number :=
  JSNumber.div (JSNumber.Math_round (JSNumber.mul amount (JSNumber.of_Z 100)))
               (JSNumber.of_Z 100).

(** [l.forEach(f)] for a callback that updates a table and may throw. *)
Fixpoint forEach {A S : Type} (f : S -> A -> result S) (l : list A) (s : S)
    : result S :=
  match l with
  | a :: l' => s' ← f s a; forEach f l' s'
  | [] => Ok s
  end.

(** The loop [for (let i = 11; i >= 0; i--)] of [getMonthlyData], entered
    with [n = 12]: the turn for [i = n - 1] and then the turns below it. *)
Fixpoint lastMonths (n : nat) (currentDate : JSDate.localtime)
    (monthlyData : JSObject.t) : result JSObject.t :=
  match n with
  | S i =>
      let date :=
        JSDate.new_Date (JSDate.getFullYear currentDate)
                        (JSDate.getMonth currentDate - Z.of_nat i) in
      monthKey ← JSDate.format_MMM_yyyy (JSDate.Valid date);
      lastMonths i currentDate (JSObject.set monthlyData monthKey (JSNumber.of_Z 0))
  | O => Ok monthlyData
  end.

(** The callback of the [forEach] of [getMonthlyData]; under the test
    [hasOwnProperty] the property read by [+=] is there. *)
Definition addToMonth (monthlyData : JSObject.t) (transaction : Transaction)
    : result JSObject.t :=
  let transactionDate := JSDate.parseISO (date transaction) in
  monthKey ← JSDate.format_MMM_yyyy transactionDate;
  if JSObject.hasOwnProperty monthlyData monthKey then
    Ok (JSObject.set monthlyData monthKey
          (JSNumber.add (default JSNumber.NaN (JSObject.get monthlyData monthKey))
                        (amount transaction)))
  else Ok monthlyData.

Definition isExpense (t : Transaction) : Prop := type t = expense.
Definition isIncome (t : Transaction) : Prop := type t = income.

#[global] Instance TransactionType_eq_dec : EqDecision TransactionType.
Proof. solve_decision. Defined.

#[global] Instance isExpense_dec t : Decision (isExpense t).
Proof. unfold isExpense. apply _. Defined.

#[global] Instance isIncome_dec t : Decision (isIncome t).
Proof. unfold isIncome. apply _. Defined.

(** [getMonthlyData()]: the rows [{month, amount}] as pairs. *)
Definition getMonthlyData (transactions : list Transaction)
    (currentDate : JSDate.localtime) : result (list (string * number)) :=
  monthlyData ← lastMonths 12 currentDate JSObject.empty;
  monthlyData ← forEach addToMonth (filter isExpense transactions) monthlyData;
  Ok ((fun '(month, amount) => (month, roundCents amount))
        <$> JSObject.entries monthlyData).

Definition addToCategory (categoryData : JSObject.t) (transaction : Transaction)
    : JSObject.t :=
  JSObject.set categoryData (category transaction)
    (JSNumber.add
       (JSNumber.or_else
          (default (JSNumber.of_Z 0) (JSObject.get categoryData (category transaction)))
          (JSNumber.of_Z 0))
       (amount transaction)).

(** [getCategoryData()]: the rows [{category, amount}] as pairs. *)
Definition getCategoryData (transactions : list Transaction)
    : list (string * number) :=
  let categoryData :=
    fold_left addToCategory (filter isExpense transactions) JSObject.empty in
  (fun '(category, amount) => (category, roundCents amount))
    <$> JSObject.entries categoryData.

(** The totals of the current month, computed at every render. *)
Definition currentMonthTransactions (transactions : list Transaction)
    (currentMonth : JSDate.localtime) : list Transaction :=
  let monthStart := JSDate.startOfMonth currentMonth in
  let monthEnd := JSDate.endOfMonth currentMonth in
  filter (fun t => JSDate.isWithinInterval (JSDate.parseISO (date t)) monthStart monthEnd)
         transactions.

(** [l.reduce((sum, t) => sum + t.amount, 0)]. *)
Definition sumAmounts (l : list Transaction) : number :=
  fold_left (fun sum t => JSNumber.add sum (amount t)) l (JSNumber.of_Z 0).

Definition totalIncome (transactions : list Transaction)
    (currentMonth : JSDate.localtime) : number :=
  sumAmounts (filter isIncome (currentMonthTransactions transactions currentMonth)).

Definition totalExpenses (transactions : list Transaction)
    (currentMonth : JSDate.localtime) : number :=
  sumAmounts (filter isExpense (currentMonthTransactions transactions currentMonth)).

Definition netIncome (transactions : list Transaction)
    (currentMonth : JSDate.localtime) : number :=
  JSNumber.sub (totalIncome transactions currentMonth)
               (totalExpenses transactions currentMonth).

(** ** The dates of the list *)

(** The text [format(date, 'MMM dd, yyyy')] of date-fns gives for a valid
    date: the short name of the month, the day of the month on two digits,
    and the year as in ['MMM yyyy']. *)
Definition formatted_MMM_dd_yyyy (t : JSDate.localtime) : string :=
  let signedYear := JSDate.getFullYear t in
  let year := if 0 <? signedYear then signedYear else 1 - signedYear in
  nth (Z.to_nat (JSDate.getMonth t)) JSDate.monthNames ""
    ++ " " ++ JSString.pad 2 (JSString.of_Z (JSDate.day t))
    ++ ", " ++ JSString.pad 4 (JSString.of_Z year).

(** [format(date, 'MMM dd, yyyy')]: a RangeError on the Invalid Date. *)
Definition format_MMM_dd_yyyy (d : JSDate.Date) : result string :=
  match d with
  | JSDate.Valid t => Ok (formatted_MMM_dd_yyyy t)
  | JSDate.InvalidDate => Throw (RangeError "Invalid time value")
  end.

(** [l.map(f)] for a callback that may throw. *)
Fixpoint mapResult {A B : Type} (f : A -> result B) (l : list A) : result (list B) :=
  match l with
  | a :: l' => b ← f a; bs ← mapResult f l'; Ok (b :: bs)
  | [] => Ok []
  end.

(** The dates of the rows of the list of transactions, [shown] being the
    transactions in the order the sort of the render leaves them in. *)
Definition rowDates (shown : list Transaction) : result (list string) :=
  mapResult (fun transaction => format_MMM_dd_yyyy (JSDate.parseISO (date transaction)))
            shown.

(** ** The colours of the pie *)

Definition COLORS : list string :=
  ["#3B82F6"; "#10B981"; "#F59E0B"; "#EF4444"; "#8B5CF6"; "#06B6D4";
   "#84CC16"; "#F97316"; "#EC4899"; "#6B7280"].

(** [COLORS[index % COLORS.length]]; [None] stands for [undefined]. *)
Definition cellFill (index : nat) : option string :=
  COLORS !! (index mod length COLORS)%nat.

(** The [fill] of the cells of the pie, one per row of [getCategoryData()]:
    [getCategoryData().map((entry, index) => ... COLORS[index % COLORS.length])]. *)
Definition pieCells (transactions : list Transaction) : list (option string) :=
  imap (λ index _, cellFill index) (getCategoryData transactions).

(** ** [Number.prototype.toString] *)

#[global] Instance spec_float_eq_dec : EqDecision spec_float.
Proof. solve_decision. Defined.

(** Number::toString of a finite number [x] above zero: with [n], [k] and
    [s] integers such that [k >= 1], [10 ^ (k - 1) <= s < 10 ^ k],
    [s * 10 ^ (n - k)] is [x] once rounded to a number, and [k] is as small
    as possible; of the [s] that fit, the one for which [s * 10 ^ (n - k)]
    is nearest to [x], the even one of two as near.  The number is
    [x = num / den] here. *)
Module NumberPrototype.

(** The least [n] from [n0] on with [a < b * 10 ^ (n - n0)]. *)
Fixpoint decimal_exponent (fuel : nat) (a b n0 : Z) : Z :=
  match fuel with
  | S fuel' => if a <? b then n0 else decimal_exponent fuel' a (10 * b) (n0 + 1)
  | O => n0
  end.

(** [x * 10 ^ j] as a fraction, for [x = num / den]. *)
Definition scaled (num den j : Z) : Z * Z :=
  if 0 <=? j then (num * 10 ^ j, den) else (num, den * 10 ^ (- j)).

(** The digits [s] with which [s * 10 ^ (n - k)] is the number [x], for
    [k] digits: the integer below [x * 10 ^ (k - n)] or the one above it,
    the nearer one when both give [x], the even one of two as near. *)
Definition digits_for (x : number) (num den n k : Z) : option Z :=
  let '(a, b) := scaled num den (k - n) in
  let lo := a / b in
  let hi := lo + 1 in
  let gives s :=
    (10 ^ (k - 1) <=? s) && (s <? 10 ^ k)
    && bool_decide (JSNumber.of_decimal false s (n - k) = x) in
  match gives lo, gives hi with
  | true, true =>
      match 2 * (a mod b) ?= b with
      | Lt => Some lo
      | Gt => Some hi
      | Eq => Some (if Z.even lo then lo else hi)
      end
  | true, false => Some lo
  | false, true => Some hi
  | false, false => None
  end.

(** The search for the least [k], from [k] on and up to 17 digits (which
    are enough for a binary64 number), with which some [s] gives [x]; [n]
    is such that [10 ^ (n - 1) <= x < 10 ^ n], and the numeral
    [1 * 10 ^ n], of one digit, is the only one of the next decade that
    can give [x]. *)
Fixpoint shortest (fuel : nat) (x : number) (num den n k : Z) : Z * Z :=
  match fuel with
  | S fuel' =>
      match digits_for x num den n k with
      | Some s => (s, n)
      | None =>
          if (k =? 1) && bool_decide (JSNumber.of_decimal false 1 n = x)
          then (1, n + 1)
          else shortest fuel' x num den n (k + 1)
      end
  | O =>
      let '(a, b) := scaled num den (17 - n) in ((2 * a + b) / (2 * b), n)
  end.

(** The text for the digits [s] and the exponent [n]: the digits and
    zeros after them, the digits around a point, zeros between the point
    and the digits, or the exponential form. *)
Definition layout (s n : Z) : string :=
  let digits := JSString.of_Z s in
  let k := Z.of_nat (String.length digits) in
  if (k <=? n) && (n <=? 21) then digits ++ JSString.zeros (Z.to_nat (n - k))
  else if (0 <? n) && (n <=? 21) then
    String.substring 0 (Z.to_nat n) digits ++ "."
      ++ String.substring (Z.to_nat n) (Z.to_nat (k - n)) digits
  else if (-6 <? n) && (n <=? 0) then
    "0." ++ JSString.zeros (Z.to_nat (- n)) ++ digits
  else
    let e := n - 1 in
    let exponent := (if 0 <=? e then "e+" else "e-") ++ JSString.of_Z (Z.abs e) in
    if k =? 1 then digits ++ exponent
    else
      String.substring 0 1 digits ++ "."
        ++ String.substring 1 (Z.to_nat (k - 1)) digits ++ exponent.

(** The text of [x = m * 2 ^ e], a number above zero. *)
Definition toString_positive (x : number) (m : positive) (e : Z) : string :=
  let num := if 0 <=? e then Zpos m * 2 ^ e else Zpos m in
  let den := if 0 <=? e then 1 else 2 ^ (- e) in
  let n := decimal_exponent 800 (num * 10 ^ 400) den (-400) in
  let '(s, n') := shortest 17 x num den n 1 in
  layout s n'.

(** [x.toString()]. *)
Definition toString (x : number) : string :=
  match x with
  | S754_nan => "NaN"
  | S754_zero _ => "0"
  | S754_infinity false => "Infinity"
  | S754_infinity true => "-Infinity"
  | S754_finite false m e => toString_positive x m e
  | S754_finite true m e => "-" ++ toString_positive (S754_finite false m e) m e
  end.

(** The digits of [n] with a point before the last [f] of them, after
    zeros in front when there are not more than [f]. *)
Definition fixed_digits (n : Z) (f : nat) : string :=
  let m := JSString.pad (S f) (JSString.of_Z n) in
  let k := String.length m in
  match f with
  | O => m
  | _ => String.substring 0 (k - f) m ++ "." ++ String.substring (k - f) f m
  end.

(** [x.toFixed(f)] for [f] from 0 to 100, as the calls of the source have
    it: for the magnitude [num / den] of a finite [x] below [10 ^ 21], the
    integer [n] with [n / 10 ^ f] nearest to it, the larger of two as
    near, written by [fixed_digits] after the sign of [x]. *)
Definition toFixed (x : number) (f : nat) : string :=
  match x with
  | S754_finite s m e =>
      let num := if 0 <=? e then Zpos m * 2 ^ e else Zpos m in
      let den := if 0 <=? e then 1 else 2 ^ (- e) in
      if 10 ^ 21 * den <=? num then toString x
      else
        let n := (2 * num * 10 ^ Z.of_nat f + den) / (2 * den) in
        (if s then "-" else "") ++ fixed_digits n f
  | S754_zero _ => fixed_digits 0 f
  | _ => toString x
  end.

End NumberPrototype.

(** ** The amounts of the list *)

(** The amount of a row of the list:
    [{transaction.type === 'income' ? '+' : '-'}${transaction.amount.toFixed(2)}]. *)
Definition rowAmount (transaction : Transaction) : string :=
  (match type transaction with income => "+" | expense => "-" end)
    ++ "$" ++ NumberPrototype.toFixed (amount transaction) 2.

(** ** [JSON.stringify] and the save after every change *)

Module Stringify.

Definition hex_digit (n : N) : ascii :=
  if (n <? 10)%N then ascii_of_N (48 + n) else ascii_of_N (87 + n).

(** What QuoteJSONString writes for one code unit: the two-character
    escapes, [\u00XX] for the other code units below 32, the code unit
    itself otherwise. *)
Definition quote_char (c : ascii) : string :=
  let n := N_of_ascii c in
  let escape (e : ascii) := String JSON.backslash (String e "") in
  if (c =? JSON.quote)%char then escape JSON.quote
  else if (c =? JSON.backslash)%char then escape JSON.backslash
  else if (n =? 8)%N then escape "b"%char
  else if (n =? 12)%N then escape "f"%char
  else if (n =? 10)%N then escape "n"%char
  else if (n =? 13)%N then escape "r"%char
  else if (n =? 9)%N then escape "t"%char
  else if (n <? 32)%N then
    String JSON.backslash
      (String "u" (String "0" (String "0"
         (String (hex_digit (n / 16)) (String (hex_digit (n mod 16)) "")))))
  else String c "".

Fixpoint quote_chars (s : string) : string :=
  match s with
  | String c s' => quote_char c ++ quote_chars s'
  | EmptyString => EmptyString
  end.

Definition QuoteJSONString (s : string) : string :=
  String JSON.quote (quote_chars s ++ String JSON.quote "").

Definition isFinite (x : number) : bool :=
  match x with
  | S754_zero _ | S754_finite _ _ _ => true
  | _ => false
  end.

(** The members or the elements, with commas between them. *)
Fixpoint join (l : list string) : string :=
  match l with
  | [] => ""
  | [x] => x
  | x :: l' => x ++ "," ++ join l'
  end.

(** [JSON.stringify(value)], which writes no white space: a number that
    is not finite is written [null], the members of an object in the
    order of its properties. *)
Fixpoint stringify (value : JSValue) : string :=
  match value with
  | JNull => "null"
  | JBool true => "true"
  | JBool false => "false"
  | JNum n => if isFinite n then NumberPrototype.toString n else "null"
  | JStr s => QuoteJSONString s
  | JArr l => "[" ++ join (map stringify l) ++ "]"
  | JObj l =>
      "{" ++ join (map (fun kv => QuoteJSONString (fst kv) ++ ":" ++ stringify (snd kv)) l)
        ++ "}"
  end.

End Stringify.

Definition TransactionType_toJS (k : TransactionType) : JSValue :=
  match k with
  | income => JStr "income"
  | expense => JStr "expense"
  end.

(** The object a record stands for: the properties of the object literal
    of [handleSubmit], in the order it gives them. *)
Definition Transaction_toJS (t : Transaction) : JSValue :=
  JObj [("id", JStr (id t)); ("amount", JNum (amount t)); ("date", JStr (date t));
        ("description", JStr (description t)); ("type", TransactionType_toJS (type t));
        ("category", JStr (category t)); ("createdAt", JStr (createdAt t))].

(** The effect that runs after every change of [transactions]: the text
    that [localStorage.setItem('finance-transactions', ...)] stores. *)
Definition save (transactions : list Transaction) : string :=
  Stringify.stringify (JArr (Transaction_toJS <$> transactions)).

(** * The vocabulary of the properties *)

(** ** Validation *)

(** The four messages of [validateForm]. *)
Definition amountError : string := "Amount must be greater than 0".

Definition dateError : string := "Date is required".

Definition descriptionError : string := "Description is required".

Definition categoryError : string := "Category is required".

(** The test [validateForm] applies to the amount field. *)
Definition amountRejected (formData : FormData) : bool :=
  negb (JSString.truthy (form_amount formData))
  || JSNumber.leb (parseFloat (form_amount formData)) (JSNumber.of_Z 0).

(** ** Identifiers and edits *)

(** The readings [Date.now()] takes at the submissions of a trace. *)
Definition clockReadings (tr : list Event) : list Z :=
  omap (λ e, match e with Submit now _ => Some now | _ => None end) tr.

(** The two readings of each submission of a trace: that of [Date.now()]
    and that of [new Date()]. *)
Definition submitReadings (tr : list Event) : list (Z * Z) :=
  omap (λ e, match e with Submit now created => Some (now, created) | _ => None end) tr.

(** A record that carries the stamps of one of the submissions [ns]: its
    [id] is the decimal numeral of the first reading and its [createdAt]
    the ISO form of the second. *)
Definition stamped (ns : list (Z * Z)) (t : Transaction) : Prop :=
  ∃ now created,
    (now, created) ∈ ns
    ∧ id t = JSString.of_Z now ∧ createdAt t = JSDate.toISOString created.

(** A payload whose amount is no numeral and whose other fields pass
    their rules. *)
Definition lunchForAbc : FormData :=
  {| form_amount := "abc"; form_date := "2024-01-15";
     form_description := "Lunch"; form_type := expense;
     form_category := "Food & Dining" |}.

(** Two payloads that pass validation. *)
Definition lunch : FormData :=
  {| form_amount := "12.50"; form_date := "2024-01-15";
     form_description := "Lunch"; form_type := expense;
     form_category := "Food & Dining" |}.

Definition salary : FormData :=
  {| form_amount := "2500"; form_date := "2024-01-31";
     form_description := " Salary "; form_type := income;
     form_category := "Income" |}.

(** Two adds a second apart, the clock moving on within the second one,
    then the delete of the first record. *)
Definition twoAdds : list Event :=
  [Delete "1700000000000";
   Submit 1700000001000 1700000001001; SetFormData salary; SetIsAddDialogOpen true;
   Submit 1700000000000 1700000000000; SetFormData lunch; SetIsAddDialogOpen true].

(** The record of an edit of [t]: the [id] and the [createdAt] of [t], the
    other fields from the form. *)
Definition updatedFrom (fd : FormData) (t : Transaction) : Transaction :=
  {| id := id t;
     amount := parseFloat (form_amount fd);
     date := form_date fd;
     description := JSString.trim (form_description fd);
     type := form_type fd;
     category := form_category fd;
     createdAt := createdAt t |}.

(** An add, then the edit of its record with another amount. *)
Definition addThenEdit : list Event :=
  [SetFormData salary;
   Edit (newTransaction 1700000000000 1700000000000 None lunch);
   Submit 1700000000000 1700000000000; SetFormData lunch; SetIsAddDialogOpen true].

(** ** Calendar months and their labels *)

(** [d] is a date of the calendar month of [b]. *)
Definition sameMonth (d : JSDate.Date) (b : JSDate.localtime) : Prop :=
  match d with
  | JSDate.Valid t =>
      JSDate.getFullYear t = JSDate.getFullYear b
      ∧ JSDate.getMonth t = JSDate.getMonth b
  | JSDate.InvalidDate => False
  end.

#[global] Instance sameMonth_dec d b : Decision (sameMonth d b).
Proof. destruct d; cbn; apply _. Defined.

(** A transaction with the given id, amount (as the form would hold it),
    date, kind and category. *)
Definition record (i : string) (a : string) (d : string) (k : TransactionType)
    (c : string) : Transaction :=
  {| id := i; amount := parseFloat a; date := d; description := "-";
     type := k; category := c; createdAt := "2024-03-01T09:00:00.000Z" |}.

(** An evaluation time: 17 March 2024 at noon. *)
Definition march2024 : JSDate.localtime :=
  {| JSDate.months := 12 * 2024 + 2; JSDate.day := 17; JSDate.ms := 43200000 |}.

(** An evaluation time before the year 100: 17 March of the year 99. *)
Definition march0099 : JSDate.localtime :=
  {| JSDate.months := 12 * 99 + 2; JSDate.day := 17; JSDate.ms := 43200000 |}.

(** A payload whose date field holds a year of five digits. *)
Definition lunchIn20245 : FormData :=
  {| form_amount := "12.50"; form_date := "20245-03-01";
     form_description := "Lunch"; form_type := expense;
     form_category := "Food & Dining" |}.

(** Reading a label back: the place of its first three letters among the
    names of the months, and the number after the blank. *)
Fixpoint index_of (x : string) (l : list string) (i : Z) : Z :=
  match l with
  | y :: l' => if decide (x = y) then i else index_of x l' (i + 1)
  | [] => i
  end.

Definition labelMonth (s : string) : Z :=
  match s with
  | String a (String b (String c _)) =>
      index_of (String a (String b (String c ""))) JSDate.monthNames 0
  | _ => 12
  end.

Definition labelYear (s : string) : Z :=
  match s with
  | String _ (String _ (String _ (String _ r))) => JSString.digits_value 0 r
  | _ => 0
  end.

(** The number a label prints for the year [y]. *)
Definition eraYear (y : Z) : Z := if 0 <? y then y else 1 - y.

(** The first day of the calendar month [k] months after the month eleven
    months before that of [now]: [monthBucket now 0] is the oldest month
    of the series and [monthBucket now 11] the month of [now]. *)
Definition monthBucket (now : JSDate.localtime) (k : nat) : JSDate.localtime :=
  {| JSDate.months := JSDate.months now - 11 + Z.of_nat k;
     JSDate.day := 1; JSDate.ms := 0 |}.

(** The values [i] takes in the loop of [getMonthlyData]: [n - 1] down
    to 0. *)
Fixpoint countdown (n : nat) : list nat :=
  match n with
  | S i => i :: countdown i
  | O => []
  end.

(** The label of the month [i] months before that of [now]. *)
Definition labelBack (now : JSDate.localtime) (i : nat) : string :=
  JSDate.formatted_MMM_yyyy
    {| JSDate.months := JSDate.months now - Z.of_nat i; JSDate.day := 1; JSDate.ms := 0 |}.

(** The label [addToMonth] files a transaction under. *)
Definition monthKeyOf (t : Transaction) : result string :=
  JSDate.format_MMM_yyyy (JSDate.parseISO (date t)).

(** A collection with expenses in and out of the twelve months that end
    in March 2024. *)
Definition year2024 : list Transaction :=
  [record "1" "19.99" "2024-03-01" expense "Shopping";
   record "2" "0.015" "2024-03-09" expense "Other";
   record "3" "2500" "2024-03-15" income "Income";
   record "4" "42" "2023-04-30" expense "Travel";
   record "5" "7.5" "2023-03-31" expense "Travel"].

(** ** Sums *)

(** A number that is not NaN and whose sign bit is clear: [+0], a positive
    number or [+Infinity]. *)
Definition nonneg (x : number) : Prop :=
  match x with
  | S754_zero false | S754_infinity false | S754_finite false _ _ => True
  | _ => False
  end.

(** The accumulation of one category: [(sum || 0) + amount] from 0. *)
Definition categorySum (l : list Transaction) : number :=
  fold_left (λ sum t, JSNumber.add (JSNumber.or_else sum (JSNumber.of_Z 0)) (amount t))
            l (JSNumber.of_Z 0).

(** One turn on the value of a property that may not be there yet. *)
Definition categoryStep (v : option number) (t : Transaction) : option number :=
  Some (JSNumber.add
          (JSNumber.or_else (default (JSNumber.of_Z 0) v) (JSNumber.of_Z 0))
          (amount t)).

(** ** Stored records *)

(** What [validateForm] has let through for a record: an amount read off
    a non-empty field and not below or equal to zero, a date and a
    category that are not empty, a description that is not empty and has
    no white space at either end. *)
Definition passesValidation (t : Transaction) : Prop :=
  JSNumber.leb (amount t) (JSNumber.of_Z 0) = false
  ∧ (∃ text, text ≠ "" ∧ amount t = parseFloat text)
  ∧ date t ≠ ""
  ∧ description t ≠ ""
  ∧ JSString.trim (description t) = description t
  ∧ category t ≠ "".

(** The four messages together. *)
Definition allErrors : gmap string string :=
  <["category" := categoryError]>
    (<["description" := descriptionError]>
       (<["date" := dateError]> (<["amount" := amountError]> ∅))).

(** One add. *)
Definition oneAdd : list Event :=
  [Submit 1700000000000 1700000000000; SetFormData lunch; SetIsAddDialogOpen true].

(** The edit button of [t], the edit dialog closed without a submission,
    then the add dialog opened, filled with [fd] and submitted (the latest
    event first). *)
Definition cancelThenAdd (t : Transaction) (fd : FormData) (now created : Z)
    : list Event :=
  [Submit now created; SetFormData fd; SetIsAddDialogOpen true;
   SetIsEditDialogOpen false; Edit t].

(** ** Rows *)

(** The labels of [l] in the order of their first occurrence. *)
Fixpoint firstSeen (l : list string) : list string :=
  match l with
  | c :: l' => c :: filter (λ c', c' ≠ c) (firstSeen l')
  | [] => []
  end.

(** The expense transactions dated in the calendar month of [b]. *)
Definition expensesOfMonth (ts : list Transaction) (b : JSDate.localtime)
    : list Transaction :=
  filter (λ t, type t = expense ∧ sameMonth (JSDate.parseISO (date t)) b) ts.

(** A collection whose expenses of March 2024 are those of one category. *)
Definition marchShopping : list Transaction :=
  [record "1" "50.005" "2024-03-01" expense "Shopping";
   record "2" "10" "2024-03-02" expense "Shopping";
   record "3" "2500" "2024-03-15" income "Income";
   record "4" "7" "2024-02-01" expense "Travel"].

(** A date whose year has five digits or more, as a date field hands it
    over for such a year: the digits of the year, a hyphen, two digits, a
    hyphen and two digits.  Such a text has no time part; [parseISO] takes
    its first four digits for the year and finds no date in what follows
    them, which begins with a digit and is longer than a month and a
    day. *)
Definition longYearDate (s : string) : Prop :=
  ∃ year month day : string,
    s = year ++ "-" ++ month ++ "-" ++ day
    ∧ (4 < String.length year)%nat ∧ JSString.all_digits year = true
    ∧ String.length month = 2%nat ∧ JSString.all_digits month = true
    ∧ String.length day = 2%nat ∧ JSString.all_digits day = true.

(** An amount of [cents] hundredths as it is typed with two decimals:
    the whole part without zeros in front, a point, and two digits. *)
Definition twoDecimals (cents : N) : string :=
  JSString.of_N (cents / 100) ++ "."
    ++ JSString.pad 2 (JSString.of_N (cents mod 100)).

(** ** The text of a value *)

(** The parts of [JSON.parse_number]: the sign, the fraction, the sign of
    the exponent and the exponent. *)
Definition sign_part (s : string) : bool * string :=
  match s with
  | String "-" r => (true, r)
  | _ => (false, s)
  end.

Definition frac_part (s2 : string) : string * string * bool :=
  match s2 with
  | String "." r =>
      let '(f, r') := JSString.span_digits r in
      (f, r', negb (String.length f =? 0)%nat)
  | _ => (EmptyString, s2, true)
  end.

Definition exp_sign (r : string) : Z * string :=
  match r with
  | String "+" r' => (1, r')
  | String "-" r' => (-1, r')
  | _ => (1, r)
  end.

Definition exp_part (s3 : string) : Z * string * bool :=
  match s3 with
  | String c r =>
      if (c =? "e")%char || (c =? "E")%char then
        let '(sign, r1) := exp_sign r in
        let '(e, r2) := JSString.span_digits r1 in
        (sign * JSString.digits_value 0 e, r2, negb (String.length e =? 0)%nat)
      else (0, s3, true)
  | EmptyString => (0, s3, true)
  end.

(** What may follow a number in a text: nothing that continues it. *)
Definition ends_number (rest : string) : Prop :=
  match rest with
  | String c _ =>
      JSString.is_digit c = false ∧ c ≠ "."%char ∧ c ≠ "e"%char ∧ c ≠ "E"%char
  | EmptyString => True
  end.

Definition starts_number (s : string) : Prop :=
  match s with
  | String c _ => c = "-"%char ∨ JSString.is_digit c = true
  | EmptyString => False
  end.

(** [JSON.parse] reads the text that [toString] writes for [x] as [x]. *)
Definition readsBack (x : number) : Prop :=
  JSON.parse_number (NumberPrototype.toString x) = JSON.Parsed (JNum x) "".

(** A value without parts whose text is read back. *)
Definition leaf (v : JSValue) : Prop :=
  match v with
  | JNull | JBool _ | JStr _ => True
  | JNum x => Stringify.isFinite x = true ∧ readsBack x
  | JArr _ | JObj _ => False
  end.

(** What follows a value inside an array or an object, or nothing. *)
Definition delimited (rest : string) : Prop :=
  match rest with
  | String c _ => c = ","%char ∨ c = "]"%char ∨ c = "}"%char
  | EmptyString => True
  end.

(** [v] is read back from its text with the fuel [F] or more. *)
Definition parsesBack (F : nat) (v : JSValue) : Prop :=
  ∀ fuel rest, (F ≤ fuel)%nat → delimited rest →
    JSON.parse_value fuel (Stringify.stringify v ++ rest) = JSON.Parsed v rest.

(** The first character of the text of a value. *)
Definition starts_value (s : string) : Prop :=
  match s with
  | String c _ => JSON.is_ws c = false ∧ c ≠ "]"%char ∧ c ≠ "}"%char
  | EmptyString => False
  end.

Definition member_text (kv : string * JSValue) : string :=
  Stringify.QuoteJSONString kv.1 ++ ":" ++ Stringify.stringify kv.2.

(** The value that [JSON.stringify] writes for an amount: [null] for a
    number that is not finite. *)
Definition amount_toJSON (x : number) : JSValue :=
  if Stringify.isFinite x then JNum x else JNull.

(** The object that the saved text of a record stands for. *)
Definition Transaction_reloaded (t : Transaction) : JSValue :=
  JObj [("id", JStr (id t)); ("amount", amount_toJSON (amount t));
        ("date", JStr (date t)); ("description", JStr (description t));
        ("type", TransactionType_toJS (type t));
        ("category", JStr (category t)); ("createdAt", JStr (createdAt t))].

(** Two records of the form and one whose amount is NaN. *)
Definition savedCollection : list Transaction :=
  [newTransaction 1700000000000 1700000000000 None lunch;
   newTransaction 1700000001000 1700000001001 None salary;
   record "3" "abc" "2024-03-01" expense "Other"].

(** * Properties *)

(** ** Numbers and strings *)

Lemma truthy_empty (s : string) : JSString.truthy s = false ↔ s = "".
Proof. destruct s; simpl; split; congruence. Qed.

Lemma truthy_nonempty (s : string) : JSString.truthy s = true ↔ s ≠ "".
Proof. destruct s; simpl; split; congruence. Qed.

Lemma or_else_nonempty (x y : string) : x ≠ "" → JSString.or_else x y = x.
Proof. intros H. unfold JSString.or_else. by apply truthy_nonempty in H as ->. Qed.

Lemma leb_NaN (y : number) : JSNumber.leb JSNumber.NaN y = false.
Proof. by destruct y. Qed.

(** A number above zero is not below or equal to it. *)
Lemma ltb_zero_not_leb (x : number) :
  JSNumber.ltb (JSNumber.of_Z 0) x = true →
  JSNumber.leb x (JSNumber.of_Z 0) = false.
Proof. destruct x as [| [] | | [] ? ?]; cbn; congruence. Qed.

(** *** Decimal numerals *)

Lemma digit_of_N (d : N) :
  (d < 10)%N →
  JSString.is_digit (ascii_of_N (48 + d)) = true
  ∧ JSString.digit_value (ascii_of_N (48 + d)) = Z.of_N d.
Proof.
  intros H.
  assert (d = 0 ∨ d = 1 ∨ d = 2 ∨ d = 3 ∨ d = 4 ∨ d = 5 ∨ d = 6 ∨ d = 7
          ∨ d = 8 ∨ d = 9)%N as Hd by lia.
  destruct_or!; subst d; by vm_compute.
Qed.

Lemma append_cons (c : ascii) (s t : string) :
  (String c s ++ t = String c (s ++ t))%string.
Proof. reflexivity. Qed.

Lemma append_nil_l (t : string) : ("" ++ t = t)%string.
Proof. reflexivity. Qed.

Lemma append_nil_r (s : string) : (s ++ "" = s)%string.
Proof. induction s as [| c s IH]; [done |]. by rewrite append_cons, IH. Qed.

Lemma append_assoc (s t u : string) : ((s ++ t) ++ u = s ++ (t ++ u))%string.
Proof.
  induction s as [| c s IH]; [done |]. by rewrite !append_cons, IH.
Qed.

Lemma append_length (s t : string) :
  String.length (s ++ t) = (String.length s + String.length t)%nat.
Proof.
  induction s as [| c s IH]; [done |]. rewrite append_cons. simpl. by rewrite IH.
Qed.

Lemma digits_value_app (s t : string) (a : Z) :
  JSString.digits_value a (s ++ t)
  = JSString.digits_value (JSString.digits_value a s) t.
Proof.
  revert a. induction s as [| c s IH]; intros a; [done |].
  rewrite append_cons. simpl. apply IH.
Qed.

Lemma all_digits_app (s t : string) :
  JSString.all_digits (s ++ t) = JSString.all_digits s && JSString.all_digits t.
Proof.
  induction s as [| c s IH]; [done |].
  rewrite append_cons. simpl. by rewrite IH, andb_assoc.
Qed.

Lemma of_digits_rev_S (fuel : nat) (n : N) (acc : string) :
  JSString.of_digits_rev (S fuel) n acc
  = if (n <? 10)%N then String (ascii_of_N (48 + n mod 10)) acc
    else JSString.of_digits_rev fuel (n / 10) (String (ascii_of_N (48 + n mod 10)) acc).
Proof. reflexivity. Qed.

Lemma one_digit_spec (n : N) :
  (n < 10)%N →
  JSString.all_digits (String (ascii_of_N (48 + n mod 10)) "") = true
  ∧ ∀ a, JSString.digits_value a (String (ascii_of_N (48 + n mod 10)) "")
         = a * 10 ^ Z.of_nat 1 + Z.of_N n.
Proof.
  intros Hlt. rewrite N.mod_small by done.
  destruct (digit_of_N n Hlt) as [Hd Hv]. split.
  - by cbn; rewrite Hd.
  - intros a. cbn [JSString.digits_value]. rewrite Hv. lia.
Qed.

(** What [of_digits_rev] puts in front of [acc]: a numeral of [n]. *)
Lemma of_digits_rev_spec (fuel : nat) :
  ∀ (n : N) (acc : string),
    (n < 10 ^ N.of_nat (S fuel))%N →
    ∃ s, JSString.of_digits_rev (S fuel) n acc = (s ++ acc)%string
         ∧ s ≠ ""
         ∧ JSString.all_digits s = true
         ∧ ∀ a, JSString.digits_value a s
                = a * 10 ^ Z.of_nat (String.length s) + Z.of_N n.
Proof.
  induction fuel as [| fuel IH]; intros n acc Hn; rewrite of_digits_rev_S.
  - assert (n < 10)%N as Hlt by (simpl in Hn; lia).
    apply N.ltb_lt in Hlt as Hb. rewrite Hb.
    exists (String (ascii_of_N (48 + n mod 10)) "").
    destruct (one_digit_spec n Hlt) as [Hall Hval]. by split_and!.
  - destruct (n <? 10)%N eqn:Hb.
    + apply N.ltb_lt in Hb.
      exists (String (ascii_of_N (48 + n mod 10)) "").
      destruct (one_digit_spec n Hb) as [Hall Hval]. by split_and!.
    + destruct (digit_of_N (n mod 10)) as [Hd Hv]; [by apply N.mod_lt |].
      destruct (IH (n / 10)%N (String (ascii_of_N (48 + n mod 10)) acc))
        as (s & Hs & Hne & Hall & Hval).
      { apply N.Div0.div_lt_upper_bound.
        replace (N.of_nat (S (S fuel))) with (N.succ (N.of_nat (S fuel))) in Hn by lia.
        by rewrite N.pow_succ_r' in Hn. }
      exists (s ++ String (ascii_of_N (48 + n mod 10)) "")%string.
      split_and!.
      * rewrite Hs. by rewrite append_assoc.
      * by destruct s.
      * rewrite all_digits_app, Hall. by cbn; rewrite Hd.
      * intros a. rewrite digits_value_app, Hval, append_length.
        cbn [JSString.digits_value String.length]. rewrite Hv.
        replace (Z.of_nat (String.length s + 1)) with (Z.succ (Z.of_nat (String.length s))) by lia.
        rewrite Z.pow_succ_r by lia.
        rewrite N2Z.inj_mod.
        assert (Z.of_N n = 10 * Z.of_N (n / 10) + Z.of_N n mod Z.of_N 10) as E; [| lia].
        rewrite N2Z.inj_div. apply Z.div_mod. lia.
Qed.

Lemma of_N_spec (n : N) :
  JSString.of_N n ≠ ""
  ∧ JSString.all_digits (JSString.of_N n) = true
  ∧ ∀ a, JSString.digits_value a (JSString.of_N n)
         = a * 10 ^ Z.of_nat (String.length (JSString.of_N n)) + Z.of_N n.
Proof.
  unfold JSString.of_N.
  destruct (of_digits_rev_spec (N.to_nat (N.log2 n)) n "") as (s & Hs & Hne & Hall & Hval).
  - rewrite Nat2N.inj_succ, N2Nat.id.
    destruct (decide (n = 0%N)) as [-> | Hn]; [done |].
    destruct (N.log2_spec n) as [_ Hlt]; [lia |].
    eapply N.lt_le_trans; [apply Hlt |].
    apply N.pow_le_mono_l. lia.
  - rewrite append_nil_r in Hs. by rewrite Hs.
Qed.

Lemma of_N_value (n : N) : JSString.digits_value 0 (JSString.of_N n) = Z.of_N n.
Proof. destruct (of_N_spec n) as (_ & _ & H). by rewrite H. Qed.

Lemma of_N_inj (n m : N) : JSString.of_N n = JSString.of_N m → n = m.
Proof.
  intros H. apply N2Z.inj. by rewrite <- !of_N_value, H.
Qed.

Lemma of_N_not_minus (n : N) (s : string) : JSString.of_N n ≠ String "-" s.
Proof.
  intros H. destruct (of_N_spec n) as (_ & Hall & _).
  rewrite H in Hall. discriminate Hall.
Qed.

Lemma of_Z_inj (a b : Z) : JSString.of_Z a = JSString.of_Z b → a = b.
Proof.
  destruct a as [| p | p], b as [| q | q]; cbn [JSString.of_Z Z.to_N]; intros H;
    try (by apply of_N_inj in H; congruence);
    try (by apply of_N_not_minus in H);
    try (by symmetry in H; apply of_N_not_minus in H).
  injection H as H. apply of_N_inj in H. congruence.
Qed.

Lemma of_Z_nonempty (a : Z) : JSString.of_Z a ≠ "".
Proof.
  destruct a as [| p | p]; cbn [JSString.of_Z]; try apply of_N_spec. done.
Qed.

Lemma zeros_value (k : nat) (s : string) :
  JSString.digits_value 0 (JSString.zeros k ++ s) = JSString.digits_value 0 s.
Proof.
  induction k as [| k IH]; [done |].
  cbn [JSString.zeros]. rewrite append_cons. apply IH.
Qed.

Lemma pad_value (n : nat) (s : string) :
  JSString.digits_value 0 (JSString.pad n s) = JSString.digits_value 0 s.
Proof. apply zeros_value. Qed.

Lemma toISOString_nonempty (t : Z) : JSDate.toISOString t ≠ "".
Proof.
  unfold JSDate.toISOString. destruct (JSDate.civil_from_days _) as [[y m] d].
  intros H. apply (f_equal String.length) in H.
  rewrite append_length in H. simpl in H. lia.
Qed.

(** ** Validation *)

Lemma validateForm_lookup (formData : FormData) :
  let newErrors := fst (validateForm formData) in
  newErrors !! "amount"
    = (if amountRejected formData then Some amountError else None)
  ∧ newErrors !! "date"
    = (if decide (form_date formData = "") then Some dateError else None)
  ∧ newErrors !! "description"
    = (if decide (JSString.trim (form_description formData) = "")
       then Some descriptionError else None)
  ∧ newErrors !! "category"
    = (if decide (form_category formData = "") then Some categoryError else None)
  ∧ ∀ k, k ∉ ["amount"; "date"; "description"; "category"] → newErrors !! k = None.
Proof.
  unfold validateForm, amountRejected; cbn [fst].
  destruct (negb (JSString.truthy (form_amount formData))
            || JSNumber.leb (parseFloat (form_amount formData)) (JSNumber.of_Z 0));
    destruct (decide (form_date formData = "")) as [Hd | Hd];
    destruct (decide (JSString.trim (form_description formData) = "")) as [Hs | Hs];
    destruct (decide (form_category formData = "")) as [Hc | Hc];
    try (apply truthy_nonempty in Hd as Hd'; rewrite Hd');
    try (apply truthy_empty in Hd as Hd'; rewrite Hd');
    try (apply truthy_nonempty in Hs as Hs'; rewrite Hs');
    try (apply truthy_empty in Hs as Hs'; rewrite Hs');
    try (apply truthy_nonempty in Hc as Hc'; rewrite Hc');
    try (apply truthy_empty in Hc as Hc'; rewrite Hc');
    cbn [negb];
    (repeat split; try done; intros k Hk;
     repeat (rewrite lookup_insert_ne; [| intros <-; apply Hk; set_solver]);
     apply lookup_empty).
Qed.

Lemma validateForm_valid (formData : FormData) :
  snd (validateForm formData) = true ↔ fst (validateForm formData) = ∅.
Proof.
  unfold validateForm; cbn [fst snd].
  rewrite Nat.eqb_eq. apply map_size_empty_iff.
Qed.

(** C4: [validateForm] applies its four rules independently and reports
    every failing field in one mapping: each of the keys [amount], [date],
    [description] and [category] carries its message exactly when its own
    field fails its rule, whatever the other fields hold, and no other key
    is set.  In particular a missing (empty) amount, date or category and a
    description that is empty after trimming each put their key in the
    mapping, and a payload that passes the four rules gives the empty
    mapping, for which [validateForm] returns [true]. *)
Theorem validateForm_reports_every_failure (formData : FormData) :
  let newErrors := fst (validateForm formData) in
  (newErrors !! "amount"
     = if amountRejected formData then Some amountError else None)
  ∧ (newErrors !! "date"
     = if decide (form_date formData = "") then Some dateError else None)
  ∧ (newErrors !! "description"
     = if decide (JSString.trim (form_description formData) = "")
       then Some descriptionError else None)
  ∧ (newErrors !! "category"
     = if decide (form_category formData = "") then Some categoryError else None)
  ∧ (∀ k, k ∉ ["amount"; "date"; "description"; "category"] → newErrors !! k = None)
  ∧ (form_amount formData = "" → newErrors !! "amount" = Some amountError)
  ∧ (form_amount formData ≠ ""
     ∧ JSNumber.ltb (JSNumber.of_Z 0) (parseFloat (form_amount formData)) = true
     ∧ form_date formData ≠ ""
     ∧ JSString.trim (form_description formData) ≠ ""
     ∧ form_category formData ≠ ""
     → newErrors = ∅ ∧ snd (validateForm formData) = true).
Proof.
  intros newErrors.
  destruct (validateForm_lookup formData) as (Ha & Hd & Hs & Hc & Hk).
  fold newErrors in Ha, Hd, Hs, Hc, Hk.
  split_and!; try done.
  - intros E. rewrite Ha. unfold amountRejected. by rewrite E.
  - intros (Ea & Ep & Ed & Es & Ec).
    assert (newErrors = ∅) as E; [| split; [done | by apply validateForm_valid]].
    apply map_eq. intros k. rewrite lookup_empty.
    destruct (decide (k ∈ ["amount"; "date"; "description"; "category"])) as [Hin | Hin];
      [| by apply Hk].
    assert (amountRejected formData = false) as Er.
    { unfold amountRejected. apply truthy_nonempty in Ea as ->.
      by rewrite (ltb_zero_not_leb _ Ep). }
    rewrite !elem_of_cons in Hin.
    destruct Hin as [-> | [-> | [-> | [-> | Hin]]]].
    + by rewrite Ha, Er.
    + by rewrite Hd, decide_False.
    + by rewrite Hs, decide_False.
    + by rewrite Hc, decide_False.
    + by apply elem_of_nil in Hin.
Qed.

(** The test of the amount as [validateForm] applies it: the amount entry
    of the mapping is the error "Amount must be greater than 0" exactly
    when the amount field is empty or [parseFloat] reads from it a number
    below or equal to zero, whatever the other fields hold; the comparison
    [NaN <= 0] is false, so that a non-empty amount from which [parseFloat]
    reads no number slips through. *)
Lemma validateForm_amount (formData : FormData) :
  let entry := fst (validateForm formData) !! "amount" in
  (entry = Some amountError
   ↔ form_amount formData = ""
     ∨ JSNumber.leb (parseFloat (form_amount formData)) (JSNumber.of_Z 0) = true)
  ∧ (form_amount formData ≠ ""
     → parseFloat (form_amount formData) = JSNumber.NaN
     → entry = None).
Proof.
  intros entry.
  destruct (validateForm_lookup formData) as (Ha & _).
  fold entry in Ha. rewrite Ha. unfold amountRejected. split.
  - destruct (form_amount formData) as [| c r] eqn:E; cbn [JSString.truthy negb orb].
    + split; [by left | done].
    + destruct (JSNumber.leb _ _); split; try done.
      * by right.
      * by intros [? | ?].
  - intros Hne Hnan. apply truthy_nonempty in Hne as ->.
    by rewrite Hnan, leb_NaN.
Qed.


(** ** Delete *)

Lemma handleDelete_transactions (id0 : string) (s : State) :
  transactions (handleDelete id0 s) = filter (λ t, id t ≠ id0) (transactions s).
Proof. reflexivity. Qed.

Lemma filter_Forall {A : Type} (P : A → Prop) `{!∀ x, Decision (P x)} (l : list A) :
  Forall P l → filter P l = l.
Proof.
  induction 1 as [| x l Hx _ IH]; [done |].
  by rewrite filter_cons_True, IH.
Qed.

Lemma filter_id_absent (id0 : string) (l : list Transaction) :
  id0 ∉ (id <$> l) → filter (λ t, id t ≠ id0) l = l.
Proof.
  intros H. apply filter_Forall, Forall_forall. intros t Ht E.
  apply H, list_elem_of_fmap. by exists t.
Qed.

Lemma filter_id_gone (id0 : string) (l : list Transaction) :
  id0 ∉ (id <$> filter (λ t, id t ≠ id0) l).
Proof.
  intros (t & E & Ht)%list_elem_of_fmap.
  apply list_elem_of_filter in Ht as [Hne _]. by apply Hne.
Qed.

(** C9: after [handleDelete id0] no record of the collection has the id
    [id0]; a second [handleDelete id0] leaves the state as the first one
    made it, and [handleDelete] with an id that no record has leaves the
    state unchanged.  (No branch of the handler raises.) *)
Theorem handleDelete_idempotent (id0 : string) (s : State) :
  (id0 ∉ (id <$> transactions (handleDelete id0 s)))
  ∧ (handleDelete id0 (handleDelete id0 s) = handleDelete id0 s)
  ∧ (id0 ∉ (id <$> transactions s) → handleDelete id0 s = s).
Proof.
  split_and!.
  - apply filter_id_gone.
  - unfold handleDelete at 1. cbn [isAddDialogOpen isEditDialogOpen editingTransaction
      formData errors handleDelete].
    rewrite handleDelete_transactions.
    by rewrite (filter_id_absent id0 _ (filter_id_gone id0 _)).
  - intros H. destruct s as [l a e ed fd er]. unfold handleDelete; cbn.
    by rewrite (filter_id_absent id0 l H).
Qed.

(** C10: [handleDelete id0] removes every record whose id is [id0], however
    many there are, and nothing else: the records left are those of the
    collection with another id, they are a subsequence of the collection
    (same values, same relative order), and the records taken out are all
    the records with the id [id0]. *)
Theorem handleDelete_removes_every_match (id0 : string) (s : State) :
  let before := transactions s in
  let after := transactions (handleDelete id0 s) in
  (∀ t, t ∈ after ↔ t ∈ before ∧ id t ≠ id0)
  ∧ sublist after before
  ∧ length before
    = (length after + length (filter (λ t, id t = id0) before))%nat
  ∧ (∀ l1 t l2, before = (l1 ++ t :: l2)%list → id t ≠ id0 →
       after
       = (filter (λ t, id t ≠ id0) l1 ++ t :: filter (λ t, id t ≠ id0) l2)%list).
Proof.
  intros before after. subst after. rewrite handleDelete_transactions.
  fold before. split_and!.
  - intros t. rewrite list_elem_of_filter. tauto.
  - apply sublist_filter.
  - induction before as [| t l IH]; [done |].
    destruct (decide (id t = id0)) as [E | E].
    + rewrite (filter_cons_False (λ t, id t ≠ id0)) by tauto.
      rewrite (filter_cons_True (λ t, id t = id0)) by done. simpl. lia.
    + rewrite (filter_cons_True (λ t, id t ≠ id0)) by done.
      rewrite (filter_cons_False (λ t, id t = id0)) by done. simpl. lia.
  - intros l1 t l2 -> Hne. by rewrite filter_app, filter_cons_True.
Qed.

(** Three records, two of which share an id: one call removes both. *)
Example handleDelete_duplicates :
  let mk i d :=
    {| id := i; amount := JSNumber.of_Z 1; date := "2024-01-15"; description := d;
       type := expense; category := "Other"; createdAt := "" |} in
  let s :=
    {| transactions := [mk "7" "a"; mk "8" "b"; mk "7" "c"];
       isAddDialogOpen := false; isEditDialogOpen := false;
       editingTransaction := None; formData := emptyForm; errors := ∅ |} in
  transactions (handleDelete "7" s) = [mk "8" "b"].
Proof. reflexivity. Qed.

(** ** Identifiers *)

Lemma stamped_mono (ns ns' : list (Z * Z)) (t : Transaction) :
  ns ⊆ ns' → stamped ns t → stamped ns' t.
Proof.
  intros Hsub (now & created & Hin & Hid & Hc). exists now, created. split_and!; auto.
Qed.

Lemma stamped_id_nonempty (ns : list (Z * Z)) (t : Transaction) :
  stamped ns t → id t ≠ "".
Proof. intros (now & created & _ & -> & _). apply of_Z_nonempty. Qed.

Lemma stamped_createdAt_nonempty (ns : list (Z * Z)) (t : Transaction) :
  stamped ns t → createdAt t ≠ "".
Proof. intros (now & created & _ & _ & ->). apply toISOString_nonempty. Qed.

(** When the clock does not move within a submission, two records
    stamped by submissions that agree on [id] agree on [createdAt]. *)
Lemma stamped_same_id (ns : list (Z * Z)) (t u : Transaction) :
  Forall (λ r, r.2 = r.1) ns →
  stamped ns t → stamped ns u → id t = id u → createdAt t = createdAt u.
Proof.
  intros Hns (n & c & Hn & Hnid & ->) (m & d & Hm & Hmid & ->) E.
  eapply Forall_forall in Hn; [| done]. eapply Forall_forall in Hm; [| done].
  cbn in Hn, Hm. subst c d. rewrite Hnid, Hmid in E. by apply of_Z_inj in E as ->.
Qed.

(** The readings of [Date.now()] are the first readings of the
    submissions. *)
Lemma clockReadings_fst (tr : list Event) : clockReadings tr = (submitReadings tr).*1.
Proof.
  induction tr as [| e tr IH]; [done |].
  unfold clockReadings, submitReadings in *. destruct e; cbn; by rewrite ?IH.
Qed.

Lemma stamped_clockReading (tr : list Event) (t : Transaction) :
  stamped (submitReadings tr) t →
  ∃ now, now ∈ clockReadings tr ∧ id t = JSString.of_Z now.
Proof.
  intros (now & created & Hin & Hid & _). exists now. split; [| done].
  rewrite clockReadings_fst. apply list_elem_of_fmap. by exists (now, created).
Qed.

(** The record of an edit keeps the stamps of the record being edited,
    the record of an add takes those of the clock. *)
Lemma newTransaction_edit (now created : Z) (editing : Transaction) (fd : FormData) :
  id editing ≠ "" → createdAt editing ≠ "" →
  id (newTransaction now created (Some editing) fd) = id editing
  ∧ createdAt (newTransaction now created (Some editing) fd) = createdAt editing.
Proof. intros Hi Hc. cbn. by rewrite !or_else_nonempty. Qed.

Lemma newTransaction_add (now created : Z) (fd : FormData) :
  id (newTransaction now created None fd) = JSString.of_Z now
  ∧ createdAt (newTransaction now created None fd) = JSDate.toISOString created.
Proof. done. Qed.

(** The record that [handleSubmit] builds during the edit of [editing]. *)
Lemma newTransaction_updatedFrom
    (now created : Z) (editing : Transaction) (fd : FormData) :
  id editing ≠ "" → createdAt editing ≠ "" →
  newTransaction now created (Some editing) fd = updatedFrom fd editing.
Proof.
  intros Hi Hc. unfold newTransaction, updatedFrom. cbn [from_option].
  by rewrite !or_else_nonempty.
Qed.

(** The three shapes of the state after [handleSubmit]. *)
Lemma handleSubmit_cases (now created : Z) (s : State) :
  (snd (validateForm (formData s)) = false
   ∧ transactions (handleSubmit now created s) = transactions s
   ∧ editingTransaction (handleSubmit now created s) = editingTransaction s)
  ∨ (snd (validateForm (formData s)) = true
     ∧ editingTransaction (handleSubmit now created s) = None
     ∧ match editingTransaction s with
       | Some editing =>
           transactions (handleSubmit now created s)
           = (λ t, if decide (id t = id editing)
                   then newTransaction now created (Some editing) (formData s) else t)
             <$> transactions s
       | None =>
           transactions (handleSubmit now created s)
           = (transactions s ++ [newTransaction now created None (formData s)])%list
       end).
Proof.
  unfold handleSubmit.
  destruct (validateForm (formData s)) as [newErrors valid]; cbn [snd].
  destruct valid; cbn [negb]; [right | left; done].
  destruct (editingTransaction s) as [editing |]; by split_and!.
Qed.

Section Reachable.

Variable Number_toString : number -> string.

(** Every record of a reachable state, and the record being edited, carry
    the stamps of a submission of the trace. *)
Lemma reachable_stamped (tr : list Event) (s : State) :
  reachable Number_toString tr s →
  Forall (stamped (submitReadings tr)) (transactions s)
  ∧ ∀ editing, editingTransaction s = Some editing →
               stamped (submitReadings tr) editing.
Proof.
  induction 1 as [| tr s e Hr [IHt IHe] Hen | tr s sorted Hr [IHt IHe] Hperm];
    [split; [apply Forall_nil_2 | done] | | split; [cbn; by rewrite Hperm | done]].
  assert (submitReadings tr ⊆ submitReadings (e :: tr)) as Hsub.
  { unfold submitReadings. cbn [omap list_omap]. destruct e; set_solver. }
  destruct e as [fd | b | b | now created | t | id0]; cbn [handle].
  - split; [| intros editing He; eapply stamped_mono, IHe; done].
    eapply Forall_impl; [apply IHt | intros t; by apply stamped_mono].
  - split; [| intros editing He; eapply stamped_mono, IHe; done].
    eapply Forall_impl; [apply IHt | intros t; by apply stamped_mono].
  - split; [| intros editing He; eapply stamped_mono, IHe; done].
    eapply Forall_impl; [apply IHt | intros t; by apply stamped_mono].
  - assert (Forall (stamped (submitReadings (Submit now created :: tr)))
              (transactions s)) as IHt'.
    { eapply Forall_impl; [apply IHt | intros t; by apply stamped_mono]. }
    destruct (handleSubmit_cases now created s) as [(_ & -> & ->) | (_ & -> & Ht)].
    + split; [done | intros editing He; eapply stamped_mono, IHe; done].
    + split; [| done].
      destruct (editingTransaction s) as [editing |] eqn:He; rewrite Ht.
      * pose proof (IHe editing eq_refl) as Hst.
        destruct (newTransaction_edit now created editing (formData s)) as [Hi Hc];
          [by eapply stamped_id_nonempty | by eapply stamped_createdAt_nonempty |].
        apply Forall_fmap. eapply Forall_impl; [apply IHt' |].
        intros t Hs. cbn. destruct (decide (id t = id editing)); [| done].
        destruct Hst as (n & c & Hin & Hn & Hcn). exists n, c.
        rewrite Hi, Hc. split_and!; auto.
      * apply Forall_app. split; [done |]. apply Forall_singleton.
        exists now, created. split; [| done]. unfold submitReadings. cbn. set_solver.
  - split.
    + eapply Forall_impl; [apply IHt | intros u; by apply stamped_mono].
    + intros editing [= <-]. cbn in Hen.
      eapply stamped_mono; [done |]. by eapply Forall_forall in IHt.
  - split; [| intros editing He; eapply stamped_mono, IHe; done].
    rewrite handleDelete_transactions. apply Forall_forall.
    intros t [_ Ht]%list_elem_of_filter.
    eapply stamped_mono; [done |]. by eapply Forall_forall in IHt.
Qed.

(** The transaction being edited is a record of the collection as long
    as the collection has a record with its id: after the edit button only
    a delete takes records away, and it takes all those of an id. *)
Lemma reachable_editing (tr : list Event) (s : State) :
  reachable Number_toString tr s →
  ∀ editing, editingTransaction s = Some editing →
             editing ∈ transactions s ∨ id editing ∉ (id <$> transactions s).
Proof.
  induction 1 as [| tr s e Hr IH Hen | tr s sorted Hr IH Hperm];
    [done | | cbn; intros editing He; rewrite Hperm; by apply IH].
  destruct e as [fd | b | b | now created | t | id0]; cbn [handle]; try done.
  - destruct (handleSubmit_cases now created s) as [(_ & -> & ->) | (_ & -> & _)]; done.
  - intros editing [= <-]. by left.
  - intros editing He. rewrite handleDelete_transactions.
    destruct (decide (id editing = id0)) as [E | E].
    + right. intros (u & Eu & [Hu _]%list_elem_of_filter)%list_elem_of_fmap. congruence.
    + destruct (IH editing He) as [Hin | Hnot].
      * left. by apply list_elem_of_filter.
      * right. intros (u & Eu & [_ Hu]%list_elem_of_filter)%list_elem_of_fmap.
        apply Hnot. apply list_elem_of_fmap. by exists u.
Qed.

Lemma fmap_id_replace (editing new : Transaction) (l : list Transaction) :
  id new = id editing →
  id <$> ((λ t, if decide (id t = id editing) then new else t) <$> l) = id <$> l.
Proof.
  intros E. rewrite <- list_fmap_compose. apply list_fmap_ext.
  intros i t _. cbn. by destruct (decide _); [rewrite E |].
Qed.

(** Every handler keeps the ids of the collection distinct, the submission
    of an add provided that the reading of [Date.now()] is not that of an
    earlier submission. *)
Lemma reachable_ids_NoDup (tr : list Event) (s : State) :
  reachable Number_toString tr s →
  NoDup (clockReadings tr) →
  NoDup (id <$> transactions s).
Proof.
  induction 1 as [| tr s e Hr IH Hen | tr s sorted Hr IH Hperm]; intros Hnd;
    [constructor | | cbn; rewrite Hperm; by apply IH].
  destruct (reachable_stamped tr s Hr) as [Hst Hse].
  destruct e as [fd | b | b | now created | t | id0]; cbn [handle]; try by apply IH.
  - unfold clockReadings in Hnd. cbn [omap list_omap] in Hnd.
    fold (clockReadings tr) in Hnd. apply NoDup_cons in Hnd as [Hfresh Hnd].
    specialize (IH Hnd).
    destruct (handleSubmit_cases now created s) as [(_ & -> & _) | (_ & _ & Ht)]; [done |].
    destruct (editingTransaction s) as [editing |] eqn:He; rewrite Ht.
    + destruct (newTransaction_edit now created editing (formData s)) as [Hi _];
        [by eapply stamped_id_nonempty, Hse
        | by eapply stamped_createdAt_nonempty, Hse |].
      by rewrite fmap_id_replace.
    + rewrite fmap_app. apply NoDup_app. split_and!; [done | | apply NoDup_singleton].
      intros i (t & -> & Ht')%list_elem_of_fmap Hin.
      apply list_elem_of_singleton in Hin. cbn in Hin.
      eapply Forall_forall in Hst; [| done].
      apply stamped_clockReading in Hst as (n & Hn & Hid).
      rewrite Hid in Hin. unfold JSString.or_else in Hin. cbn in Hin.
      apply of_Z_inj in Hin as ->. done.
  - rewrite handleDelete_transactions.
    eapply sublist_NoDup; [apply IH, Hnd |].
    apply fmap_sublist, sublist_filter.
Qed.

End Reachable.

(** C6, as the code has it: in every collection reached from the empty one
    through the add, edit and delete flows, the ids are pairwise distinct
    provided that no two submissions read the same value off the
    millisecond clock; every id is the decimal numeral of the reading of a
    submission, which is how an add gets an id that no record has yet, and
    edit and delete do not touch the ids that stay. *)
Theorem ids_unique_for_distinct_readings
    (Number_toString : number -> string) (tr : list Event) (s : State) :
  reachable Number_toString tr s →
  NoDup (clockReadings tr) →
  NoDup (id <$> transactions s)
  ∧ Forall (λ t, ∃ now, now ∈ clockReadings tr ∧ id t = JSString.of_Z now)
           (transactions s).
Proof.
  intros Hr Hnd. split; [by eapply reachable_ids_NoDup |].
  destruct (reachable_stamped Number_toString tr s Hr) as [Hst _].
  eapply Forall_impl; [apply Hst |].
  intros t Ht. by apply stamped_clockReading.
Qed.

Lemma reachable_run (Number_toString : number -> string) (tr : list Event) :
  allEnabled Number_toString tr →
  reachable Number_toString tr (run Number_toString tr).
Proof.
  induction tr as [| e tr IH]; [constructor |].
  intros [He Hall]. apply reachable_step; auto.
Defined.

Lemma ids_unique_witness :
  NoDup (id <$> transactions (run (λ _, "") twoAdds))
  ∧ Forall (λ t, ∃ now, now ∈ clockReadings twoAdds ∧ id t = JSString.of_Z now)
           (transactions (run (λ _, "") twoAdds)).
Proof.
  apply (ids_unique_for_distinct_readings (λ _, "") twoAdds).
  - apply reachable_run. vm_compute. split_and!; try done. apply list_elem_of_here.
  - vm_compute. apply NoDup_cons. split; [| apply NoDup_singleton].
    intros H. apply list_elem_of_singleton in H. discriminate H.
Defined.

(** C6, as the specification has it, fails: two adds whose submissions read
    the same value off the clock give two records with the same id. *)
Lemma equal_readings_give_equal_ids :
  let tr :=
    [Submit 1700000000000 1700000000000; SetFormData salary; SetIsAddDialogOpen true;
     Submit 1700000000000 1700000000000; SetFormData lunch; SetIsAddDialogOpen true] in
  (∀ Number_toString, reachable Number_toString tr (run Number_toString tr))
  ∧ (∀ Number_toString,
       id <$> transactions (run Number_toString tr)
       = ["1700000000000"; "1700000000000"]).
Proof.
  split; intros Number_toString.
  - apply reachable_run. by vm_compute.
  - by vm_compute.
Qed.

(** ** Edit *)

(** The collection after a submission that passes validation while
    [editing] is being edited. *)
Lemma handleSubmit_replaces
    (now created : Z) (s : State) (editing : Transaction) (ns : list (Z * Z)) :
  editingTransaction s = Some editing →
  snd (validateForm (formData s)) = true →
  stamped ns editing →
  transactions (handleSubmit now created s)
  = (λ t, if decide (id t = id editing) then updatedFrom (formData s) editing else t)
    <$> transactions s.
Proof.
  intros He Hv Hse.
  destruct (handleSubmit_cases now created s) as [(Hv' & _) | (_ & _ & Ht)];
    [congruence |].
  rewrite He in Ht. rewrite Ht.
  by rewrite newTransaction_updatedFrom
    by (by eapply stamped_id_nonempty || by eapply stamped_createdAt_nonempty).
Qed.

(** In a collection with distinct ids the record with the id of the
    transaction being edited is that transaction. *)
Lemma reachable_edited_record
    (Number_toString : number -> string) (tr : list Event) (s : State)
    (editing t : Transaction) :
  reachable Number_toString tr s →
  editingTransaction s = Some editing →
  NoDup (id <$> transactions s) →
  t ∈ transactions s → id t = id editing → t = editing.
Proof.
  intros Hr He Hnd Hin Eid.
  destruct (reachable_editing Number_toString tr s Hr editing He) as [Hed | Hnot].
  - apply list_elem_of_lookup in Hin as [i Hi]. apply list_elem_of_lookup in Hed as [j Hj].
    assert (i = j) as ->; [| congruence].
    eapply (NoDup_lookup _ i j (id editing) Hnd);
      rewrite list_lookup_fmap; [by rewrite Hi, <- Eid | by rewrite Hj].
  - exfalso. apply Hnot. rewrite <- Eid. apply list_elem_of_fmap. by exists t.
Qed.



Example handleSubmit_edit_example :
  transactions (handleSubmit 1700000005000 1700000005001 (run (λ _, "") addThenEdit))
  = [ {| id := "1700000000000";
         amount := JSNumber.of_Z 2500;
         date := "2024-01-31";
         description := "Salary";
         type := income;
         category := "Income";
         createdAt := "2023-11-14T22:13:20.000Z" |} ].
Proof. by vm_compute. Qed.

(** Two adds for which [Date.now()] returns one value and [new Date()]
    reads two leave two records with one id; the edit of the first
    replaces both by one record, which carries the [createdAt] of the
    first. *)
Example handleSubmit_edit_of_a_shared_id :
  let tr :=
    [SetFormData salary;
     Edit (newTransaction 1700000000000 1700000000000 None lunch);
     Submit 1700000000000 1700000000001; SetFormData lunch; SetIsAddDialogOpen true;
     Submit 1700000000000 1700000000000; SetFormData lunch; SetIsAddDialogOpen true] in
  let s := run (λ _, "") tr in
  reachable (λ _, "") tr s
  ∧ (λ t, (id t, createdAt t)) <$> transactions s
    = [("1700000000000", "2023-11-14T22:13:20.000Z");
       ("1700000000000", "2023-11-14T22:13:20.001Z")]
  ∧ (λ t, (id t, createdAt t))
      <$> transactions (handleSubmit 1700000005000 1700000005000 s)
    = [("1700000000000", "2023-11-14T22:13:20.000Z");
       ("1700000000000", "2023-11-14T22:13:20.000Z")].
Proof.
  split_and!; [| by vm_compute..].
  apply reachable_run. vm_compute. split_and!; try done. apply list_elem_of_here.
Qed.

(** ** Calendar months *)

Lemma months_eq (a b : JSDate.localtime) :
  JSDate.months a = JSDate.months b
  ↔ JSDate.getFullYear a = JSDate.getFullYear b
    ∧ JSDate.getMonth a = JSDate.getMonth b.
Proof.
  unfold JSDate.getFullYear, JSDate.getMonth. split; [by intros -> |].
  intros [Hy Hm].
  rewrite (Z.div_mod (JSDate.months a) 12), (Z.div_mod (JSDate.months b) 12) by lia.
  by rewrite Hy, Hm.
Qed.

Lemma is_digit_value (c : ascii) :
  JSString.is_digit c = true → 0 ≤ JSString.digit_value c ≤ 9.
Proof.
  unfold JSString.is_digit, JSString.digit_value.
  intros [H1 H2]%andb_prop. apply Nat.leb_le in H1, H2. lia.
Qed.

(** What [parseISO] reads is a day of a month of a year from 0 to 9999, at
    midnight. *)
Lemma parseISO_Valid (s : string) (t : JSDate.localtime) :
  JSDate.parseISO s = JSDate.Valid t →
  0 ≤ JSDate.getFullYear t ≤ 9999
  ∧ 1 ≤ JSDate.day t ≤ JSDate.daysInMonth (JSDate.getFullYear t) (JSDate.getMonth t)
  ∧ JSDate.ms t = 0.
Proof.
  unfold JSDate.parseISO.
  destruct (list_ascii_of_string s)
    as [| y1 [| y2 [| y3 [| y4 [| h1 [| m1 [| m2 [| h2 [| d1 [| d2 [| ? ?]]]]]]]]]]];
    try discriminate.
  destruct (_ && _ && forallb _ _) eqn:Hd; [| discriminate].
  cbn [forallb] in Hd. rewrite !andb_true_iff in Hd.
  destruct Hd as (_ & H1 & H2 & H3 & H4 & _).
  apply is_digit_value in H1, H2, H3, H4.
  set (year := JSString.digits_value 0 (String y1 _)).
  set (month := JSString.digits_value 0 (String m1 _) - 1).
  set (date := JSString.digits_value 0 (String d1 _)).
  destruct (_ && _) eqn:Hr; [| discriminate].
  rewrite !andb_true_iff in Hr. destruct Hr as [[[Hm0 Hm1] Hd0] Hd1].
  apply Z.leb_le in Hm0, Hm1, Hd0, Hd1.
  assert (0 ≤ year ≤ 9999) as Hy by (subst year; cbn; lia).
  clearbody year month date.
  intros [= <-]. unfold JSDate.getFullYear, JSDate.getMonth.
  cbn [JSDate.months JSDate.day JSDate.ms].
  assert ((12 * year + month) / 12 = year) as ->
    by (symmetry; apply (Z.div_unique _ _ _ month); lia).
  assert ((12 * year + month) mod 12 = month) as ->
    by (symmetry; apply (Z.mod_unique _ _ year); lia).
  lia.
Qed.

(** Comparisons of integers, from booleans to propositions. *)
Ltac Z_bool_to_Prop :=
  repeat first
    [ rewrite andb_true_iff | rewrite orb_true_iff
    | rewrite Z.ltb_lt | rewrite Z.eqb_eq | rewrite Z.leb_le ].

Ltac Z_bool_to_Prop_in H :=
  repeat first
    [ rewrite andb_true_iff in H | rewrite orb_true_iff in H
    | rewrite Z.ltb_lt in H | rewrite Z.eqb_eq in H | rewrite Z.leb_le in H ].

(** A date that [parseISO] reads lies between the start and the end of the
    month of [now] exactly when it is a date of that month. *)
Lemma isWithinInterval_sameMonth (s : string) (now : JSDate.localtime) :
  JSDate.isWithinInterval (JSDate.parseISO s)
    (JSDate.startOfMonth now) (JSDate.endOfMonth now)
  ↔ sameMonth (JSDate.parseISO s) now.
Proof.
  destruct (JSDate.parseISO s) as [t |] eqn:E; [| done].
  apply parseISO_Valid in E as (_ & Hday & Hms).
  cbn [sameMonth JSDate.isWithinInterval]. rewrite <- months_eq.
  unfold JSDate.leb, JSDate.startOfMonth, JSDate.endOfMonth.
  cbn [JSDate.months JSDate.day JSDate.ms].
  destruct (decide (JSDate.months t = JSDate.months now)) as [Em | Em].
  - assert (JSDate.daysInMonth (JSDate.getFullYear now) (JSDate.getMonth now)
            = JSDate.daysInMonth (JSDate.getFullYear t) (JSDate.getMonth t)) as ->.
    { unfold JSDate.getFullYear, JSDate.getMonth. by rewrite Em. }
    rewrite Em, Hms. split; [done | intros _].
    apply Is_true_true. Z_bool_to_Prop. lia.
  - split; [| done]. intros H%Is_true_true. Z_bool_to_Prop_in H. lia.
Qed.

Lemma currentMonthTransactions_spec (ts : list Transaction) (now : JSDate.localtime)
    (P : Transaction → Prop) `{!∀ t, Decision (P t)} :
  filter P (currentMonthTransactions ts now)
  = filter (λ t, P t ∧ sameMonth (JSDate.parseISO (date t)) now) ts.
Proof.
  unfold currentMonthTransactions. rewrite list_filter_filter.
  apply list_filter_iff. intros t. by rewrite isWithinInterval_sameMonth.
Qed.


(** The scenario of the specification: an income of 100 and an expense of
    40 in the current month give the totals 100, 40 and 60. *)
Example current_month_totals_example :
  let ts := [record "1" "100" "2024-03-01" income "Income";
             record "2" "40" "2024-03-05" expense "Food & Dining";
             record "3" "15" "2024-02-29" expense "Travel"] in
  totalIncome ts march2024 = JSNumber.of_Z 100
  ∧ totalExpenses ts march2024 = JSNumber.of_Z 40
  ∧ netIncome ts march2024 = JSNumber.of_Z 60.
Proof. by vm_compute. Qed.

(** A total keeps the digits beyond the cents, and a net income can be
    negative. *)
Example current_month_totals_unrounded :
  let ts := [record "1" "0.004" "2024-03-01" expense "Other"] in
  totalExpenses ts march2024 = parseFloat "0.004"
  ∧ netIncome ts march2024 = parseFloat "-0.004".
Proof. by vm_compute. Qed.

(** ** Month labels *)

Lemma of_Z_value (z : Z) : 0 ≤ z → JSString.digits_value 0 (JSString.of_Z z) = z.
Proof.
  intros H. destruct z as [| p | p]; [done | | lia].
  cbn [JSString.of_Z]. rewrite of_N_value. lia.
Qed.

Lemma label_read (t : JSDate.localtime) :
  labelMonth (JSDate.formatted_MMM_yyyy t) = JSDate.getMonth t
  ∧ labelYear (JSDate.formatted_MMM_yyyy t) = eraYear (JSDate.getFullYear t).
Proof.
  unfold JSDate.formatted_MMM_yyyy. fold (eraYear (JSDate.getFullYear t)).
  assert (0 ≤ eraYear (JSDate.getFullYear t)) as Hy.
  { unfold eraYear. destruct (0 <? _) eqn:E; [apply Z.ltb_lt in E | apply Z.ltb_ge in E]; lia. }
  set (y := JSString.pad 4 (JSString.of_Z (eraYear (JSDate.getFullYear t)))).
  assert (JSString.digits_value 0 y = eraYear (JSDate.getFullYear t)) as Ey.
  { subst y. by rewrite pad_value, of_Z_value. }
  clearbody y.
  pose proof (Z.mod_pos_bound (JSDate.months t) 12 ltac:(lia)) as Hm.
  fold (JSDate.getMonth t) in Hm.
  assert (JSDate.getMonth t = 0 ∨ JSDate.getMonth t = 1 ∨ JSDate.getMonth t = 2
          ∨ JSDate.getMonth t = 3 ∨ JSDate.getMonth t = 4 ∨ JSDate.getMonth t = 5
          ∨ JSDate.getMonth t = 6 ∨ JSDate.getMonth t = 7 ∨ JSDate.getMonth t = 8
          ∨ JSDate.getMonth t = 9 ∨ JSDate.getMonth t = 10
          ∨ JSDate.getMonth t = 11) as Hcase by lia.
  destruct_or!; rewrite Hcase; cbn [Z.to_nat Pos.to_nat Pos.iter_op Init.Nat.add nth JSDate.monthNames];
    rewrite !append_cons, !append_nil_l; by split.
Qed.

(** Labels tell months apart as long as the years are of the common era:
    a label names a month of the year and the number of a year. *)
Lemma label_inj (a b : JSDate.localtime) :
  0 < JSDate.getFullYear a → 0 ≤ JSDate.getFullYear b →
  JSDate.formatted_MMM_yyyy b = JSDate.formatted_MMM_yyyy a →
  2 ≤ JSDate.getFullYear a ∨ 0 < JSDate.getFullYear b →
  JSDate.months b = JSDate.months a.
Proof.
  intros Ha Hb E Hera.
  destruct (label_read a) as [Ma Ya], (label_read b) as [Mb Yb].
  rewrite E in Mb, Yb. rewrite Ma in Mb. rewrite Ya in Yb.
  apply months_eq. split; [| done].
  unfold eraYear in Yb.
  destruct (0 <? JSDate.getFullYear a) eqn:E1; [| apply Z.ltb_ge in E1; lia].
  destruct (0 <? JSDate.getFullYear b) eqn:E2; [done |].
  apply Z.ltb_ge in E2. lia.
Qed.

(** ** Tables *)

Lemma get_None (o : JSObject.t) (k : string) :
  JSObject.get o k = None ↔ k ∉ o.*1.
Proof.
  induction o as [| [k' v] o IH]; cbn;
    [split; [intros _; apply not_elem_of_nil | done] |].
  rewrite not_elem_of_cons. destruct (decide (k' = k)) as [-> | Hne].
  - split; [done | tauto].
  - rewrite IH. split; [by intros | tauto].
Qed.

(** A property that is not there yet goes last. *)
Lemma set_fresh (o : JSObject.t) (k : string) (v : number) :
  JSObject.get o k = None → JSObject.set o k v = (o ++ [(k, v)])%list.
Proof.
  induction o as [| [k' v'] o IH]; cbn; [done |].
  destruct (decide (k' = k)); [done |]. intros H. by rewrite IH.
Qed.

(** [o[k] += a] behind the test [o.hasOwnProperty(k)], on a table whose
    keys are distinct: the value under [k], if any, grows by [a]. *)
Lemma set_add (o : JSObject.t) (k : string) (a : number) :
  NoDup o.*1 →
  match JSObject.get o k with
  | Some v => JSObject.set o k (JSNumber.add v a)
  | None => o
  end
  = (λ '(k', v), (k', if decide (k' = k) then JSNumber.add v a else v)) <$> o.
Proof.
  induction o as [| [k' v'] o IH]; cbn; [done |].
  intros [Hk' Hnd]%NoDup_cons.
  destruct (decide (k' = k)) as [-> | Hne].
  - f_equal. rewrite <- (list_fmap_id o) at 1. apply list_fmap_ext.
    intros i [k' v] Hi. cbn. rewrite decide_False; [done |].
    intros ->. apply Hk', list_elem_of_fmap. exists (k, v).
    split; [done |]. by eapply list_elem_of_lookup_2.
  - specialize (IH Hnd). destruct (JSObject.get o k); by rewrite <- IH.
Qed.

(** ** The monthly series *)

Lemma new_Date_now (now : JSDate.localtime) (i : Z) :
  100 ≤ JSDate.getFullYear now →
  JSDate.new_Date (JSDate.getFullYear now) (JSDate.getMonth now - i)
  = {| JSDate.months := JSDate.months now - i; JSDate.day := 1; JSDate.ms := 0 |}.
Proof.
  intros Hy. unfold JSDate.new_Date.
  assert ((0 <=? JSDate.getFullYear now) && (JSDate.getFullYear now <=? 99) = false) as ->.
  { apply andb_false_iff. right. apply Z.leb_gt. lia. }
  f_equal. unfold JSDate.getFullYear, JSDate.getMonth.
  pose proof (Z.div_mod (JSDate.months now) 12). lia.
Qed.

Lemma getFullYear_back (now : JSDate.localtime) (i : Z) :
  100 ≤ JSDate.getFullYear now → 0 ≤ i ≤ 11 →
  99 ≤ JSDate.getFullYear
         {| JSDate.months := JSDate.months now - i; JSDate.day := 1; JSDate.ms := 0 |}.
Proof.
  unfold JSDate.getFullYear. cbn. intros Hy Hi.
  apply Z.div_le_lower_bound; [lia |].
  pose proof (Z.div_mod (JSDate.months now) 12).
  pose proof (Z.mod_pos_bound (JSDate.months now) 12). lia.
Qed.

Lemma labelBack_inj (now : JSDate.localtime) (i j : nat) :
  100 ≤ JSDate.getFullYear now → (i < 12)%nat → (j < 12)%nat →
  labelBack now i = labelBack now j → i = j.
Proof.
  intros Hy Hi Hj E. unfold labelBack in E.
  pose proof (getFullYear_back now (Z.of_nat i) Hy ltac:(lia)) as Yi.
  pose proof (getFullYear_back now (Z.of_nat j) Hy ltac:(lia)) as Yj.
  apply label_inj in E; [| lia ..]. cbn in E. lia.
Qed.

(** The loop leaves the twelve labels behind what the table held, the
    oldest month first, each with 0. *)
Lemma lastMonths_spec (now : JSDate.localtime) (n : nat) :
  100 ≤ JSDate.getFullYear now → (n ≤ 12)%nat →
  ∀ monthlyData : JSObject.t,
    (∀ i, (i < n)%nat → labelBack now i ∉ monthlyData.*1) →
    lastMonths n now monthlyData
    = Ok (monthlyData
          ++ ((λ i, (labelBack now i, JSNumber.of_Z 0)) <$> countdown n))%list.
Proof.
  intros Hy. induction n as [| n IH]; intros Hn o Hfresh.
  - cbn. by rewrite app_nil_r.
  - cbn [lastMonths countdown fmap list_fmap].
    rewrite new_Date_now by done. cbn [JSDate.format_MMM_yyyy mbind result_bind].
    fold (labelBack now n).
    rewrite set_fresh by (apply get_None, Hfresh; lia).
    rewrite IH; [by rewrite <- app_assoc | lia |].
    intros i Hi. rewrite fmap_app, elem_of_app. intros [Hin | Hin].
    + by apply (Hfresh i ltac:(lia)).
    + apply list_elem_of_singleton in Hin. cbn in Hin.
      apply labelBack_inj in Hin; [lia | done | lia | lia].
Qed.

Lemma fmap_pair_id (o : JSObject.t) (f : string → number → number) :
  (∀ k v, f k v = v) → (λ '(k, v), (k, f k v)) <$> o = o.
Proof.
  intros Hf. rewrite <- (list_fmap_id o) at 2. apply list_fmap_ext.
  intros i [k v] _. cbn. by rewrite Hf.
Qed.

Lemma addToMonth_spec (o : JSObject.t) (t : Transaction) (key : string) :
  NoDup o.*1 → monthKeyOf t = Ok key →
  addToMonth o t
  = Ok ((λ '(k, v), (k, if decide (k = key) then JSNumber.add v (amount t) else v))
        <$> o).
Proof.
  intros Hnd Hkey. unfold addToMonth. fold (monthKeyOf t). rewrite Hkey.
  cbn [mbind result_bind]. rewrite <- (set_add o key (amount t) Hnd).
  unfold JSObject.hasOwnProperty. by destruct (JSObject.get o key).
Qed.

(** On a table with distinct keys, and for dates that [parseISO] reads,
    the pass over the transactions adds to each value the amounts filed
    under its key, in the order of the list. *)
Lemma forEach_addToMonth (l : list Transaction) :
  ∀ monthlyData : JSObject.t,
    NoDup monthlyData.*1 →
    Forall (λ t, JSDate.parseISO (date t) ≠ JSDate.InvalidDate) l →
    forEach addToMonth l monthlyData
    = Ok ((λ '(k, v),
             (k, fold_left (λ sum t, JSNumber.add sum (amount t))
                           (filter (λ t, monthKeyOf t = Ok k) l) v))
          <$> monthlyData).
Proof.
  induction l as [| t l IH]; intros o Hnd Hall.
  - cbn. f_equal. symmetry. by apply fmap_pair_id.
  - apply Forall_cons in Hall as [Ht Hall].
    assert (∃ key, monthKeyOf t = Ok key) as [key Ekey].
    { unfold monthKeyOf. destruct (JSDate.parseISO (date t)); [by eexists | done]. }
    cbn [forEach]. rewrite (addToMonth_spec o t key Hnd Ekey).
    cbn [mbind result_bind]. rewrite IH; [| | done].
    + f_equal. rewrite <- list_fmap_compose. apply list_fmap_ext.
      intros i [k v'] _. cbn. f_equal.
      destruct (decide (k = key)) as [-> | Hne].
      * by rewrite decide_True.
      * rewrite decide_False; [done |]. rewrite Ekey. by intros [= ->].
    + rewrite <- list_fmap_compose.
      erewrite (list_fmap_ext _ fst); [apply Hnd | by intros ? [? ?] _].
Qed.

Lemma countdown_lookup (k : nat) :
  (k < 12)%nat → countdown 12 !! k = Some (11 - k)%nat.
Proof.
  intros H. do 12 (destruct k as [| k]; [done |]). lia.
Qed.

Lemma labelBack_bucket (now : JSDate.localtime) (k : nat) :
  (k < 12)%nat →
  labelBack now (11 - k) = JSDate.formatted_MMM_yyyy (monthBucket now k).
Proof.
  intros H. unfold labelBack, monthBucket. do 2 f_equal. lia.
Qed.

(** A transaction is filed under the label of a month of the series
    exactly when its date is a date of that month. *)
Lemma monthKeyOf_bucket (now : JSDate.localtime) (k : nat) (t : Transaction) :
  100 ≤ JSDate.getFullYear now → (k < 12)%nat →
  monthKeyOf t = Ok (JSDate.formatted_MMM_yyyy (monthBucket now k))
  ↔ sameMonth (JSDate.parseISO (date t)) (monthBucket now k).
Proof.
  intros Hy Hk. unfold monthKeyOf.
  destruct (JSDate.parseISO (date t)) as [d |] eqn:Ed; [| done].
  apply parseISO_Valid in Ed as (Hd & _). cbn [JSDate.format_MMM_yyyy sameMonth].
  assert (99 ≤ JSDate.getFullYear (monthBucket now k)) as Hb.
  { pose proof (getFullYear_back now (11 - Z.of_nat k) Hy ltac:(lia)) as H.
    unfold monthBucket. by replace (JSDate.months now - 11 + Z.of_nat k)
      with (JSDate.months now - (11 - Z.of_nat k)) by lia. }
  split.
  - intros [= E]. apply months_eq. apply label_inj; [lia | lia | done | lia].
  - intros [Ey Em]. unfold JSDate.formatted_MMM_yyyy. by rewrite Ey, Em.
Qed.

Lemma roundCents_zero : roundCents (JSNumber.of_Z 0) = JSNumber.of_Z 0.
Proof. reflexivity. Qed.

Lemma countdown_NoDup : NoDup (countdown 12).
Proof. apply (bool_decide_unpack _). by vm_compute. Qed.

Lemma countdown_lt (n i : nat) : i ∈ countdown n → (i < n)%nat.
Proof.
  induction n as [| n IH]; cbn; [by intros ?%elem_of_nil |].
  intros [-> | H]%elem_of_cons; [lia |]. specialize (IH H). lia.
Qed.

(** C3, as the code has it: for an evaluation time in the year 100 or later
    and a collection whose expense transactions carry dates that [parseISO]
    reads (complete calendar dates),
    [getMonthlyData] returns exactly twelve rows, one per calendar month
    from the month eleven months before the current one (first) to the
    current month (last), labelled "MMM yyyy"; the amount of a row is the
    sum, from 0 and in the order of the collection, of the amounts of the
    expense transactions dated in that month and year, rounded by
    [Math.round(amount * 100) / 100]; transactions of other months add to
    no row; a month without expense transactions reports 0, so that all
    twelve rows report 0 for the empty collection. *)
Theorem getMonthlyData_last_twelve_months
    (ts : list Transaction) (now : JSDate.localtime) :
  100 ≤ JSDate.getFullYear now →
  (∀ t, t ∈ ts → type t = expense →
        JSDate.parseISO (date t) ≠ JSDate.InvalidDate) →
  let matching k :=
    filter (λ t, type t = expense
                 ∧ sameMonth (JSDate.parseISO (date t)) (monthBucket now k)) ts in
  ∃ rows,
    getMonthlyData ts now = Ok rows
    ∧ length rows = 12%nat
    ∧ (∀ k, (k < 12)%nat →
         rows !! k
         = Some (JSDate.formatted_MMM_yyyy (monthBucket now k),
                 roundCents (sumAmounts (matching k))))
    ∧ (∀ k, (k < 12)%nat → matching k = [] →
         rows !! k
         = Some (JSDate.formatted_MMM_yyyy (monthBucket now k), JSNumber.of_Z 0))
    ∧ (ts = [] → Forall (λ row, row.2 = JSNumber.of_Z 0) rows).
Proof.
  intros Hy Hdates matching.
  unfold getMonthlyData.
  rewrite (lastMonths_spec now 12 Hy (le_n _) JSObject.empty)
    by (intros i _; apply not_elem_of_nil).
  cbn [mbind result_bind JSObject.empty app].
  rewrite forEach_addToMonth.
  2:{ rewrite <- list_fmap_compose.
      apply NoDup_fmap_2_strong; [| apply countdown_NoDup].
      intros i j Hi%countdown_lt Hj%countdown_lt E. cbn in E.
      by apply labelBack_inj in E. }
  2:{ apply Forall_forall. intros t [Ht Hin]%list_elem_of_filter. by apply Hdates. }
  cbn [mbind result_bind]. unfold JSObject.entries.
  eexists. split; [reflexivity |].
  match goal with |- length ?r = _ ∧ _ => set (rows := r) end.
  assert (∀ k, (k < 12)%nat →
            rows !! k
            = Some (JSDate.formatted_MMM_yyyy (monthBucket now k),
                    roundCents (sumAmounts (matching k)))) as Hrows.
  { intros k Hk. subst rows.
    rewrite !list_lookup_fmap, countdown_lookup by done. cbn.
    rewrite labelBack_bucket by done. do 3 f_equal.
    unfold sumAmounts, matching. f_equal.
    rewrite list_filter_filter. apply list_filter_iff. intros t.
    rewrite (monthKeyOf_bucket now k t Hy Hk). unfold isExpense. tauto. }
  assert (length rows = 12%nat) as Hlen by (subst rows; by rewrite !length_fmap).
  clearbody rows. split_and!.
  - done.
  - done.
  - intros k Hk E. rewrite (Hrows k Hk), E. done.
  - intros E. apply Forall_forall. intros row Hrow.
    apply list_elem_of_lookup in Hrow as [k Hk].
    assert (k < 12)%nat as Hlt by (apply lookup_lt_Some in Hk; lia).
    rewrite (Hrows k Hlt) in Hk. injection Hk as <-.
    subst matching. cbn beta. by rewrite E.
Qed.

Lemma getMonthlyData_witness :
  let matching k :=
    filter (λ t, type t = expense
                 ∧ sameMonth (JSDate.parseISO (date t)) (monthBucket march2024 k))
           year2024 in
  ∃ rows,
    getMonthlyData year2024 march2024 = Ok rows
    ∧ length rows = 12%nat
    ∧ (∀ k, (k < 12)%nat →
         rows !! k
         = Some (JSDate.formatted_MMM_yyyy (monthBucket march2024 k),
                 roundCents (sumAmounts (matching k))))
    ∧ (∀ k, (k < 12)%nat → matching k = [] →
         rows !! k
         = Some (JSDate.formatted_MMM_yyyy (monthBucket march2024 k), JSNumber.of_Z 0))
    ∧ (year2024 = [] → Forall (λ row, row.2 = JSNumber.of_Z 0) rows).
Proof.
  apply (getMonthlyData_last_twelve_months year2024 march2024).
  - by vm_compute.
  - intros t Ht _. unfold year2024 in Ht.
    repeat (apply elem_of_cons in Ht as [-> | Ht]; [by vm_compute |]).
    by apply elem_of_nil in Ht.
Defined.

Example getMonthlyData_example :
  getMonthlyData year2024 march2024
  = Ok [("Apr 2023", JSNumber.of_Z 42); ("May 2023", JSNumber.of_Z 0);
        ("Jun 2023", JSNumber.of_Z 0); ("Jul 2023", JSNumber.of_Z 0);
        ("Aug 2023", JSNumber.of_Z 0); ("Sep 2023", JSNumber.of_Z 0);
        ("Oct 2023", JSNumber.of_Z 0); ("Nov 2023", JSNumber.of_Z 0);
        ("Dec 2023", JSNumber.of_Z 0); ("Jan 2024", JSNumber.of_Z 0);
        ("Feb 2024", JSNumber.of_Z 0); ("Mar 2024", parseFloat "20.01")].
Proof. by vm_compute. Qed.

(** C3, as the specification has it, fails for a collection and for an
    evaluation time.  An expense whose date field holds a year of five
    digits, a payload that [validateForm] lets through, makes
    [getMonthlyData] throw the RangeError of [format]: there is no series.
    And in March of the year 99 the twelve months of the series are those
    that end in March 1999, so that an expense of the current month, March
    0099, is in no row. *)
Lemma getMonthlyData_gives_no_series :
  snd (validateForm lunchIn20245) = true
  ∧ getMonthlyData [newTransaction 1700000000000 1700000000000 None lunchIn20245]
                   march2024
    = Throw (RangeError "Invalid time value")
  ∧ JSDate.formatted_MMM_yyyy march0099 = "Mar 0099"
  ∧ match getMonthlyData [record "1" "12.50" "0099-03-01" expense "Other"] march0099 with
    | Ok rows => last rows = Some ("Mar 1999", JSNumber.of_Z 0)
    | Throw _ => False
    end.
Proof. split_and!; by vm_compute. Qed.

(** ** Sums of amounts that are not negative *)

Lemma iter_pos_invariant {A : Type} (P : A → Prop) (f : A → A) :
  (∀ x, P x → P (f x)) → ∀ n x, P x → P (SpecFloat.iter_pos f n x).
Proof.
  intros Hf. induction n as [n IH | n IH |]; intros x Hx; cbn; auto.
Qed.

Lemma shr_1_nonneg (mrs : shr_record) : 0 ≤ shr_m mrs → 0 ≤ shr_m (shr_1 mrs).
Proof. destruct mrs as [[| [p | p |] | p] r s]; cbn; lia. Qed.

Lemma shr_fexp_nonneg (m e : Z) (l : location) :
  0 ≤ m → 0 ≤ shr_m (fst (shr_fexp JSNumber.prec JSNumber.emax m e l)).
Proof.
  intros Hm. unfold shr_fexp, shr.
  assert (0 ≤ shr_m (shr_record_of_loc m l)) as H0 by (by destruct l as [| []]).
  destruct (_ - e) as [| n | n]; cbn [fst]; [done | | done].
  by apply iter_pos_invariant; [apply shr_1_nonneg |].
Qed.

Lemma round_nearest_even_nonneg (m : Z) (l : location) :
  0 ≤ m → 0 ≤ round_nearest_even m l.
Proof.
  intros Hm. destruct l as [| []]; cbn [round_nearest_even];
    try destruct (Z.even m); lia.
Qed.

Lemma binary_round_aux_nonneg (m e : Z) (l : location) :
  0 ≤ m → nonneg (binary_round_aux JSNumber.prec JSNumber.emax false m e l).
Proof.
  intros Hm. unfold binary_round_aux.
  pose proof (shr_fexp_nonneg m e l Hm) as H1.
  destruct (shr_fexp _ _ m e l) as [mrs' e']. cbn [fst] in H1.
  pose proof (shr_fexp_nonneg _ e' loc_Exact
                (round_nearest_even_nonneg _ (loc_of_shr_record mrs') H1)) as H2.
  destruct (shr_fexp _ _ (round_nearest_even _ _) e' loc_Exact) as [mrs'' e''].
  cbn [fst] in H2. destruct (shr_m mrs'') as [| p | p]; [done | | lia].
  by destruct (e'' <=? _).
Qed.

Lemma binary_round_nonneg (m : positive) (e : Z) :
  nonneg (binary_round JSNumber.prec JSNumber.emax false m e).
Proof.
  unfold binary_round. destruct (shl_align m e _) as [mz ez].
  by apply binary_round_aux_nonneg.
Qed.

(** The sum of two numbers that are not negative is not negative. *)
Lemma add_nonneg (x y : number) : nonneg x → nonneg y → nonneg (JSNumber.add x y).
Proof.
  destruct x as [[] | [] | | [] mx ex], y as [[] | [] | | [] my ey]; try done.
  intros _ _. unfold JSNumber.add, SFadd, cond_Zopp.
  cbn [Z.add]. cbn [binary_normalize]. apply binary_round_nonneg.
Qed.

(** On a number that is not negative, [x || 0] is [x]. *)
Lemma or_else_nonneg (x : number) :
  nonneg x → JSNumber.or_else x (JSNumber.of_Z 0) = x.
Proof. by destruct x as [[] | [] | | [] ? ?]. Qed.

(** ** The category breakdown *)

Lemma get_set (o : JSObject.t) (k k' : string) (v : number) :
  JSObject.get (JSObject.set o k v) k'
  = if decide (k = k') then Some v else JSObject.get o k'.
Proof.
  induction o as [| [k0 v0] o IH]; cbn.
  - destruct (decide (k = k')); done.
  - destruct (decide (k0 = k)) as [-> | Hne]; cbn.
    + destruct (decide (k = k')); done.
    + rewrite IH. destruct (decide (k0 = k')) as [-> | ?]; [| done].
      by rewrite decide_False.
Qed.

Lemma keys_set (o : JSObject.t) (k : string) (v : number) :
  (JSObject.set o k v).*1 = if decide (k ∈ o.*1) then o.*1 else (o.*1 ++ [k])%list.
Proof.
  induction o as [| [k0 v0] o IH]; cbn; [done |].
  destruct (decide (k0 = k)) as [-> | Hne]; cbn.
  - rewrite decide_True; [done | apply list_elem_of_here].
  - rewrite IH. destruct (decide (k ∈ o.*1)) as [Hin | Hin].
    + rewrite decide_True; [done | by apply list_elem_of_further].
    + rewrite decide_False; [done |]. by intros [? | ?]%elem_of_cons.
Qed.

Lemma keys_set_NoDup (o : JSObject.t) (k : string) (v : number) :
  NoDup o.*1 → NoDup (JSObject.set o k v).*1.
Proof.
  intros Hnd. rewrite keys_set. destruct (decide _) as [| Hin]; [done |].
  apply NoDup_app. split_and!; [done | | apply NoDup_singleton].
  intros x Hx ->%list_elem_of_singleton. done.
Qed.

Lemma keys_set_elem (o : JSObject.t) (k k' : string) (v : number) :
  k' ∈ (JSObject.set o k v).*1 ↔ k' = k ∨ k' ∈ o.*1.
Proof.
  rewrite keys_set. destruct (decide _) as [Hin | Hin].
  - split; [by right | by intros [-> | ?]].
  - rewrite elem_of_app, list_elem_of_singleton. tauto.
Qed.

Lemma get_Some_elem (o : JSObject.t) (k : string) (v : number) :
  NoDup o.*1 → (k, v) ∈ o ↔ JSObject.get o k = Some v.
Proof.
  induction o as [| [k0 v0] o IH]; cbn; intros Hnd.
  - split; [by intros ?%elem_of_nil | done].
  - apply NoDup_cons in Hnd as [Hk0 Hnd]. rewrite elem_of_cons, (IH Hnd).
    destruct (decide (k0 = k)) as [-> | Hne].
    + split; [| by intros [= ->]; left].
      intros [[= ->] | Hget]; [done |]. exfalso.
      apply get_None in Hk0. by rewrite Hk0 in Hget.
    + split; [by intros [[= ? ?] | ?] | by right].
Qed.

Lemma fold_addToCategory (l : list Transaction) :
  ∀ (o : JSObject.t) (c : string),
    NoDup o.*1 →
    NoDup (fold_left addToCategory l o).*1
    ∧ (c ∈ (fold_left addToCategory l o).*1
       ↔ c ∈ o.*1 ∨ ∃ t, t ∈ l ∧ category t = c)
    ∧ JSObject.get (fold_left addToCategory l o) c
      = fold_left categoryStep (filter (λ t, category t = c) l) (JSObject.get o c).
Proof.
  induction l as [| t l IH]; intros o c Hnd; cbn [fold_left].
  - split_and!; [done | | done]. split; [by left |].
    by intros [? | (t & ?%elem_of_nil & _)].
  - destruct (IH (addToCategory o t) c) as (H1 & H2 & H3);
      [by apply keys_set_NoDup |].
    split_and!; [done | |].
    + rewrite H2. unfold addToCategory at 1. rewrite keys_set_elem.
      split.
      * intros [[-> | ?] | (u & Hu & Ec)]; [right; exists t | by left | right; exists u];
          split; try done; [apply list_elem_of_here | by apply list_elem_of_further].
      * intros [? | (u & [-> | Hu]%elem_of_cons & Ec)];
          [left; by right | left; by left | right; by exists u].
    + rewrite H3. unfold addToCategory at 1. rewrite get_set.
      destruct (decide (category t = c)) as [<- | Hne].
      * by rewrite filter_cons_True.
      * by rewrite filter_cons_False.
Qed.

Lemma fold_categoryStep (l : list Transaction) (t : Transaction) (v : option number) :
  fold_left categoryStep (t :: l) v
  = Some (fold_left
            (λ sum t, JSNumber.add (JSNumber.or_else sum (JSNumber.of_Z 0)) (amount t))
            l (JSNumber.add
                 (JSNumber.or_else (default (JSNumber.of_Z 0) v) (JSNumber.of_Z 0))
                 (amount t))).
Proof.
  cbn [fold_left]. unfold categoryStep at 2.
  generalize (JSNumber.add
                (JSNumber.or_else (default (JSNumber.of_Z 0) v) (JSNumber.of_Z 0))
                (amount t)).
  induction l as [| u l IH]; intros x; [done |]. cbn [fold_left]. apply IH.
Qed.

Lemma fold_or_else_nonneg (l : list Transaction) :
  Forall (λ t, nonneg (amount t)) l →
  ∀ x, nonneg x →
       fold_left
         (λ sum t, JSNumber.add (JSNumber.or_else sum (JSNumber.of_Z 0)) (amount t)) l x
       = fold_left (λ sum t, JSNumber.add sum (amount t)) l x.
Proof.
  induction 1 as [| t l Ht _ IH]; intros x Hx; [done |].
  cbn [fold_left]. rewrite or_else_nonneg by done.
  apply IH. by apply add_nonneg.
Qed.

(** With amounts that are not negative the accumulation is the plain sum. *)
Lemma categorySum_nonneg (l : list Transaction) :
  Forall (λ t, nonneg (amount t)) l → categorySum l = sumAmounts l.
Proof. intros H. by apply fold_or_else_nonneg. Qed.

Lemma fold_categoryStep_None (l : list Transaction) :
  fold_left categoryStep l None
  = match l with [] => None | _ => Some (categorySum l) end.
Proof. destruct l as [| t l]; [done |]. by rewrite fold_categoryStep. Qed.

(** The value the table of [getCategoryData] holds under a category. *)
Lemma categoryData_get (ts : list Transaction) (c : string) :
  let expenses := filter (λ t, type t = expense ∧ category t = c) ts in
  JSObject.get (fold_left addToCategory (filter isExpense ts) JSObject.empty) c
  = match expenses with [] => None | _ => Some (categorySum expenses) end.
Proof.
  intros expenses.
  destruct (fold_addToCategory (filter isExpense ts) JSObject.empty c) as (_ & _ & ->);
    [constructor |].
  cbn [JSObject.get JSObject.empty]. rewrite fold_categoryStep_None.
  rewrite list_filter_filter.
  assert (filter (λ t, category t = c ∧ isExpense t) ts = expenses) as ->; [| done].
  apply list_filter_iff. intros t. unfold isExpense. tauto.
Qed.

(** C5, as the code has it: for a collection whose categories are labels
    of [CATEGORIES] (the keys the table is modelled for),
    [getCategoryData] returns exactly one row per category that has at
    least one expense transaction, and no row for another category; the
    amount of a row is the sum of the expense amounts of its category,
    accumulated in the order of the collection as [(sum || 0) + amount] and
    rounded by [Math.round(amount * 100) / 100]; for amounts that are not
    negative the accumulation is their plain sum from 0.  (Nothing is said
    of the rounded amount being different from 0.) *)
Theorem getCategoryData_rows (ts : list Transaction) :
  Forall (λ t, category t ∈ CATEGORIES) ts →
  let rows := getCategoryData ts in
  let expenses c := filter (λ t, type t = expense ∧ category t = c) ts in
  NoDup rows.*1
  ∧ (∀ c, c ∈ rows.*1 ↔ ∃ t, t ∈ ts ∧ type t = expense ∧ category t = c)
  ∧ (∀ c a, (c, a) ∈ rows
            ↔ expenses c ≠ [] ∧ a = roundCents (categorySum (expenses c)))
  ∧ (Forall (λ t, type t = expense → nonneg (amount t)) ts →
     ∀ c a, (c, a) ∈ rows → a = roundCents (sumAmounts (expenses c))).
Proof.
  intros _ rows expenses. subst rows. unfold getCategoryData, JSObject.entries.
  set (o := fold_left addToCategory (filter isExpense ts) JSObject.empty).
  assert (NoDup o.*1) as Hnd.
  { by destruct (fold_addToCategory (filter isExpense ts) JSObject.empty "") as (? & _);
      [constructor |]. }
  assert (((λ '(category, amount), (category, roundCents amount)) <$> o).*1 = o.*1) as Ekeys.
  { rewrite <- list_fmap_compose. apply list_fmap_ext. by intros i [? ?] _. }
  assert (∀ c a, (c, a) ∈ (λ '(category, amount), (category, roundCents amount)) <$> o
                 ↔ expenses c ≠ [] ∧ a = roundCents (categorySum (expenses c))) as Hrows.
  { intros c a. rewrite list_elem_of_fmap. split.
    - intros ([c' v] & [= -> ->] & Hin). apply get_Some_elem in Hin; [| done].
      subst o. rewrite categoryData_get in Hin. fold (expenses c') in Hin.
      destruct (expenses c'); [done |]. by injection Hin as <-.
    - intros [Hne ->]. exists (c, categorySum (expenses c)). split; [done |].
      apply get_Some_elem; [done |]. subst o. rewrite categoryData_get.
      fold (expenses c). by destruct (expenses c). }
  rewrite Ekeys. split_and!; [done | | done |].
  - intros c. subst o.
    destruct (fold_addToCategory (filter isExpense ts) JSObject.empty c) as (_ & -> & _);
      [constructor |].
    cbn [JSObject.empty fmap list_fmap]. split.
    + intros [?%elem_of_nil | (t & [Ht Hin]%list_elem_of_filter & Ec)]; [done |].
      by exists t.
    + intros (t & Hin & Ht & Ec). right. exists t. split; [| done].
      by apply list_elem_of_filter.
  - intros Hall c a [Hne ->]%Hrows. f_equal. apply categorySum_nonneg.
    apply Forall_forall. intros t [[Ht _] Hin]%list_elem_of_filter.
    eapply Forall_forall in Hall; [by apply Hall | done].
Qed.

Lemma getCategoryData_witness :
  let rows := getCategoryData year2024 in
  let expenses c := filter (λ t, type t = expense ∧ category t = c) year2024 in
  NoDup rows.*1
  ∧ (∀ c, c ∈ rows.*1 ↔ ∃ t, t ∈ year2024 ∧ type t = expense ∧ category t = c)
  ∧ (∀ c a, (c, a) ∈ rows
            ↔ expenses c ≠ [] ∧ a = roundCents (categorySum (expenses c)))
  ∧ (Forall (λ t, type t = expense → nonneg (amount t)) year2024 →
     ∀ c a, (c, a) ∈ rows → a = roundCents (sumAmounts (expenses c))).
Proof.
  apply (getCategoryData_rows year2024).
  repeat (apply Forall_cons; split;
          [apply (bool_decide_unpack _); by vm_compute |]).
  apply Forall_nil_2.
Defined.

(** C5, as the specification has it, fails: a category whose only expense
    is 0.004, a positive amount, has a row, and the amount of the row
    is 0. *)
Lemma getCategoryData_row_of_zero :
  let ts := [record "1" "0.004" "2024-03-01" expense "Other"] in
  JSNumber.ltb (JSNumber.of_Z 0) (parseFloat "0.004") = true
  ∧ getCategoryData ts = [("Other", JSNumber.of_Z 0)].
Proof. by vm_compute. Qed.

Example getCategoryData_example :
  getCategoryData year2024
  = [("Shopping", parseFloat "19.99"); ("Other", parseFloat "0.02");
     ("Travel", parseFloat "49.5")].
Proof. by vm_compute. Qed.

(** * Further properties of the code *)

(** ** What the store holds *)

Lemma trimEnd_idem (s : string) :
  JSString.trimEnd (JSString.trimEnd s) = JSString.trimEnd s.
Proof.
  induction s as [| c s IH]; [done |]. cbn [JSString.trimEnd].
  destruct (JSString.trimEnd s) as [| d r] eqn:E.
  - destruct (JSString.is_white c) eqn:W; [done |]. cbn. by rewrite W.
  - change (match JSString.trimEnd (String d r) with
            | "" => if JSString.is_white c then "" else String c ""
            | String a s0 => String c (String a s0)
            end = String c (String d r)).
    by rewrite IH.
Qed.

Lemma trimStart_head (s : string) :
  match JSString.trimStart s with
  | String c _ => JSString.is_white c = false
  | EmptyString => True
  end.
Proof.
  induction s as [| c s IH]; [done |]. cbn.
  destruct (JSString.is_white c) eqn:W; done.
Qed.

Lemma trimEnd_head (c : ascii) (s : string) :
  JSString.is_white c = false →
  ∃ r, JSString.trimEnd (String c s) = String c r.
Proof.
  intros W. cbn. destruct (JSString.trimEnd s); [rewrite W |]; by eexists.
Qed.

(** Trimming what is trimmed changes nothing. *)
Lemma trim_idem (s : string) : JSString.trim (JSString.trim s) = JSString.trim s.
Proof.
  unfold JSString.trim. pose proof (trimStart_head s) as H.
  destruct (JSString.trimStart s) as [| c r]; [done |].
  destruct (trimEnd_head c r H) as [r' E]. rewrite E.
  cbn [JSString.trimStart]. rewrite H, <- E. apply trimEnd_idem.
Qed.

(** [validateForm] returns [true] exactly when each field passes its
    rule. *)
Lemma validateForm_passes (fd : FormData) :
  snd (validateForm fd) = true ↔
  amountRejected fd = false ∧ form_date fd ≠ ""
  ∧ JSString.trim (form_description fd) ≠ "" ∧ form_category fd ≠ "".
Proof.
  rewrite validateForm_valid.
  destruct (validateForm_lookup fd) as (Ha & Hd & Hs & Hc & Hk).
  cbn zeta in *. split.
  - intros E. rewrite E in Ha, Hd, Hs, Hc. rewrite lookup_empty in Ha, Hd, Hs, Hc.
    split_and!.
    + by destruct (amountRejected fd).
    + by destruct (decide (form_date fd = "")).
    + by destruct (decide (JSString.trim (form_description fd) = "")).
    + by destruct (decide (form_category fd = "")).
  - intros (Ea & Ed & Es & Ec). apply map_eq. intros k. rewrite lookup_empty.
    destruct (decide (k ∈ ["amount"; "date"; "description"; "category"])) as [Hin | Hin];
      [| by apply Hk].
    rewrite !elem_of_cons in Hin.
    destruct Hin as [-> | [-> | [-> | [-> | Hin]]]].
    + by rewrite Ha, Ea.
    + by rewrite Hd, decide_False.
    + by rewrite Hs, decide_False.
    + by rewrite Hc, decide_False.
    + by apply elem_of_nil in Hin.
Qed.

Lemma newTransaction_passes
    (now created : Z) (editing : option Transaction) (fd : FormData) :
  snd (validateForm fd) = true → passesValidation (newTransaction now created editing fd).
Proof.
  intros (Ea & Ed & Es & Ec)%validateForm_passes.
  unfold amountRejected in Ea. apply orb_false_iff in Ea as [Ea1 Ea2].
  apply negb_false_iff, truthy_nonempty in Ea1.
  unfold passesValidation. cbn. split_and!; try done.
  - by exists (form_amount fd).
  - apply trim_idem.
Qed.

Lemma reachable_passes (Number_toString : number → string) (tr : list Event) (s : State) :
  reachable Number_toString tr s →
  Forall passesValidation (transactions s).
Proof.
  induction 1 as [| tr s e Hr IH Hen | tr s sorted Hr IH Hperm];
    [apply Forall_nil_2 | | cbn; by rewrite Hperm].
  destruct e as [fd | b | b | now created | t | id0]; cbn [handle]; try done.
  - destruct (handleSubmit_cases now created s) as [(_ & -> & _) | (Hv & _ & Ht)];
      [done |].
    destruct (editingTransaction s) as [editing |] eqn:He; rewrite Ht.
    + apply Forall_fmap. eapply Forall_impl; [apply IH |].
      intros t Hs. cbn. destruct (decide (id t = id editing)); [| done].
      by apply newTransaction_passes.
    + apply Forall_app. split; [done |]. apply Forall_singleton.
      by apply newTransaction_passes.
  - rewrite handleDelete_transactions. apply Forall_forall.
    intros t [_ Ht]%list_elem_of_filter. by eapply Forall_forall in IH.
Qed.

(** X1: every record of a collection reached through the flows has passed
    [validateForm]: its amount was read by [parseFloat] off a non-empty
    field and is not below or equal to zero, its date and its category are
    not empty, and its description is not empty and carries no white space
    at either end ([handleSubmit] stores the trimmed text). *)
Theorem stored_records_pass_validation
    (Number_toString : number → string) (tr : list Event) (s : State) :
  reachable Number_toString tr s →
  Forall passesValidation (transactions s).
Proof. apply reachable_passes. Qed.

Lemma stored_records_witness :
  Forall passesValidation (transactions (run NumberPrototype.toString twoAdds)).
Proof.
  apply (stored_records_pass_validation NumberPrototype.toString twoAdds).
  apply reachable_run. vm_compute. split_and!; try done. apply list_elem_of_here.
Defined.



(** The two readings of a submission can differ: the record of the second
    add of [twoAdds] has the [id] of one millisecond and the [createdAt]
    of the next. *)
Example stamps_of_two_readings :
  (λ t, (id t, createdAt t)) <$> transactions (run NumberPrototype.toString twoAdds)
  = [("1700000001000", "2023-11-14T22:13:21.001Z")].
Proof. by vm_compute. Qed.

(** ** Submissions *)

Lemma validateForm_emptyForm : validateForm emptyForm = (allErrors, false).
Proof. reflexivity. Qed.

(** X3: a submission that passes validation leaves the form empty and
    the errors cleared ([resetForm]), so that a second submission right
    after it is rejected with the four messages: it stores nothing and
    leaves the dialogs as they are. *)
Theorem second_submit_is_rejected (now1 created1 now2 created2 : Z) (s : State) :
  snd (validateForm (formData s)) = true →
  let once := handleSubmit now1 created1 s in
  let twice := handleSubmit now2 created2 once in
  formData once = emptyForm
  ∧ errors once = ∅
  ∧ transactions twice = transactions once
  ∧ errors twice = allErrors
  ∧ isAddDialogOpen twice = isAddDialogOpen once
  ∧ isEditDialogOpen twice = isEditDialogOpen once.
Proof.
  intros Hv once twice.
  assert (formData once = emptyForm ∧ errors once = ∅) as [Hf He].
  { subst once. unfold handleSubmit.
    destruct (validateForm (formData s)) as [newErrors valid]. cbn in Hv. subst valid.
    cbn [negb]. by destruct (editingTransaction s). }
  split_and!; try done; subst twice; unfold handleSubmit at 1;
    rewrite Hf, validateForm_emptyForm; done.
Qed.

Lemma second_submit_witness :
  let s := run NumberPrototype.toString [SetFormData lunch; SetIsAddDialogOpen true] in
  let once := handleSubmit 1700000000000 1700000000000 s in
  let twice := handleSubmit 1700000000001 1700000000002 once in
  formData once = emptyForm
  ∧ errors once = ∅
  ∧ transactions twice = transactions once
  ∧ errors twice = allErrors
  ∧ isAddDialogOpen twice = isAddDialogOpen once
  ∧ isEditDialogOpen twice = isEditDialogOpen once.
Proof.
  apply (second_submit_is_rejected 1700000000000 1700000000000
           1700000000001 1700000000002).
  by vm_compute.
Defined.

(** What the edit branch of [handleSubmit] does to the rest of the
    state: it closes the edit dialog only. *)
Lemma handleSubmit_edit_flags (now created : Z) (s : State) (editing : Transaction) :
  editingTransaction s = Some editing →
  snd (validateForm (formData s)) = true →
  isAddDialogOpen (handleSubmit now created s) = isAddDialogOpen s
  ∧ isEditDialogOpen (handleSubmit now created s) = false
  ∧ editingTransaction (handleSubmit now created s) = None
  ∧ formData (handleSubmit now created s) = emptyForm
  ∧ errors (handleSubmit now created s) = ∅.
Proof.
  intros He Hv. unfold handleSubmit.
  destruct (validateForm (formData s)) as [newErrors valid]. cbn in Hv. subst valid.
  cbn [negb]. by rewrite He.
Qed.

(** X4: closing the edit dialog does not end the edit: [editingTransaction]
    stays set, and when the add dialog is then opened, filled and
    submitted, the submission is taken for the edit.  No record is added:
    the records with the id of the transaction that was being edited are
    replaced by that transaction with the values of the form, the
    collection keeps its length, and the add dialog stays open (the edit
    branch closes the edit dialog only). *)
Theorem cancelled_edit_takes_the_next_add
    (Number_toString : number → string) (tr : list Event) (s : State)
    (t : Transaction) (fd : FormData) (now created : Z) :
  reachable Number_toString tr s →
  t ∈ transactions s →
  snd (validateForm fd) = true →
  let cancelled :=
    handle Number_toString (SetIsEditDialogOpen false)
      (handle Number_toString (Edit t) s) in
  let after := foldr (handle Number_toString) s (cancelThenAdd t fd now created) in
  editingTransaction cancelled = Some t
  ∧ isEditDialogOpen cancelled = false
  ∧ transactions after
    = (λ u, if decide (id u = id t) then updatedFrom fd t else u) <$> transactions s
  ∧ length (transactions after) = length (transactions s)
  ∧ updatedFrom fd t ∈ transactions after
  ∧ isAddDialogOpen after = true
  ∧ editingTransaction after = None.
Proof.
  intros Hr Hin Hv cancelled after.
  destruct (reachable_stamped Number_toString tr s Hr) as [Hst _].
  assert (stamped (submitReadings tr) t) as Hse by (by eapply Forall_forall in Hst).
  set (before := handle Number_toString (SetFormData fd)
                   (handle Number_toString (SetIsAddDialogOpen true) cancelled)).
  assert (transactions after
          = (λ u, if decide (id u = id t) then updatedFrom fd t else u)
            <$> transactions s) as E.
  { apply (handleSubmit_replaces now created before t (submitReadings tr)); done. }
  split_and!; try done.
  - by rewrite E, length_fmap.
  - rewrite E. apply list_elem_of_fmap. exists t. by rewrite decide_True.
  - apply (handleSubmit_edit_flags now created before t); done.
  - apply (handleSubmit_edit_flags now created before t); done.
Qed.

Lemma cancelled_edit_witness :
  let s := run NumberPrototype.toString oneAdd in
  let t := newTransaction 1700000000000 1700000000000 None lunch in
  let cancelled :=
    handle NumberPrototype.toString (SetIsEditDialogOpen false)
      (handle NumberPrototype.toString (Edit t) s) in
  let after :=
    foldr (handle NumberPrototype.toString) s
      (cancelThenAdd t salary 1700000005000 1700000005001) in
  editingTransaction cancelled = Some t
  ∧ isEditDialogOpen cancelled = false
  ∧ transactions after
    = (λ u, if decide (id u = id t) then updatedFrom salary t else u) <$> transactions s
  ∧ length (transactions after) = length (transactions s)
  ∧ updatedFrom salary t ∈ transactions after
  ∧ isAddDialogOpen after = true
  ∧ editingTransaction after = None.
Proof.
  apply (cancelled_edit_takes_the_next_add NumberPrototype.toString oneAdd).
  - apply reachable_run. by vm_compute.
  - vm_compute. apply list_elem_of_here.
  - by vm_compute.
Defined.

Lemma zeros_length (n : nat) : String.length (JSString.zeros n) = n.
Proof. induction n as [| n IH]; [done |]. cbn. by rewrite IH. Qed.

Lemma layout_nonempty (s n : Z) : NumberPrototype.layout s n ≠ "".
Proof.
  unfold NumberPrototype.layout. intros H. apply (f_equal String.length) in H.
  pose proof (of_Z_nonempty s) as Hs.
  assert (0 < String.length (JSString.of_Z s))%nat as Hlen
    by (destruct (JSString.of_Z s); [done | cbn; lia]).
  repeat case_match; rewrite ?append_length in H; cbn [String.length] in H;
    rewrite ?append_length in H; cbn [String.length] in H; lia.
Qed.

(** [toString] writes at least one character. *)
Lemma toString_nonempty (x : number) : NumberPrototype.toString x ≠ "".
Proof.
  destruct x as [[] | [] | | [] m e]; try done; cbn [NumberPrototype.toString].
  unfold NumberPrototype.toString_positive.
  destruct (NumberPrototype.shortest _ _ _ _ _ _) as [s n']. apply layout_nonempty.
Qed.

(** X5: the edit button of a record followed by the submission of the
    form as [handleEdit] filled it changes no value, provided that
    [parseFloat] reads the amount back from the text [toString] writes for
    it: the form passes validation, every record with the id of the
    edited one becomes the edited record, so that a collection with
    distinct ids is left as it was, and the edit is over. *)
Theorem edit_without_change_keeps_the_record
    (tr : list Event) (s : State) (t : Transaction) (now created : Z) :
  reachable NumberPrototype.toString tr s →
  t ∈ transactions s →
  parseFloat (NumberPrototype.toString (amount t)) = amount t →
  let edited := handleEdit NumberPrototype.toString t s in
  let after := handleSubmit now created edited in
  snd (validateForm (formData edited)) = true
  ∧ transactions after
    = (λ u, if decide (id u = id t) then t else u) <$> transactions s
  ∧ (NoDup (id <$> transactions s) → transactions after = transactions s)
  ∧ editingTransaction after = None
  ∧ isEditDialogOpen after = false.
Proof.
  intros Hr Hin Hback edited after.
  destruct (reachable_stamped NumberPrototype.toString tr s Hr) as [Hst _].
  pose proof (reachable_passes NumberPrototype.toString tr s Hr) as Hpass.
  assert (stamped (submitReadings tr) t) as Hse by (by eapply Forall_forall in Hst).
  assert (passesValidation t) as (Hpos & _ & Hd & Hdesc & Htrim & Hc)
    by (by eapply Forall_forall in Hpass).
  assert (snd (validateForm (formData edited)) = true) as Hv.
  { apply validateForm_passes. subst edited.
    cbn [formData handleEdit form_amount form_date form_description form_category].
    split_and!; try done.
    - unfold amountRejected.
      cbn [formData handleEdit form_amount form_date form_description form_category].
      rewrite Hback, Hpos.
      pose proof (toString_nonempty (amount t)) as Hne.
      by apply truthy_nonempty in Hne as ->.
    - by rewrite Htrim. }
  assert (transactions after
          = (λ u, if decide (id u = id t) then t else u) <$> transactions s) as E.
  { subst after.
    rewrite (handleSubmit_replaces now created edited t (submitReadings tr)); try done.
    apply list_fmap_ext. intros i u Hi. destruct (decide (id u = id t)) as [Eid |]; [| done].
    unfold updatedFrom. subst edited.
    cbn [formData handleEdit form_amount form_date form_description form_category form_type].
    rewrite Hback, Htrim. by destruct t. }
  split_and!; try done.
  - intros Hnd. rewrite E. rewrite <- (list_fmap_id (transactions s)) at 2.
    apply list_fmap_ext. intros i u Hi. cbn.
    destruct (decide (id u = id t)) as [Eid |]; [| done].
    apply list_elem_of_lookup in Hin as [j Hj].
    assert (i = j) as ->.
    { eapply (NoDup_lookup _ i j (id t) Hnd);
        rewrite list_lookup_fmap; [by rewrite Hi, <- Eid | by rewrite Hj]. }
    congruence.
  - apply (handleSubmit_edit_flags now created edited t); done.
  - apply (handleSubmit_edit_flags now created edited t); done.
Qed.

Lemma edit_without_change_witness :
  let s := run NumberPrototype.toString oneAdd in
  let t := newTransaction 1700000000000 1700000000000 None lunch in
  let edited := handleEdit NumberPrototype.toString t s in
  let after := handleSubmit 1700000005000 1700000005001 edited in
  snd (validateForm (formData edited)) = true
  ∧ transactions after
    = (λ u, if decide (id u = id t) then t else u) <$> transactions s
  ∧ (NoDup (id <$> transactions s) → transactions after = transactions s)
  ∧ editingTransaction after = None
  ∧ isEditDialogOpen after = false.
Proof.
  apply (edit_without_change_keeps_the_record oneAdd).
  - apply reachable_run. by vm_compute.
  - vm_compute. apply list_elem_of_here.
  - by vm_compute.
Defined.

(** X6: the delete of a record that was just added undoes the add: a
    submission outside of an edit that passes validation puts one record
    at the end of the collection, under the numeral of the reading of the
    clock, and when no earlier submission read the same value
    [handleDelete] with that id gives the collection back as it was. *)
Theorem delete_undoes_add
    (Number_toString : number → string) (tr : list Event) (s : State)
    (now created : Z) :
  reachable Number_toString tr s →
  editingTransaction s = None →
  snd (validateForm (formData s)) = true →
  now ∉ clockReadings tr →
  let added := handleSubmit now created s in
  transactions added
  = (transactions s ++ [newTransaction now created None (formData s)])%list
  ∧ transactions (handleDelete (JSString.of_Z now) added) = transactions s.
Proof.
  intros Hr He Hv Hfresh added.
  destruct (reachable_stamped Number_toString tr s Hr) as [Hst _].
  assert (transactions added
          = (transactions s ++ [newTransaction now created None (formData s)])%list) as E.
  { subst added.
    destruct (handleSubmit_cases now created s) as [(Hv' & _) | (_ & _ & Ht)];
      [congruence |]. by rewrite He in Ht. }
  split; [done |].
  rewrite handleDelete_transactions, E, filter_app.
  rewrite filter_cons_False by (cbn; tauto).
  rewrite app_nil_r. apply filter_id_absent.
  intros (t & Eid & Hin)%list_elem_of_fmap.
  eapply Forall_forall in Hst; [| done].
  apply stamped_clockReading in Hst as (n & Hn & Hid).
  rewrite Hid in Eid. apply of_Z_inj in Eid as ->. done.
Qed.

Lemma delete_undoes_add_witness :
  let s := run NumberPrototype.toString (SetFormData salary :: oneAdd) in
  let added := handleSubmit 1700000001000 1700000001001 s in
  transactions added
  = (transactions s ++ [newTransaction 1700000001000 1700000001001 None (formData s)])%list
  ∧ transactions (handleDelete (JSString.of_Z 1700000001000) added) = transactions s.
Proof.
  apply (delete_undoes_add NumberPrototype.toString (SetFormData salary :: oneAdd)).
  - apply reachable_run. by vm_compute.
  - reflexivity.
  - by vm_compute.
  - vm_compute. intros H. apply list_elem_of_singleton in H. discriminate H.
Defined.

(** ** The rows of the category breakdown *)

Lemma keys_addToCategory (o : JSObject.t) (t : Transaction) :
  (addToCategory o t).*1
  = if decide (category t ∈ o.*1) then o.*1 else (o.*1 ++ [category t])%list.
Proof. unfold addToCategory. apply keys_set. Qed.

(** The pass over the expenses puts the categories that are new behind
    the keys of the table, in the order it meets them. *)
Lemma keys_fold_addToCategory (l : list Transaction) :
  ∀ o : JSObject.t,
    (fold_left addToCategory l o).*1
    = (o.*1 ++ filter (λ c, c ∉ o.*1) (firstSeen (category <$> l)))%list.
Proof.
  induction l as [| t l IH]; intros o; cbn [fold_left fmap list_fmap firstSeen].
  - cbn. by rewrite app_nil_r.
  - rewrite IH, keys_addToCategory.
    destruct (decide (category t ∈ o.*1)) as [Hin | Hin].
    + rewrite filter_cons_False by tauto. f_equal.
      rewrite list_filter_filter. apply list_filter_iff. intros c.
      split; [| tauto]. intros Hc. split; [done |]. by intros ->.
    + rewrite filter_cons_True by done. rewrite <- app_assoc. cbn [app]. do 2 f_equal.
      rewrite list_filter_filter. apply list_filter_iff. intros c.
      rewrite elem_of_app, list_elem_of_singleton. tauto.
Qed.

Lemma getCategoryData_keys (ts : list Transaction) :
  (getCategoryData ts).*1
  = (fold_left addToCategory (filter isExpense ts) JSObject.empty).*1.
Proof.
  unfold getCategoryData, JSObject.entries. rewrite <- list_fmap_compose.
  apply list_fmap_ext. by intros ? [? ?] _.
Qed.

Lemma getCategoryData_keys_NoDup (ts : list Transaction) : NoDup (getCategoryData ts).*1.
Proof.
  rewrite getCategoryData_keys.
  by destruct (fold_addToCategory (filter isExpense ts) JSObject.empty "") as (? & _);
    [constructor |].
Qed.

Lemma getCategoryData_keys_elem (ts : list Transaction) (c : string) :
  c ∈ (getCategoryData ts).*1 ↔ ∃ t, t ∈ ts ∧ type t = expense ∧ category t = c.
Proof.
  rewrite getCategoryData_keys.
  destruct (fold_addToCategory (filter isExpense ts) JSObject.empty c) as (_ & -> & _);
    [constructor |].
  cbn [JSObject.empty fmap list_fmap]. split.
  - intros [?%elem_of_nil | (t & [Ht Hin]%list_elem_of_filter & Ec)]; [done |].
    by exists t.
  - intros (t & Hin & Ht & Ec). right. exists t. split; [| done].
    by apply list_elem_of_filter.
Qed.

(** The row of a category: there is one when the category has an expense,
    and its amount is the rounded accumulation of these expenses. *)
Lemma getCategoryData_row (ts : list Transaction) (c : string) (a : number) :
  (c, a) ∈ getCategoryData ts
  ↔ filter (λ t, type t = expense ∧ category t = c) ts ≠ []
    ∧ a = roundCents (categorySum (filter (λ t, type t = expense ∧ category t = c) ts)).
Proof.
  unfold getCategoryData, JSObject.entries.
  set (o := fold_left addToCategory (filter isExpense ts) JSObject.empty).
  assert (NoDup o.*1) as Hnd.
  { by destruct (fold_addToCategory (filter isExpense ts) JSObject.empty "") as (? & _);
      [constructor |]. }
  rewrite list_elem_of_fmap. split.
  - intros ([c' v] & [= -> ->] & Hin). apply get_Some_elem in Hin; [| done].
    subst o. rewrite categoryData_get in Hin. cbn zeta in Hin.
    set (l := filter (λ t, type t = expense ∧ category t = c') ts) in *.
    destruct l; [done |]. by injection Hin as <-.
  - intros [Hne ->]. eexists (c, _). split; [done |].
    apply get_Some_elem; [done |]. subst o. rewrite categoryData_get. cbn zeta.
    set (l := filter (λ t, type t = expense ∧ category t = c) ts) in *.
    by destruct l.
Qed.

(** X7: when the expenses are filed under labels of [CATEGORIES], the
    rows of [getCategoryData] stand in the order in which the collection
    first shows an expense of their category; an expense of such a label
    put at the end of the collection adds a last row when its category has
    none yet and moves no row otherwise, and an income put at the end
    changes no row. *)
Theorem getCategoryData_row_order (ts : list Transaction) :
  Forall (λ t, type t = expense → category t ∈ CATEGORIES) ts →
  (getCategoryData ts).*1 = firstSeen (category <$> filter isExpense ts)
  ∧ (∀ t, type t = expense → category t ∈ CATEGORIES →
       (getCategoryData (ts ++ [t])).*1
       = if decide (category t ∈ (getCategoryData ts).*1)
         then (getCategoryData ts).*1
         else ((getCategoryData ts).*1 ++ [category t])%list)
  ∧ (∀ t, type t = income → getCategoryData (ts ++ [t]) = getCategoryData ts).
Proof.
  intros _. split_and!.
  - rewrite getCategoryData_keys, keys_fold_addToCategory.
    cbn [JSObject.empty fmap list_fmap app].
    apply filter_Forall, Forall_forall. intros c _. apply not_elem_of_nil.
  - intros t Ht _. rewrite !getCategoryData_keys.
    rewrite filter_app, filter_cons_True by done.
    rewrite fold_left_app. cbn [fold_left].
    change (filter isExpense []) with (@nil Transaction). cbn [fold_left].
    by rewrite keys_addToCategory.
  - intros t Ht. unfold getCategoryData.
    rewrite filter_app, filter_cons_False; [by rewrite app_nil_r |].
    unfold isExpense. by rewrite Ht.
Qed.

Lemma getCategoryData_row_order_witness :
  (getCategoryData year2024).*1 = firstSeen (category <$> filter isExpense year2024)
  ∧ (∀ t, type t = expense → category t ∈ CATEGORIES →
       (getCategoryData (year2024 ++ [t])).*1
       = if decide (category t ∈ (getCategoryData year2024).*1)
         then (getCategoryData year2024).*1
         else ((getCategoryData year2024).*1 ++ [category t])%list)
  ∧ (∀ t, type t = income → getCategoryData (year2024 ++ [t]) = getCategoryData year2024).
Proof.
  apply (getCategoryData_row_order year2024).
  repeat (apply Forall_cons; split;
          [intros _; apply (bool_decide_unpack _); by vm_compute |]).
  apply Forall_nil_2.
Defined.

(** ** The colours of the pie *)

Lemma cellFill_small (i : nat) : (i < 10)%nat → cellFill i = COLORS !! i.
Proof. intros H. unfold cellFill. by rewrite Nat.mod_small. Qed.

Lemma COLORS_NoDup : NoDup COLORS.
Proof. apply (bool_decide_unpack _). by vm_compute. Qed.

(** X8: every cell of the pie gets a colour of [COLORS], the colours
    coming round again after the tenth cell; and when the expenses are
    filed under labels of [CATEGORIES] there are ten rows at most, the cell
    of row [i] is filled with [COLORS[i]], and no two cells have the same
    colour. *)
Theorem pie_cells_have_distinct_colours (ts : list Transaction) :
  Forall (λ t, type t = expense → category t ∈ CATEGORIES) ts →
  (∀ index, is_Some (cellFill index) ∧ cellFill (index + 10) = cellFill index)
  ∧ (length (getCategoryData ts) ≤ 10)%nat
  ∧ length (pieCells ts) = length (getCategoryData ts)
  ∧ (∀ i, (i < length (getCategoryData ts))%nat →
          ∃ fill, pieCells ts !! i = Some (Some fill) ∧ COLORS !! i = Some fill)
  ∧ NoDup (pieCells ts).
Proof.
  intros Hcat.
  assert (length (getCategoryData ts) ≤ 10)%nat as Hlen.
  { rewrite <- (length_fmap fst). change 10%nat with (length CATEGORIES).
    apply submseteq_length, NoDup_submseteq; [apply getCategoryData_keys_NoDup |].
    intros c (t & Hin & Ht & <-)%getCategoryData_keys_elem.
    eapply Forall_forall in Hcat; [by apply Hcat | done]. }
  assert (∀ i, (i < length (getCategoryData ts))%nat →
            pieCells ts !! i = Some (COLORS !! i)) as Hcell.
  { intros i Hi. unfold pieCells. rewrite list_lookup_imap.
    destruct (lookup_lt_is_Some_2 (getCategoryData ts) i Hi) as [row ->]. cbn.
    by rewrite cellFill_small by lia. }
  split_and!.
  - intros index. unfold cellFill. change (length COLORS) with 10%nat. split.
    + apply lookup_lt_is_Some_2. change (length COLORS) with 10%nat.
      apply Nat.mod_upper_bound. lia.
    + f_equal. rewrite <- (Nat.mul_1_l 10) at 1. by rewrite Nat.Div0.mod_add.
  - done.
  - unfold pieCells. by rewrite length_imap.
  - intros i Hi. rewrite (Hcell i Hi).
    destruct (lookup_lt_is_Some_2 COLORS i) as [fill Hfill]; [cbn; lia |].
    exists fill. by rewrite Hfill.
  - apply NoDup_alt. intros i j fill Hi Hj.
    assert (i < length (getCategoryData ts))%nat as Hi'.
    { apply lookup_lt_Some in Hi. unfold pieCells in Hi. by rewrite length_imap in Hi. }
    assert (j < length (getCategoryData ts))%nat as Hj'.
    { apply lookup_lt_Some in Hj. unfold pieCells in Hj. by rewrite length_imap in Hj. }
    rewrite (Hcell i Hi') in Hi. rewrite (Hcell j Hj') in Hj.
    injection Hi as Hi. injection Hj as Hj.
    destruct (lookup_lt_is_Some_2 COLORS i) as [ci Hci]; [cbn; lia |].
    rewrite Hci in Hi. subst fill. symmetry in Hj.
    by apply (NoDup_lookup COLORS i j ci COLORS_NoDup).
Qed.

Lemma pie_cells_witness :
  (∀ index, is_Some (cellFill index) ∧ cellFill (index + 10) = cellFill index)
  ∧ (length (getCategoryData year2024) ≤ 10)%nat
  ∧ length (pieCells year2024) = length (getCategoryData year2024)
  ∧ (∀ i, (i < length (getCategoryData year2024))%nat →
          ∃ fill, pieCells year2024 !! i = Some (Some fill) ∧ COLORS !! i = Some fill)
  ∧ NoDup (pieCells year2024).
Proof.
  apply (pie_cells_have_distinct_colours year2024).
  repeat (apply Forall_cons; split;
          [intros _; apply (bool_decide_unpack _); by vm_compute |]).
  apply Forall_nil_2.
Defined.

(** ** The monthly series beside the other aggregates *)

(** The rows of [getMonthlyData] in one formula. *)
Lemma getMonthlyData_rows (ts : list Transaction) (now : JSDate.localtime) :
  100 ≤ JSDate.getFullYear now →
  Forall (λ t, type t = expense → JSDate.parseISO (date t) ≠ JSDate.InvalidDate) ts →
  getMonthlyData ts now
  = Ok ((λ k, (JSDate.formatted_MMM_yyyy (monthBucket now k),
               roundCents (sumAmounts (expensesOfMonth ts (monthBucket now k)))))
        <$> seq 0 12).
Proof.
  intros Hy Hdates. unfold getMonthlyData.
  rewrite (lastMonths_spec now 12 Hy (le_n _) JSObject.empty)
    by (intros i _; apply not_elem_of_nil).
  cbn [mbind result_bind JSObject.empty app].
  rewrite forEach_addToMonth.
  2:{ rewrite <- list_fmap_compose.
      apply NoDup_fmap_2_strong; [| apply countdown_NoDup].
      intros i j Hi%countdown_lt Hj%countdown_lt E. cbn in E.
      by apply labelBack_inj in E. }
  2:{ apply Forall_forall. intros t [Ht Hin]%list_elem_of_filter.
      eapply Forall_forall in Hdates; [by apply Hdates | done]. }
  cbn [mbind result_bind]. unfold JSObject.entries. f_equal.
  apply list_eq. intros k. rewrite !list_lookup_fmap.
  destruct (decide (k < 12)%nat) as [Hk | Hk].
  - rewrite countdown_lookup by done. rewrite lookup_seq_lt by done. cbn.
    rewrite labelBack_bucket by done. do 3 f_equal.
    unfold sumAmounts, expensesOfMonth. f_equal.
    rewrite list_filter_filter. apply list_filter_iff. intros t.
    rewrite (monthKeyOf_bucket now k t Hy Hk). unfold isExpense. tauto.
  - rewrite (lookup_ge_None_2 (countdown 12)) by (cbn; lia).
    by rewrite (lookup_ge_None_2 (seq 0 12)) by (cbn; lia).
Qed.

Lemma sameMonth_months (d : JSDate.Date) (a b : JSDate.localtime) :
  JSDate.months a = JSDate.months b → sameMonth d a ↔ sameMonth d b.
Proof.
  intros E. destruct d as [t |]; [| done]. cbn.
  unfold JSDate.getFullYear, JSDate.getMonth. by rewrite E.
Qed.



(** X10: the two charts round alike: for an evaluation time in the year
    100 or later and expenses filed under labels of [CATEGORIES], with
    dates that [parseISO] reads and amounts that are not negative, when
    the expenses of a category are the expenses of one month of the series
    the row of the category and the row of the month carry the same
    amount, [Math.round(sum * 100) / 100] of the one sum. *)
Theorem both_charts_round_alike
    (ts : list Transaction) (now : JSDate.localtime) (k : nat) (c : string) :
  100 ≤ JSDate.getFullYear now →
  Forall (λ t, type t = expense → category t ∈ CATEGORIES) ts →
  Forall (λ t, type t = expense →
               JSDate.parseISO (date t) ≠ JSDate.InvalidDate ∧ nonneg (amount t)) ts →
  (k < 12)%nat →
  filter (λ t, type t = expense ∧ category t = c) ts
  = expensesOfMonth ts (monthBucket now k) →
  expensesOfMonth ts (monthBucket now k) ≠ [] →
  ∃ a rows,
    (c, a) ∈ getCategoryData ts
    ∧ getMonthlyData ts now = Ok rows
    ∧ rows !! k = Some (JSDate.formatted_MMM_yyyy (monthBucket now k), a)
    ∧ a = roundCents (sumAmounts (expensesOfMonth ts (monthBucket now k))).
Proof.
  intros Hy _ Hall Hk Esame Hne.
  exists (roundCents (sumAmounts (expensesOfMonth ts (monthBucket now k)))).
  eexists. split_and!.
  - apply getCategoryData_row. rewrite Esame. split; [done |]. f_equal. symmetry.
    apply categorySum_nonneg, Forall_forall.
    intros t [[Ht _] Hin]%list_elem_of_filter.
    eapply Forall_forall in Hall; [by apply Hall | done].
  - apply getMonthlyData_rows; [done |].
    eapply Forall_impl; [apply Hall |]. intros t Ht He. by apply Ht.
  - rewrite list_lookup_fmap, lookup_seq_lt by done. done.
  - done.
Qed.

Lemma both_charts_witness :
  ∃ a rows,
    ("Shopping", a) ∈ getCategoryData marchShopping
    ∧ getMonthlyData marchShopping march2024 = Ok rows
    ∧ rows !! 11%nat = Some (JSDate.formatted_MMM_yyyy (monthBucket march2024 11), a)
    ∧ a = roundCents (sumAmounts (expensesOfMonth marchShopping (monthBucket march2024 11))).
Proof.
  apply (both_charts_round_alike marchShopping march2024 11 "Shopping").
  - by vm_compute.
  - repeat (apply Forall_cons; split;
            [intros _; apply (bool_decide_unpack _); by vm_compute |]).
    apply Forall_nil_2.
  - repeat (apply Forall_cons; split; [intros _; by vm_compute |]). apply Forall_nil_2.
  - lia.
  - by vm_compute.
  - by vm_compute.
Defined.

(** ** Amounts that are not negative *)

Lemma mul_nonneg (x : number) (m : positive) (e : Z) :
  nonneg x → nonneg (JSNumber.mul x (S754_finite false m e)).
Proof.
  destruct x as [[] | [] | | [] mx ex]; try done.
  intros _. unfold JSNumber.mul, SFmul. cbn [xorb].
  by apply binary_round_aux_nonneg.
Qed.

Lemma div_nonneg (x : number) (m : positive) (e : Z) :
  nonneg x → nonneg (JSNumber.div x (S754_finite false m e)).
Proof.
  destruct x as [[] | [] | | [] mx ex]; try done.
  intros _. unfold JSNumber.div, SFdiv. cbn [xorb].
  destruct (SFdiv_core_binary _ _ _ _ _ _) as [[q e'] l] eqn:E.
  apply binary_round_aux_nonneg.
  unfold SFdiv_core_binary in E.
  destruct (Z.div_eucl _ _) as [q' r] eqn:Ediv. injection E as <- _ _.
  match type of Ediv with Z.div_eucl ?a ?b = _ =>
    pose proof (Z_div_mod a b ltac:(done)) as Hdiv; rewrite Ediv in Hdiv;
    assert (0 ≤ a) as Ha
  end.
  { destruct (_ - _ - _) as [| p | p]; [done | | done].
    apply Z.shiftl_nonneg. done. }
  destruct Hdiv as [Hdiv Hr]. nia.
Qed.

Lemma Math_round_nonneg (x : number) : nonneg x → nonneg (JSNumber.Math_round x).
Proof.
  destruct x as [[] | [] | | [] m e]; try done.
  intros _. unfold JSNumber.Math_round. destruct (0 <=? e) eqn:He; [done |].
  cbn [cond_Zopp].
  set (n := Z.shiftr _ _).
  assert (0 ≤ n) as Hn.
  { subst n. apply Z.shiftr_nonneg.
    assert (0 ≤ Z.shiftl 1 (- e)) by (by apply Z.shiftl_nonneg). lia. }
  destruct (n =? 0) eqn:E; [done |]. apply Z.eqb_neq in E.
  destruct n as [| p | p]; [done | | lia].
  cbn [binary_normalize]. apply binary_round_nonneg.
Qed.

(** Rounding to cents keeps a number that is not negative so. *)
Lemma roundCents_nonneg (x : number) : nonneg x → nonneg (roundCents x).
Proof.
  intros H. unfold roundCents.
  assert (∃ m e, JSNumber.of_Z 100 = S754_finite false m e) as (m & e & ->)
    by (by vm_compute; eauto).
  by apply div_nonneg, Math_round_nonneg, mul_nonneg.
Qed.

Lemma fold_add_nonneg (l : list Transaction) (x : number) :
  Forall (λ t, nonneg (amount t)) l → nonneg x →
  nonneg (fold_left (λ sum t, JSNumber.add sum (amount t)) l x).
Proof.
  intros Hl. revert x. induction Hl as [| t l Ht _ IH]; intros x Hx; [done |].
  cbn [fold_left]. apply IH. by apply add_nonneg.
Qed.

Lemma sumAmounts_nonneg (l : list Transaction) :
  Forall (λ t, nonneg (amount t)) l → nonneg (sumAmounts l).
Proof. intros Hl. by apply fold_add_nonneg. Qed.

Lemma Forall_filter_2 {A : Type} (P Q : A → Prop) `{!∀ x, Decision (Q x)} (l : list A) :
  Forall P l → Forall P (filter Q l).
Proof.
  intros Hl. apply Forall_forall. intros x [_ Hx]%list_elem_of_filter.
  by eapply Forall_forall in Hl.
Qed.

(** What holds of the values of the table holds of them after the two
    passes of [getMonthlyData]. *)
Lemma lastMonths_values (P : number → Prop) (n : nat) (now : JSDate.localtime) :
  P (JSNumber.of_Z 0) →
  ∀ o o', Forall (λ row, P row.2) o → lastMonths n now o = Ok o' →
          Forall (λ row, P row.2) o'.
Proof.
  intros H0. induction n as [| n IH]; intros o o' Ho E; cbn in E.
  - by injection E as <-.
  - eapply IH; [| done]. clear E.
    induction o as [| [k v] o IHo]; cbn.
    + by apply Forall_singleton.
    + apply Forall_cons in Ho as [Hv Ho]. destruct (decide _).
      * by apply Forall_cons.
      * apply Forall_cons. split; [done | by apply IHo].
Qed.

Lemma set_values (P : number → Prop) (o : JSObject.t) (k : string) (v : number) :
  P v → Forall (λ row, P row.2) o → Forall (λ row, P row.2) (JSObject.set o k v).
Proof.
  intros Hv. induction 1 as [| [k' v'] o Hrow Ho IH]; cbn.
  - by apply Forall_singleton.
  - destruct (decide _); apply Forall_cons; by split.
Qed.

Lemma get_values (P : number → Prop) (o : JSObject.t) (k : string) (v : number) :
  Forall (λ row, P row.2) o → JSObject.get o k = Some v → P v.
Proof.
  induction 1 as [| [k' v'] o Hrow Ho IH]; cbn; [done |].
  destruct (decide _); [by intros [= <-] | done].
Qed.

Lemma forEach_addToMonth_nonneg (l : list Transaction) :
  Forall (λ t, nonneg (amount t)) l →
  ∀ o o', Forall (λ row, nonneg row.2) o → forEach addToMonth l o = Ok o' →
          Forall (λ row, nonneg row.2) o'.
Proof.
  induction 1 as [| t l Ht _ IH]; intros o o' Ho E; cbn in E.
  - by injection E as <-.
  - destruct (addToMonth o t) as [o1 | e] eqn:E1; [| done]. cbn in E.
    eapply IH; [| done]. unfold addToMonth in E1.
    destruct (JSDate.format_MMM_yyyy _) as [key | e]; [| done]. cbn in E1.
    unfold JSObject.hasOwnProperty in E1.
    destruct (JSObject.get o key) as [v |] eqn:Eg; injection E1 as <-; [| done].
    apply set_values; [| done]. cbn. apply add_nonneg; [| done].
    by eapply (get_values nonneg).
Qed.

Lemma lastMonths_Ok (n : nat) (now : JSDate.localtime) (o : JSObject.t) :
  ∃ o', lastMonths n now o = Ok o'.
Proof.
  revert o. induction n as [| n IH]; intros o; [by eexists |].
  cbn [lastMonths JSDate.format_MMM_yyyy mbind result_bind]. apply IH.
Qed.

Lemma addToMonth_outcome (o : JSObject.t) (t : Transaction) :
  match JSDate.parseISO (date t) with
  | JSDate.Valid _ => ∃ o', addToMonth o t = Ok o'
  | JSDate.InvalidDate => addToMonth o t = Throw (RangeError "Invalid time value")
  end.
Proof.
  unfold addToMonth. destruct (JSDate.parseISO (date t)); [| done].
  cbn [JSDate.format_MMM_yyyy mbind result_bind].
  destruct (JSObject.hasOwnProperty _ _); by eexists.
Qed.

(** With dates that are read the pass of [getMonthlyData] over the
    expenses goes through. *)
Lemma forEach_addToMonth_Ok (l : list Transaction) :
  Forall (λ t, JSDate.parseISO (date t) ≠ JSDate.InvalidDate) l →
  ∀ o, ∃ o', forEach addToMonth l o = Ok o'.
Proof.
  induction 1 as [| t l Ht _ IH]; intros o; [by eexists |].
  cbn [forEach]. pose proof (addToMonth_outcome o t) as Hout.
  destruct (JSDate.parseISO (date t)); [| done].
  destruct Hout as [o1 ->]. cbn [mbind result_bind]. apply IH.
Qed.

(** X11: for a collection whose dates [parseISO] reads, whose expenses are
    filed under labels of [CATEGORIES] and whose amounts are not negative,
    nothing that is shown is negative or NaN: the totals of income and of
    expenses of the current month, the amount of every row of
    [getCategoryData] and the amount of every row of [getMonthlyData],
    which returns its rows, are [+0], positive or [+Infinity]. *)
Theorem amounts_shown_are_not_negative (ts : list Transaction) (now : JSDate.localtime) :
  Forall (λ t, nonneg (amount t)) ts →
  Forall (λ t, type t = expense → category t ∈ CATEGORIES) ts →
  Forall (λ t, JSDate.parseISO (date t) ≠ JSDate.InvalidDate) ts →
  nonneg (totalIncome ts now)
  ∧ nonneg (totalExpenses ts now)
  ∧ Forall (λ row, nonneg row.2) (getCategoryData ts)
  ∧ ∃ rows, getMonthlyData ts now = Ok rows ∧ Forall (λ row, nonneg row.2) rows.
Proof.
  intros H _ Hdates. split_and!.
  - unfold totalIncome, currentMonthTransactions.
    by apply sumAmounts_nonneg, Forall_filter_2, Forall_filter_2.
  - unfold totalExpenses, currentMonthTransactions.
    by apply sumAmounts_nonneg, Forall_filter_2, Forall_filter_2.
  - apply Forall_forall. intros [c a] Hin. cbn.
    apply getCategoryData_row in Hin as [Hne ->].
    apply roundCents_nonneg.
    rewrite categorySum_nonneg; [apply sumAmounts_nonneg |]; by apply Forall_filter_2.
  - unfold getMonthlyData.
    destruct (lastMonths_Ok 12 now JSObject.empty) as [o E1]. rewrite E1.
    cbn [mbind result_bind].
    destruct (forEach_addToMonth_Ok (filter isExpense ts)
                (Forall_filter_2 _ _ _ Hdates) o) as [o' E2].
    rewrite E2. cbn [mbind result_bind]. eexists. split; [done |].
    apply Forall_fmap.
    apply (lastMonths_values nonneg) in E1; [| done | apply Forall_nil_2].
    apply forEach_addToMonth_nonneg in E2; [| by apply Forall_filter_2 | done].
    unfold JSObject.entries. eapply Forall_impl; [apply E2 |].
    intros [k v] Hv. cbn in *. by apply roundCents_nonneg.
Qed.

Lemma amounts_shown_witness :
  nonneg (totalIncome year2024 march2024)
  ∧ nonneg (totalExpenses year2024 march2024)
  ∧ Forall (λ row, nonneg row.2) (getCategoryData year2024)
  ∧ ∃ rows, getMonthlyData year2024 march2024 = Ok rows
            ∧ Forall (λ row, nonneg row.2) rows.
Proof.
  apply (amounts_shown_are_not_negative year2024 march2024).
  - repeat (apply Forall_cons; split; [by vm_compute |]). apply Forall_nil_2.
  - repeat (apply Forall_cons; split;
            [intros _; apply (bool_decide_unpack _); by vm_compute |]).
    apply Forall_nil_2.
  - repeat (apply Forall_cons; split; [by vm_compute |]). apply Forall_nil_2.
Defined.

(** ** A date that is not read *)

Lemma length_list_ascii (s : string) :
  length (list_ascii_of_string s) = String.length s.
Proof. induction s as [| c s IH]; [done |]. cbn. by rewrite IH. Qed.

Lemma parseISO_length (s : string) :
  String.length s ≠ 10%nat → JSDate.parseISO s = JSDate.InvalidDate.
Proof.
  intros H. unfold JSDate.parseISO. rewrite <- length_list_ascii in H.
  destruct (list_ascii_of_string s)
    as [| y1 [| y2 [| y3 [| y4 [| h1 [| m1 [| m2 [| h2 [| d1 [| d2 [| ? ?]]]]]]]]]]];
    try done.
Qed.

Lemma longYearDate_invalid (s : string) :
  longYearDate s → JSDate.parseISO s = JSDate.InvalidDate.
Proof.
  intros (year & month & day & -> & Hy & _ & Hm & _ & Hd & _). apply parseISO_length.
  rewrite !append_length. cbn [String.length]. lia.
Qed.

(** The pass stops at the first date that is not read. *)
Lemma forEach_addToMonth_throws (l : list Transaction) (o : JSObject.t) :
  (∃ t, t ∈ l ∧ JSDate.parseISO (date t) = JSDate.InvalidDate) →
  forEach addToMonth l o = Throw (RangeError "Invalid time value").
Proof.
  revert o. induction l as [| u l IH]; intros o (t & Hin & Ht).
  - by apply elem_of_nil in Hin.
  - cbn [forEach]. pose proof (addToMonth_outcome o u) as Hu.
    destruct (JSDate.parseISO (date u)) as [d |] eqn:Eu.
    + destruct Hu as [o' ->]. cbn [mbind result_bind]. apply IH.
      apply elem_of_cons in Hin as [-> | Hin]; [congruence | by exists t].
    + by rewrite Hu.
Qed.

(** The list stops at the first date that is not read. *)
Lemma rowDates_throws (shown : list Transaction) :
  (∃ t, t ∈ shown ∧ JSDate.parseISO (date t) = JSDate.InvalidDate) →
  rowDates shown = Throw (RangeError "Invalid time value").
Proof.
  unfold rowDates. induction shown as [| u l IH]; intros (t & Hin & Ht).
  - by apply elem_of_nil in Hin.
  - cbn [mapResult]. destruct (JSDate.parseISO (date u)) as [d |] eqn:Eu; [| done].
    cbn [format_MMM_dd_yyyy mbind result_bind]. rewrite IH; [done |].
    apply elem_of_cons in Hin as [-> | Hin]; [congruence | by exists t].
Qed.

(** With dates that are read the list has a date for every row. *)
Lemma rowDates_Ok (shown : list Transaction) :
  Forall (λ t, JSDate.parseISO (date t) ≠ JSDate.InvalidDate) shown →
  ∃ labels, rowDates shown = Ok labels ∧ length labels = length shown.
Proof.
  unfold rowDates. induction 1 as [| u l Hu _ (labels & IH & Hlen)]; [by exists [] |].
  cbn [mapResult]. destruct (JSDate.parseISO (date u)) as [d |]; [| done].
  cbn [format_MMM_dd_yyyy mbind result_bind]. rewrite IH. cbn [mbind result_bind].
  eexists. split; [done |]. cbn. by rewrite Hlen.
Qed.

(** X12: a transaction whose date carries a year of five digits or more
    before its month and its day, a text [parseISO] does not read, stops
    the render: the list of transactions throws the RangeError of [format]
    in whatever order the rows are shown, and so does [getMonthlyData]
    when the transaction is an expense, whatever else the collection holds
    and whatever the evaluation time; the totals of the current month
    leave the transaction out without a word. *)
Theorem a_long_year_stops_the_render
    (ts : list Transaction) (now : JSDate.localtime) (t : Transaction) :
  t ∈ ts → longYearDate (date t) →
  (∀ shown, shown ≡ₚ ts → rowDates shown = Throw (RangeError "Invalid time value"))
  ∧ (type t = expense →
     getMonthlyData ts now = Throw (RangeError "Invalid time value"))
  ∧ t ∉ currentMonthTransactions ts now.
Proof.
  intros Hin Hd. apply longYearDate_invalid in Hd. split_and!.
  - intros shown Hperm. apply rowDates_throws. exists t. by rewrite Hperm.
  - intros Ht. unfold getMonthlyData.
    destruct (lastMonths_Ok 12 now JSObject.empty) as [o ->].
    cbn [mbind result_bind]. rewrite forEach_addToMonth_throws; [done |].
    exists t. split; [by apply list_elem_of_filter | done].
  - unfold currentMonthTransactions. intros [H _]%list_elem_of_filter.
    by rewrite Hd in H.
Qed.

Lemma a_long_year_witness :
  let t := record "1" "12.50" "20245-03-01" expense "Other" in
  let ts := [record "2" "40" "2024-03-05" income "Income"; t] in
  (∀ shown, shown ≡ₚ ts → rowDates shown = Throw (RangeError "Invalid time value"))
  ∧ (type t = expense →
     getMonthlyData ts march2024 = Throw (RangeError "Invalid time value"))
  ∧ t ∉ currentMonthTransactions ts march2024.
Proof.
  apply (a_long_year_stops_the_render _ march2024
           (record "1" "12.50" "20245-03-01" expense "Other")).
  - apply list_elem_of_further, list_elem_of_here.
  - exists "20245", "03", "01". by vm_compute.
Defined.

(** ** The amount of a row *)

(** *** The number read from a numeral with two decimals *)

Lemma digits2_pos_spec (p : positive) :
  2 ^ (Zpos (digits2_pos p) - 1) ≤ Zpos p < 2 ^ Zpos (digits2_pos p).
Proof.
  induction p as [p IH | p IH |]; cbn [digits2_pos]; [| | by vm_compute].
  - rewrite Pos2Z.inj_succ.
    replace (Z.succ (Zpos (digits2_pos p)) - 1) with (Z.succ (Zpos (digits2_pos p) - 1)) by lia.
    rewrite !Z.pow_succ_r by lia. lia.
  - rewrite Pos2Z.inj_succ.
    replace (Z.succ (Zpos (digits2_pos p)) - 1) with (Z.succ (Zpos (digits2_pos p) - 1)) by lia.
    rewrite !Z.pow_succ_r by lia. lia.
Qed.

Lemma Zdigits2_between (q d : Z) : 2 ^ (d - 1) ≤ q < 2 ^ d → 0 < d → Zdigits2 q = d.
Proof.
  intros [Hlo Hhi] Hd.
  assert (0 < q) as Hq by (pose proof (Z.pow_pos_nonneg 2 (d - 1)); lia).
  destruct q as [| p | p]; try lia. cbn [Zdigits2].
  destruct (digits2_pos_spec p) as [Hlo' Hhi'].
  set (d' := Zpos (digits2_pos p)) in *.
  destruct (Z.lt_trichotomy d' d) as [Hlt | [Heq | Hgt]]; [| done |].
  - assert (2 ^ d' ≤ 2 ^ (d - 1)) by (apply Z.pow_le_mono_r; lia). lia.
  - assert (2 ^ d ≤ 2 ^ (d' - 1)) by (apply Z.pow_le_mono_r; lia). lia.
Qed.

Lemma loc_of_shr_record_of_loc (m : Z) (l : location) :
  loc_of_shr_record (shr_record_of_loc m l) = l
  ∧ shr_m (shr_record_of_loc m l) = m.
Proof. by destruct l as [| []]. Qed.

Lemma shr_1_m (mrs : shr_record) :
  0 ≤ shr_m mrs → shr_m (shr_1 mrs) = shr_m mrs / 2.
Proof.
  destruct mrs as [m r s]. cbn [shr_m]. intros Hm.
  destruct m as [| [p | p |] | p]; try lia; cbn [shr_1 shr_m]; try done.
  - rewrite Pos2Z.inj_xI. apply Z.div_unique with 1; lia.
  - rewrite Pos2Z.inj_xO. apply Z.div_unique with 0; lia.
Qed.

Lemma shr_fexp_cases (m e : Z) (l : location) :
  2 ^ 52 ≤ m < 2 ^ 54 → -1000 ≤ e ≤ 910 →
  ∃ mrs k, shr_fexp 53 1024 m e l = (mrs, e + k)
           ∧ 0 ≤ k ≤ 1
           ∧ shr_m mrs = m / 2 ^ k
           ∧ 2 ^ 52 ≤ shr_m mrs < 2 ^ 53
           ∧ (k = 0 → loc_of_shr_record mrs = l).
Proof.
  intros Hm He. unfold shr_fexp.
  destruct (Z_lt_dec m (2 ^ 53)) as [Hlt | Hge].
  - rewrite (Zdigits2_between m 53) by lia.
    replace (fexp 53 1024 (53 + e) - e) with 0 by (unfold fexp, emin; lia).
    exists (shr_record_of_loc m l), 0.
    destruct (loc_of_shr_record_of_loc m l) as [Hl Hv].
    cbn [shr]. rewrite Hv, Z.add_0_r, Z.pow_0_r, Z.div_1_r. split_and!; try done; lia.
  - rewrite (Zdigits2_between m 54) by lia.
    replace (fexp 53 1024 (54 + e) - e) with 1 by (unfold fexp, emin; lia).
    exists (shr_1 (shr_record_of_loc m l)), 1.
    destruct (loc_of_shr_record_of_loc m l) as [Hl Hv].
    cbn [shr iter_pos]. rewrite shr_1_m by (rewrite Hv; lia). rewrite Hv.
    change (2 ^ 1) with 2.
    pose proof (Z.div_mod m 2). pose proof (Z.mod_pos_bound m 2).
    split_and!; try done; lia.
Qed.

Lemma round_nearest_even_near (m : Z) (l : location) :
  m ≤ round_nearest_even m l ≤ m + 1.
Proof.
  destruct l as [| []]; cbn [round_nearest_even]; try lia.
  destruct (Z.even m); lia.
Qed.

Lemma binary_round_aux_near (q e : Z) (l : location) :
  2 ^ 52 ≤ q < 2 ^ 54 → -1000 ≤ e ≤ 900 →
  ∃ M k, binary_round_aux 53 1024 false q e l = S754_finite false M (e + k)
         ∧ 0 ≤ k ≤ 2
         ∧ q - 2 * 2 ^ k < Zpos M * 2 ^ k ≤ q + 2 ^ k.
Proof.
  intros Hq He. unfold binary_round_aux.
  destruct (shr_fexp_cases q e l) as (mrs1 & k1 & -> & Hk1 & Hm1 & Hb1 & _); [done | lia |].
  pose proof (round_nearest_even_near (shr_m mrs1) (loc_of_shr_record mrs1)) as Hr.
  set (m1 := round_nearest_even _ _) in *.
  destruct (shr_fexp_cases m1 (e + k1) loc_Exact) as (mrs2 & k2 & -> & Hk2 & Hm2 & Hb2 & _);
    [lia | lia |].
  destruct (shr_m mrs2) as [| M | M] eqn:EM; try lia.
  replace (e + k1 + k2 <=? 1024 - 53) with true by (symmetry; apply Z.leb_le; lia).
  exists M, (k1 + k2). split_and!; [f_equal; lia | lia | lia | |].
  - assert (k1 = 0 ∨ k1 = 1) as [-> | ->] by lia;
    assert (k2 = 0 ∨ k2 = 1) as [-> | ->] by lia;
    cbn [Z.add Pos.add] in *; change (2 ^ 0) with 1 in *; change (2 ^ 1) with 2 in *;
    change (2 ^ 2) with 4 in *;
    rewrite ?Z.div_1_r in *;
    pose proof (Z.div_mod q 2); pose proof (Z.mod_pos_bound q 2);
    pose proof (Z.div_mod m1 2); pose proof (Z.mod_pos_bound m1 2); lia.
  - assert (k1 = 0 ∨ k1 = 1) as [-> | ->] by lia;
    assert (k2 = 0 ∨ k2 = 1) as [-> | ->] by lia;
    cbn [Z.add Pos.add] in *; change (2 ^ 0) with 1 in *; change (2 ^ 1) with 2 in *;
    change (2 ^ 2) with 4 in *;
    rewrite ?Z.div_1_r in *;
    pose proof (Z.div_mod q 2); pose proof (Z.mod_pos_bound q 2);
    pose proof (Z.div_mod m1 2); pose proof (Z.mod_pos_bound m1 2); lia.
Qed.

Lemma of_decimal_cents (N : positive) :
  Zpos N < 2 ^ 48 →
  ∃ M E, JSNumber.of_decimal false (Zpos N) (-2) = S754_finite false M E
         ∧ -61 ≤ E ≤ -10
         ∧ -300 < 100 * Zpos M - Zpos N * 2 ^ (- E) ≤ 100.
Proof.
  intros HN. unfold JSNumber.of_decimal.
  change (0 <=? -2) with false. change (10 ^ (- -2)) with 100. cbv iota.
  unfold SFdiv_core_binary. change (Zdigits2 100) with 7.
  destruct (digits2_pos_spec N) as [Hlo Hhi]. cbn [Zdigits2].
  set (d := Zpos (digits2_pos N)) in *.
  assert (1 ≤ d ≤ 48) as Hd.
  { split; [lia |]. destruct (Z_le_gt_dec d 48) as [| Hgt]; [done |].
    assert (2 ^ 48 ≤ 2 ^ (d - 1)) by (apply Z.pow_le_mono_r; lia). lia. }
  replace (Z.min (fexp JSNumber.prec JSNumber.emax (d + 0 - (7 + 0))) (0 - 0))
    with (d - 60) by (unfold fexp, emin, JSNumber.prec, JSNumber.emax; lia).
  replace (0 - 0 - (d - 60)) with (60 - d) by lia.
  destruct (60 - d) as [| s | s] eqn:Es; try lia.
  rewrite Z.shiftl_mul_pow2 by lia. rewrite <- Es.
  pose proof (Z_div_mod (Zpos N * 2 ^ (60 - d)) 100 eq_refl) as Hdiv.
  destruct (Z.div_eucl _ 100) as [q r]. destruct Hdiv as [Hqr Hr].
  assert (2 ^ 59 ≤ Zpos N * 2 ^ (60 - d) < 2 ^ 60) as HX.
  { assert (2 ^ 59 = 2 ^ (d - 1) * 2 ^ (60 - d)) as ->
      by (rewrite <- Z.pow_add_r by lia; f_equal; lia).
    assert (2 ^ 60 = 2 ^ d * 2 ^ (60 - d)) as ->
      by (rewrite <- Z.pow_add_r by lia; f_equal; lia).
    pose proof (Z.pow_pos_nonneg 2 (60 - d)).
    split; [apply Z.mul_le_mono_nonneg_r | apply Z.mul_lt_mono_pos_r]; lia. }
  destruct (binary_round_aux_near q (d - 60) (new_location 100 r)) as (M & k & EM & Hk & HM);
    [lia | lia |].
  exists M, (d - 60 + k). split; [done |]. split; [lia |].
  replace (- (d - 60 + k)) with (60 - d - k) by lia.
  assert (2 ^ (60 - d) = 2 ^ (60 - d - k) * 2 ^ k) as Hsplit.
  { rewrite <- Z.pow_add_r by lia. f_equal. lia. }
  rewrite Hsplit in Hqr.
  pose proof (Z.pow_pos_nonneg 2 (60 - d - k)).
  assert (k = 0 ∨ k = 1 ∨ k = 2) as Hk' by lia.
  destruct_or!; subst k; [change (2 ^ 0) with 1 in * | change (2 ^ 1) with 2 in * |
    change (2 ^ 2) with 4 in *]; lia.
Qed.

Lemma toFixed_cents (N : Z) :
  0 ≤ N < 2 ^ 48 →
  NumberPrototype.toFixed (JSNumber.of_decimal false N (-2)) 2
  = NumberPrototype.fixed_digits N 2.
Proof.
  intros HN. destruct N as [| N | N]; [done | | lia].
  destruct (of_decimal_cents N) as (M & E & -> & HE & HM); [lia |].
  unfold NumberPrototype.toFixed.
  replace (0 <=? E) with false by (symmetry; apply Z.leb_gt; lia).
  change (10 ^ Z.of_nat 2) with 100.
  assert (2 ^ 10 ≤ 2 ^ (- E)) as Hden by (apply Z.pow_le_mono_r; lia).
  set (den := 2 ^ (- E)) in *.
  replace (10 ^ 21 * den <=? Zpos M) with false by (symmetry; apply Z.leb_gt; nia).
  rewrite append_nil_l. f_equal.
  symmetry. apply Z.div_unique with (2 * Zpos M * 100 + den - 2 * den * Zpos N); lia.
Qed.

(** *** Decimal numerals, digit by digit *)

Lemma of_digits_rev_acc (fuel : nat) :
  ∀ (n : N) (acc : string),
    JSString.of_digits_rev fuel n acc = JSString.of_digits_rev fuel n "" ++ acc.
Proof.
  induction fuel as [| fuel IH]; intros n acc; [done |].
  rewrite !of_digits_rev_S. destruct (n <? 10)%N; [done |].
  rewrite IH, (IH _ (String _ "")). by rewrite append_assoc.
Qed.

Lemma of_digits_rev_fuel (f1 : nat) :
  ∀ (f2 : nat) (n : N) (acc : string),
    (n < 10 ^ N.of_nat (S f1))%N → (n < 10 ^ N.of_nat (S f2))%N →
    JSString.of_digits_rev (S f1) n acc = JSString.of_digits_rev (S f2) n acc.
Proof.
  induction f1 as [| f1 IH]; intros f2 n acc H1 H2; rewrite !of_digits_rev_S.
  - assert (n < 10)%N as Hlt by (simpl in H1; lia).
    apply N.ltb_lt in Hlt. by rewrite Hlt.
  - destruct (n <? 10)%N eqn:Hb; [done |]. apply N.ltb_ge in Hb.
    destruct f2 as [| f2]; [simpl in H2; lia |].
    apply IH; apply N.Div0.div_lt_upper_bound.
    + replace (N.of_nat (S (S f1))) with (N.succ (N.of_nat (S f1))) in H1 by lia.
      by rewrite N.pow_succ_r' in H1.
    + replace (N.of_nat (S (S f2))) with (N.succ (N.of_nat (S f2))) in H2 by lia.
      by rewrite N.pow_succ_r' in H2.
Qed.

Lemma log2_fuel (n : N) : (n < 10 ^ N.of_nat (S (N.to_nat (N.log2 n))))%N.
Proof.
  rewrite Nat2N.inj_succ, N2Nat.id.
  destruct (decide (n = 0%N)) as [-> | Hn]; [done |].
  destruct (N.log2_spec n) as [_ Hlt]; [lia |].
  eapply N.lt_le_trans; [apply Hlt |].
  apply N.pow_le_mono_l. lia.
Qed.

Lemma of_N_small (n : N) :
  (n < 10)%N → JSString.of_N n = String (ascii_of_N (48 + n)) "".
Proof.
  intros Hlt. unfold JSString.of_N. rewrite of_digits_rev_S.
  rewrite N.mod_small by done. apply N.ltb_lt in Hlt. by rewrite Hlt.
Qed.

Lemma of_N_step (n : N) :
  (10 ≤ n)%N →
  JSString.of_N n = JSString.of_N (n / 10) ++ String (ascii_of_N (48 + n mod 10)) "".
Proof.
  intros Hge. unfold JSString.of_N at 1. rewrite of_digits_rev_S.
  apply N.ltb_ge in Hge as Hb. rewrite Hb.
  rewrite of_digits_rev_acc. f_equal.
  assert (3 ≤ N.log2 n)%N as Hl by (apply N.log2_le_pow2; simpl; lia).
  destruct (N.to_nat (N.log2 n)) as [| f] eqn:Ef; [lia |].
  unfold JSString.of_N. apply of_digits_rev_fuel; [| apply log2_fuel].
  apply N.Div0.div_lt_upper_bound.
  pose proof (log2_fuel n) as H. rewrite Ef in H.
  replace (N.of_nat (S (S f))) with (N.succ (N.of_nat (S f))) in H by lia.
  by rewrite N.pow_succ_r' in H.
Qed.

Lemma pad_two (b : N) :
  (b < 100)%N →
  JSString.pad 2 (JSString.of_N b)
  = String (ascii_of_N (48 + b / 10)) (String (ascii_of_N (48 + b mod 10)) "").
Proof.
  intros Hb. destruct (N.lt_ge_cases b 10) as [Hlt | Hge].
  - rewrite of_N_small by done. rewrite N.div_small, N.mod_small by done. reflexivity.
  - rewrite of_N_step by done. rewrite of_N_small by (apply N.Div0.div_lt_upper_bound; lia).
    reflexivity.
Qed.

Lemma substring_app_l (w r : string) :
  String.substring 0 (String.length w) (w ++ r) = w.
Proof.
  induction w as [| c w IH]; [by destruct r |].
  rewrite append_cons. cbn [String.length String.substring]. by rewrite IH.
Qed.

Lemma substring_app_r (w r : string) :
  String.substring (String.length w) (String.length r) (w ++ r) = r.
Proof.
  induction w as [| c w IH].
  - rewrite append_nil_l. cbn [String.length]. induction r as [| c r IH]; [done |].
    cbn [String.length String.substring]. by rewrite IH.
  - rewrite append_cons. cbn [String.length String.substring]. apply IH.
Qed.

Lemma fixed_digits_split (w dd : string) :
  w ≠ "" → String.length dd = 2%nat →
  (let m := JSString.pad 3 (w ++ dd) in
   String.substring 0 (String.length m - 2) m ++ "."
     ++ String.substring (String.length m - 2) 2 m)
  = w ++ "." ++ dd.
Proof.
  intros Hw Hdd. cbv zeta. unfold JSString.pad.
  assert (String.length (w ++ dd) = (String.length w + 2)%nat) as Hlen
    by (by rewrite append_length, Hdd).
  assert (String.length w ≠ 0%nat) by (by destruct w).
  replace (3 - String.length (w ++ dd))%nat with 0%nat by lia.
  cbn [JSString.zeros]. rewrite append_nil_l, Hlen.
  replace (String.length w + 2 - 2)%nat with (String.length w) by lia.
  rewrite substring_app_l. rewrite <- Hdd at 1. by rewrite substring_app_r.
Qed.

Lemma fixed_digits_twoDecimals (cents : N) :
  NumberPrototype.fixed_digits (Z.of_N cents) 2 = twoDecimals cents.
Proof.
  unfold NumberPrototype.fixed_digits, twoDecimals.
  replace (JSString.of_Z (Z.of_N cents)) with (JSString.of_N cents)
    by (unfold JSString.of_Z; destruct cents; [done | by rewrite N2Z.id]).
  rewrite pad_two by (apply N.mod_lt; lia).
  destruct (N.lt_ge_cases cents 100) as [Hlt | Hge].
  - rewrite (N.div_small cents 100), (N.mod_small cents 100) by done.
    replace (JSString.pad 3 (JSString.of_N cents))
      with ("0" ++ JSString.pad 2 (JSString.of_N cents)).
    + rewrite pad_two by done. reflexivity.
    + destruct (N.lt_ge_cases cents 10) as [Hlt' | Hge'].
      * by rewrite of_N_small.
      * rewrite of_N_step by done.
        by rewrite of_N_small by (apply N.Div0.div_lt_upper_bound; lia).
  - rewrite (of_N_step cents) by lia.
    rewrite (of_N_step (cents / 10)) by (apply N.div_le_lower_bound; lia).
    rewrite N.Div0.div_div. change (10 * 10)%N with 100%N.
    rewrite append_assoc.
    assert ((cents mod 100) mod 10 = cents mod 10)%N as ->.
    { change 100%N with (10 * 10)%N. rewrite N.Div0.mod_mul_r.
      by rewrite (N.mul_comm 10), N.Div0.mod_add, N.Div0.mod_mod. }
    assert ((cents mod 100) / 10 = (cents / 10) mod 10)%N as ->.
    { change 100%N with (10 * 10)%N. rewrite N.Div0.mod_mul_r.
      rewrite (N.mul_comm 10), N.div_add by lia.
      by rewrite (N.div_small (cents mod 10)) by (apply N.mod_lt; lia). }
    apply fixed_digits_split; [apply of_N_spec | done].
Qed.

Lemma span_digits_all (w rest : string) :
  JSString.all_digits w = true →
  match rest with String c _ => JSString.is_digit c = false | EmptyString => True end →
  JSString.span_digits (w ++ rest) = (w, rest).
Proof.
  intros Hw Hrest. induction w as [| c w IH].
  - rewrite append_nil_l. destruct rest as [| c r]; [done |]. cbn. by rewrite Hrest.
  - rewrite append_cons. cbn [JSString.all_digits] in Hw.
    apply andb_prop in Hw as [Hc Hw]. cbn [JSString.span_digits]. by rewrite Hc, IH.
Qed.

Lemma parseFloat_digit (c : ascii) (r : string) :
  JSString.is_digit c = true →
  parseFloat (String c r)
  = let '(int, r) := JSString.span_digits (String c r) in
    match r with
    | String "." r' =>
        let '(frac, r'') := JSString.span_digits r' in
        match int, frac with
        | EmptyString, EmptyString => JSNumber.NaN
        | _, _ =>
            JSNumber.of_decimal false
              (JSString.digits_value 0 (int ++ frac))
              (scan_exponent r'' - Z.of_nat (String.length frac))
        end
    | _ =>
        match int with
        | EmptyString => JSNumber.NaN
        | _ => JSNumber.of_decimal false (JSString.digits_value 0 int) (scan_exponent r)
        end
    end.
Proof.
  intros Hc.
  destruct c as [[] [] [] [] [] [] [] []]; try discriminate Hc; reflexivity.
Qed.

Lemma parseFloat_point (w dd : string) :
  w ≠ "" → JSString.all_digits w = true → JSString.all_digits dd = true →
  parseFloat (w ++ "." ++ dd)
  = JSNumber.of_decimal false (JSString.digits_value 0 (w ++ dd))
      (- Z.of_nat (String.length dd)).
Proof.
  intros Hne Hw Hdd. destruct w as [| c w]; [done |].
  rewrite append_cons. rewrite parseFloat_digit by (by apply andb_prop in Hw as [? _]).
  rewrite <- append_cons. rewrite span_digits_all by done.
  change ("." ++ dd) with (String "." dd).
  rewrite <- (append_nil_r dd) at 1. rewrite span_digits_all by done.
  reflexivity.
Qed.

Lemma twoDecimals_digits (cents : N) :
  JSString.all_digits (JSString.pad 2 (JSString.of_N (cents mod 100))) = true
  ∧ String.length (JSString.pad 2 (JSString.of_N (cents mod 100))) = 2%nat
  ∧ JSString.digits_value 0
      (JSString.of_N (cents / 100) ++ JSString.pad 2 (JSString.of_N (cents mod 100)))
    = Z.of_N cents.
Proof.
  assert (cents mod 100 < 100)%N as Hb by (apply N.mod_lt; lia).
  split_and!.
  - unfold JSString.pad. rewrite all_digits_app.
    destruct (of_N_spec (cents mod 100)) as (_ & -> & _).
    rewrite andb_true_r. by induction (2 - _)%nat.
  - by rewrite pad_two.
  - rewrite digits_value_app, of_N_value.
    rewrite pad_two by done. cbn [JSString.digits_value].
    destruct (digit_of_N (cents mod 100 / 10)) as [_ ->];
      [apply N.Div0.div_lt_upper_bound; lia |].
    destruct (digit_of_N (cents mod 100 mod 10)) as [_ ->]; [apply N.mod_lt; lia |].
    pose proof (N.Div0.div_mod cents 100). pose proof (N.Div0.div_mod (cents mod 100) 10).
    lia.
Qed.

Lemma parseFloat_twoDecimals (cents : N) :
  parseFloat (twoDecimals cents) = JSNumber.of_decimal false (Z.of_N cents) (-2).
Proof.
  destruct (twoDecimals_digits cents) as (Hall & Hlen & Hval).
  unfold twoDecimals. rewrite parseFloat_point; [| apply of_N_spec.. | done].
  by rewrite Hval, Hlen.
Qed.

(** X14: a record made by [handleSubmit] from an amount typed with two
    decimals (the whole part without zeros in front, a point, two digits)
    and below a million millions has, in its row of the list, the sign of
    its type, the dollar sign and the amount exactly as it was typed. *)
Theorem a_row_shows_the_amount_as_typed
    (now created : Z) (editing : option Transaction) (formData : FormData)
    (cents : N) :
  form_amount formData = twoDecimals cents → Z.of_N cents < 10 ^ 14 →
  rowAmount (newTransaction now created editing formData)
  = (match form_type formData with income => "+" | expense => "-" end)
      ++ "$" ++ form_amount formData.
Proof.
  intros Hform Hcents. unfold rowAmount. cbn [newTransaction type amount].
  rewrite Hform, parseFloat_twoDecimals, toFixed_cents by lia.
  by rewrite fixed_digits_twoDecimals.
Qed.

Lemma a_row_witness :
  rowAmount (newTransaction 1710000000000 1710000000001 None lunch) = "-$12.50".
Proof.
  apply (a_row_shows_the_amount_as_typed 1710000000000 1710000000001 None lunch 1250);
    [reflexivity | lia].
Defined.

(** * The load at startup *)

(** ** The fuel of [JSON.parse] *)

Lemma skip_ws_length (s : string) :
  (String.length (JSON.skip_ws s) ≤ String.length s)%nat.
Proof.
  induction s as [| c s IH]; cbn; [done |]. destruct (JSON.is_ws c); cbn; lia.
Qed.

Lemma prefix_drop_length (lit s : string) :
  String.prefix lit s = true →
  (String.length (JSON.drop (String.length lit) s) + String.length lit
   = String.length s)%nat.
Proof.
  revert s. induction lit as [| c lit IH]; intros s H; cbn; [by destruct s; cbn; lia |].
  destruct s as [| d s]; [discriminate |]. cbn in H.
  destruct (ascii_dec c d); [| discriminate]. specialize (IH s H). cbn. lia.
Qed.

Lemma parse_literal_progress (lit : string) (v v' : JSValue) (s r : string) :
  lit ≠ "" → JSON.parse_literal lit v s = JSON.Parsed v' r →
  (String.length r < String.length s)%nat.
Proof.
  unfold JSON.parse_literal. intros Hne H.
  destruct (String.prefix lit s) eqn:E; [| discriminate].
  injection H as _ <-. apply prefix_drop_length in E.
  destruct lit as [| c lit]; [done |].
  change (String.length (String c lit)) with (S (String.length lit)) in E at 2. lia.
Qed.

Lemma span_digits_length (s d r : string) :
  JSString.span_digits s = (d, r) →
  (String.length d + String.length r = String.length s)%nat.
Proof.
  revert d r. induction s as [| c s IH]; intros d r H; cbn in H.
  - by injection H as <- <-.
  - destruct (JSString.is_digit c).
    + destruct (JSString.span_digits s) as [d' r']. injection H as <- <-.
      specialize (IH d' r' eq_refl). cbn. lia.
    + injection H as <- <-. cbn. lia.
Qed.

Lemma parse_chars_progress (n : nat) :
  ∀ s str r, (String.length s ≤ n)%nat → JSON.parse_chars s = Some (str, r) →
             (String.length r < String.length s)%nat.
Proof.
  induction n as [| n IH]; intros s str r Hn H.
  - destruct s; [discriminate | cbn in Hn; lia].
  - destruct s as [| c s]; [discriminate |]. cbn in Hn, H.
    repeat case_match; simplify_eq; cbn;
      repeat match goal with
             | E : JSON.parse_chars ?x = Some _ |- _ =>
                 apply IH in E; [| cbn in *; lia]
             end; cbn in *; lia.
Qed.

Lemma parse_number_progress (s r : string) (v : JSValue) :
  JSON.parse_number s = JSON.Parsed v r → (String.length r < String.length s)%nat.
Proof.
  unfold JSON.parse_number. intros H.
  repeat case_match; simplify_eq;
    repeat match goal with
           | E : JSString.span_digits _ = _ |- _ => apply span_digits_length in E
           end; cbn in *; lia.
Qed.
#[local] Arguments JSON.parse_number : simpl never.
#[local] Arguments JSON.parse_literal : simpl never.
#[local] Arguments JSON.parse_chars : simpl never.
#[local] Arguments JSON.skip_ws : simpl never.
#[local] Arguments fold_left : simpl never.
#[local] Arguments Ascii.eqb : simpl never.

Lemma skip_ws_cons (s r : string) (c : ascii) :
  JSON.skip_ws s = String c r → (String.length r < String.length s)%nat.
Proof.
  intros H. pose proof (skip_ws_length s) as Hl. rewrite H in Hl. cbn in Hl. lia.
Qed.

(** What a piece of the parser leaves is shorter than what it was given. *)
Ltac parser_lengths IH :=
  repeat match goal with
         | E : JSON.skip_ws _ = String _ _ |- _ => apply skip_ws_cons in E
         | E : JSON.parse_chars _ = Some _ |- _ =>
             eapply parse_chars_progress in E; [| reflexivity]
         | E : JSON.parse_number _ = JSON.Parsed _ _ |- _ =>
             apply parse_number_progress in E
         | E : JSON.parse_literal _ _ _ = JSON.Parsed _ _ |- _ =>
             apply parse_literal_progress in E; [| done]
         | E : JSON.parse_value _ _ = JSON.Parsed _ _ |- _ => apply IH in E
         | E : JSON.parse_elements _ _ = JSON.Parsed _ _ |- _ => apply IH in E
         | E : JSON.parse_members _ _ = JSON.Parsed _ _ |- _ => apply IH in E
         end.

Lemma parse_progress (fuel : nat) :
  ∀ s,
    (∀ v r, JSON.parse_value fuel s = JSON.Parsed v r →
            (String.length r < String.length s)%nat)
    ∧ (∀ vs r, JSON.parse_elements fuel s = JSON.Parsed vs r →
               (String.length r < String.length s)%nat)
    ∧ (∀ ms r, JSON.parse_members fuel s = JSON.Parsed ms r →
               (String.length r < String.length s)%nat).
Proof.
  induction fuel as [| fuel IH]; intros s; [by split_and! |].
  split_and!; intros x r H; cbn in H;
    repeat case_match; simplify_eq; parser_lengths IH; cbn in *; lia.
Qed.

Lemma parse_literal_fuel (lit : string) (v : JSValue) (s : string) :
  JSON.parse_literal lit v s ≠ JSON.OutOfFuel.
Proof. unfold JSON.parse_literal. by destruct (String.prefix lit s). Qed.

Lemma parse_number_fuel (s : string) : JSON.parse_number s ≠ JSON.OutOfFuel.
Proof. unfold JSON.parse_number. by repeat case_match. Qed.

Lemma parse_fuel (fuel : nat) :
  ∀ s,
    ((2 * String.length s + 2 ≤ fuel)%nat → JSON.parse_value fuel s ≠ JSON.OutOfFuel)
    ∧ ((2 * String.length s + 3 ≤ fuel)%nat →
       JSON.parse_elements fuel s ≠ JSON.OutOfFuel)
    ∧ ((2 * String.length s + 3 ≤ fuel)%nat →
       JSON.parse_members fuel s ≠ JSON.OutOfFuel).
Proof.
  induction fuel as [| fuel IH]; intros s; [split_and!; lia |].
  split_and!; intros Hf H; cbn in H;
    repeat case_match; simplify_eq;
    try (by eapply parse_literal_fuel); try (by eapply parse_number_fuel);
    match goal with
    | E : _ = JSON.OutOfFuel |- _ => apply IH in E; [done |]
    end;
    parser_lengths (parse_progress fuel); cbn in *; lia.
Qed.

(** [JSON.parse] has the fuel it needs: when it raises, the text is not
    JSON. *)
Lemma parse_has_fuel (text : string) :
  JSON.parse_value (2 * String.length text + 2) text ≠ JSON.OutOfFuel.
Proof. by apply parse_fuel. Qed.

(** ** The load at startup *)

(** C1, as the code has it: when the slot is missing or holds the empty
    text, the load leaves the collection empty and raises nothing; on any
    other text the load is [JSON.parse]: the value of the text becomes the
    collection as it is, and for a text that is not JSON the SyntaxError of
    [JSON.parse] leaves the effect, nothing catches it.  So an exception
    leaves the load exactly for the non-empty texts that [JSON.parse]
    rejects, which it does for a token that the grammar does not allow and
    never for lack of fuel. *)
Theorem load_outcomes (savedTransactions : option string) :
  (savedTransactions = None ∨ savedTransactions = Some ""
   → load savedTransactions = Ok (JArr []))
  ∧ (∀ text, savedTransactions = Some text → text ≠ "" →
             load savedTransactions = JSON.parse text)
  ∧ (∀ e, load savedTransactions = Throw e
          ↔ ∃ text, savedTransactions = Some text ∧ text ≠ ""
                    ∧ JSON.parse text = Throw e)
  ∧ (∀ text, JSON.parse_value (2 * String.length text + 2) text ≠ JSON.OutOfFuel).
Proof.
  assert (∀ text, text ≠ "" → load (Some text) = JSON.parse text) as Hparse.
  { intros text Hne. unfold load. apply truthy_nonempty in Hne as ->.
    by destruct (JSON.parse text). }
  split_and!.
  - by intros [-> | ->].
  - intros text -> Hne. by apply Hparse.
  - intros e. split.
    + destruct savedTransactions as [text |]; [| done].
      destruct (decide (text = "")) as [-> | Hne]; [done |].
      rewrite (Hparse text Hne). intros H. by exists text.
    + intros (text & -> & Hne & H). by rewrite (Hparse text Hne).
  - apply parse_has_fuel.
Qed.

(** C1, as the specification has it, fails: on a slot that holds text that
    is not JSON the load raises a SyntaxError instead of yielding the
    empty collection (the parser stops at an unexpected token, not for lack
    of fuel); and content that is JSON of another shape is not treated as
    absent, it becomes the collection. *)
Lemma load_raises_on_unparseable_content :
  JSON.parse_value (2 * String.length "{oops" + 2) "{oops" = JSON.Unexpected
  ∧ load (Some "{oops")
    = Throw (SyntaxError "Unexpected token or end of JSON input")
  ∧ load (Some "42") = Ok (JNum (JSNumber.of_Z 42)).
Proof. by vm_compute. Qed.

(** * The save and the load *)

(** ** Reading back what [JSON.stringify] writes *)

(** *** Strings *)

Lemma parse_chars_quote_char (c : ascii) (r : string) :
  JSON.parse_chars (Stringify.quote_char c ++ r)
  = match JSON.parse_chars r with
    | Some (str, rest) => Some (String c str, rest)
    | None => None
    end.
Proof.
  destruct c as [[] [] [] [] [] [] [] []]; reflexivity.
Qed.

Lemma parse_chars_quoted (s rest : string) :
  JSON.parse_chars (Stringify.quote_chars s ++ String JSON.quote rest) = Some (s, rest).
Proof.
  induction s as [| c s IH]; [done |].
  cbn [Stringify.quote_chars]. rewrite append_assoc, parse_chars_quote_char. by rewrite IH.
Qed.

(** *** Numbers *)


Lemma parse_number_eq (s : string) :
  JSON.parse_number s
  = let '(neg, s1) := sign_part s in
    let '(int, s2) := JSString.span_digits s1 in
    match int with
    | EmptyString => JSON.Unexpected
    | String d int' =>
        if (d =? "0")%char && negb (String.length int' =? 0)%nat then JSON.Unexpected
        else
          let '(frac, s3, okf) := frac_part s2 in
          let '(exp, s4, oke) := exp_part s3 in
          if okf && oke then
            JSON.Parsed (JNum (JSNumber.of_decimal neg
                                 (JSString.digits_value 0 (int ++ frac))
                                 (exp - Z.of_nat (String.length frac))))
                        s4
          else JSON.Unexpected
    end.
Proof. reflexivity. Qed.

Lemma span_digits_app (s rest : string) :
  ends_number rest →
  JSString.span_digits (s ++ rest)
  = ((JSString.span_digits s).1, (JSString.span_digits s).2 ++ rest).
Proof.
  intros Hrest. induction s as [| c s IH].
  - destruct rest as [| c r]; [done |]. destruct Hrest as [Hd _].
    rewrite append_nil_l. cbn. by rewrite Hd.
  - rewrite append_cons. cbn [JSString.span_digits]. rewrite IH.
    destruct (JSString.is_digit c); [| done].
    by destruct (JSString.span_digits s).
Qed.

Lemma sign_part_app (s rest : string) :
  s ≠ "" → sign_part (s ++ rest) = ((sign_part s).1, (sign_part s).2 ++ rest).
Proof.
  destruct s as [| c r]; [done |]. intros _.
  destruct c as [[] [] [] [] [] [] [] []]; reflexivity.
Qed.

Lemma frac_part_app (s2 rest : string) :
  ends_number rest →
  frac_part (s2 ++ rest)
  = ((frac_part s2).1.1, (frac_part s2).1.2 ++ rest, (frac_part s2).2).
Proof.
  intros Hrest. destruct s2 as [| c r].
  - rewrite append_nil_l. destruct rest as [| c r]; [done |].
    destruct Hrest as (_ & Hdot & _).
    destruct c as [[] [] [] [] [] [] [] []]; try reflexivity. done.
  - rewrite append_cons.
    assert (c = "."%char ∨ c ≠ "."%char) as [-> | Hc] by (destruct (decide (c = "."%char)); auto).
    + cbn [frac_part]. rewrite span_digits_app by done.
      by destruct (JSString.span_digits r).
    + destruct c as [[] [] [] [] [] [] [] []]; try reflexivity. done.
Qed.

Lemma exp_sign_app (r rest : string) :
  r ≠ "" → exp_sign (r ++ rest) = ((exp_sign r).1, (exp_sign r).2 ++ rest).
Proof.
  destruct r as [| c r]; [done |]. intros _.
  destruct c as [[] [] [] [] [] [] [] []]; reflexivity.
Qed.

Lemma exp_part_app (s3 rest : string) :
  ends_number rest → (exp_part s3).2 = true →
  exp_part (s3 ++ rest)
  = ((exp_part s3).1.1, (exp_part s3).1.2 ++ rest, true).
Proof.
  intros Hrest Hok. destruct s3 as [| c r].
  - rewrite append_nil_l. destruct rest as [| c r]; [done |].
    destruct Hrest as (_ & _ & He1 & He2). cbn [exp_part].
    assert ((c =? "e")%char || (c =? "E")%char = false) as ->; [| done].
    apply orb_false_iff. split; by apply Ascii.eqb_neq.
  - rewrite append_cons. cbn [exp_part] in *.
    destruct ((c =? "e")%char || (c =? "E")%char); [| done].
    destruct (decide (r = "")) as [-> | Hr]; [by exfalso |].
    rewrite exp_sign_app by done. destruct (exp_sign r) as [sign r1]. cbn [fst snd].
    rewrite span_digits_app by done.
    destruct (JSString.span_digits r1) as [e r2]. cbn [fst snd] in *. by rewrite Hok.
Qed.

(** A number read up to the end of a text is read the same way in front
    of what may follow a number. *)
Lemma parse_number_extend (s rest : string) (v : JSValue) :
  JSON.parse_number s = JSON.Parsed v "" → ends_number rest →
  JSON.parse_number (s ++ rest) = JSON.Parsed v rest.
Proof.
  intros H Hrest. rewrite parse_number_eq in *.
  assert (s ≠ "") as Hs by (by intros ->).
  rewrite sign_part_app by done. destruct (sign_part s) as [neg s1]. cbn [fst snd].
  rewrite span_digits_app by done. destruct (JSString.span_digits s1) as [int s2].
  cbn [fst snd]. destruct int as [| d int']; [done |].
  destruct ((d =? "0")%char && negb (String.length int' =? 0)%nat); [done |].
  rewrite frac_part_app by done. destruct (frac_part s2) as [[frac s3] okf].
  cbn [fst snd].
  destruct (exp_part s3) as [[exp s4] oke] eqn:Eexp.
  destruct okf; [| done]. destruct oke; [| done]. cbn [andb] in *.
  rewrite exp_part_app by (done || by rewrite Eexp). rewrite Eexp. cbn [fst snd andb].
  injection H as <- ->. done.
Qed.

Lemma parse_number_starts (s r : string) (v : JSValue) :
  JSON.parse_number s = JSON.Parsed v r → starts_number s.
Proof.
  rewrite parse_number_eq. destruct s as [| c s']; [done |].
  assert (c = "-"%char ∨ c ≠ "-"%char) as [-> | Hc]
    by (destruct (decide (c = "-"%char)); auto); [by left |].
  assert (sign_part (String c s') = (false, String c s')) as ->.
  { destruct c as [[] [] [] [] [] [] [] []]; try reflexivity. done. }
  cbn [JSString.span_digits]. destruct (JSString.is_digit c) eqn:Hd; [by right |]. done.
Qed.

Lemma parse_value_number (fuel : nat) (s : string) :
  (1 ≤ fuel)%nat → starts_number s → JSON.parse_value fuel s = JSON.parse_number s.
Proof.
  intros Hf Hs. destruct fuel as [| fuel]; [lia |].
  destruct s as [| c r]; [done |].
  destruct c as [[] [] [] [] [] [] [] []];
    try reflexivity; exfalso; destruct Hs as [Hs | Hs]; discriminate Hs.
Qed.

(** *** Values *)

Lemma delimited_ends_number (rest : string) : delimited rest → ends_number rest.
Proof.
  destruct rest as [| c r]; [done |]. intros [-> | [-> | ->]]; by vm_compute.
Qed.

Lemma starts_number_app (s rest : string) : starts_number s → starts_number (s ++ rest).
Proof. by destruct s. Qed.

Lemma prefix_app (lit rest : string) : String.prefix lit (lit ++ rest) = true.
Proof.
  induction lit as [| c lit IH]; [by destruct rest |].
  rewrite append_cons. cbn. by destruct (ascii_dec c c).
Qed.

Lemma drop_app (lit rest : string) : JSON.drop (String.length lit) (lit ++ rest) = rest.
Proof. induction lit as [| c lit IH]; [by destruct rest | done]. Qed.

Lemma parse_literal_app (lit rest : string) (v : JSValue) :
  JSON.parse_literal lit v (lit ++ rest) = JSON.Parsed v rest.
Proof. unfold JSON.parse_literal. by rewrite prefix_app, drop_app. Qed.

Lemma leaf_parsesBack (v : JSValue) : leaf v → parsesBack 1 v.
Proof.
  intros Hv fuel rest Hf Hrest. destruct fuel as [| fuel]; [lia |].
  destruct v as [| [] | x | s | |]; try done.
  - apply (parse_literal_app "null").
  - apply (parse_literal_app "true").
  - apply (parse_literal_app "false").
  - destruct Hv as [Hfin Hx]. cbn [Stringify.stringify]. rewrite Hfin.
    rewrite parse_value_number;
      [| lia | by eapply starts_number_app, parse_number_starts].
    apply parse_number_extend; [done | by apply delimited_ends_number].
  - cbn [Stringify.stringify]. unfold Stringify.QuoteJSONString.
    rewrite append_cons, append_assoc, append_cons, append_nil_l.
    change (JSON.parse_value (S fuel) (String JSON.quote ?r))
      with (match JSON.parse_chars r with
            | Some (str, rest) => JSON.Parsed (JStr str) rest
            | None => JSON.Unexpected
            end).
    by rewrite parse_chars_quoted.
Qed.

Lemma leaf_starts (v : JSValue) : leaf v → starts_value (Stringify.stringify v).
Proof.
  destruct v as [| [] | x | s | |]; try done.
  intros [Hfin Hx]. cbn [Stringify.stringify]. rewrite Hfin.
  apply parse_number_starts in Hx.
  destruct (NumberPrototype.toString x) as [| c r]; [done |].
  destruct Hx as [-> | Hd]; [done |].
  destruct c as [[] [] [] [] [] [] [] []]; try discriminate Hd; done.
Qed.

(** *** Objects and arrays *)

Lemma skip_ws_starts (s : string) :
  match s with String c _ => JSON.is_ws c = false | EmptyString => True end →
  JSON.skip_ws s = s.
Proof. destruct s as [| c r]; [done |]. intros H. unfold JSON.skip_ws. by rewrite H. Qed.

Lemma skip_ws_delimited (rest : string) : delimited rest → JSON.skip_ws rest = rest.
Proof.
  intros H. apply skip_ws_starts. destruct rest as [| c r]; [done |].
  destruct H as [-> | [-> | ->]]; done.
Qed.

Ltac norm_append :=
  repeat first [rewrite append_cons | rewrite append_nil_l | rewrite append_assoc].

Lemma join_cons (x : string) (l : list string) :
  l ≠ [] → Stringify.join (x :: l) = x ++ "," ++ Stringify.join l.
Proof. by destruct l. Qed.

(** The members of an object whose values are read back. *)
Lemma parse_members_back (F : nat) (ms : list (string * JSValue)) :
  ms ≠ [] → Forall (λ kv, parsesBack F kv.2) ms →
  ∀ fuel rest,
    (length ms + F ≤ fuel)%nat →
    JSON.parse_members fuel (Stringify.join (member_text <$> ms) ++ String "}" rest)
    = JSON.Parsed ms rest.
Proof.
  induction ms as [| [k v] ms IH]; [done |]. intros _ Hall fuel rest Hf.
  apply Forall_cons in Hall as [Hv Hall]. cbn [fst snd] in Hv.
  destruct fuel as [| fuel]; [cbn in Hf; lia |].
  assert (∀ tail, delimited tail →
            JSON.parse_members (S fuel) (member_text (k, v) ++ tail)
            = match JSON.skip_ws tail with
              | String c r4 =>
                  if (c =? ",")%char then
                    match JSON.parse_members fuel r4 with
                    | JSON.Parsed ms' rest' => JSON.Parsed ((k, v) :: ms') rest'
                    | JSON.Unexpected => JSON.Unexpected
                    | JSON.OutOfFuel => JSON.OutOfFuel
                    end
                  else if (c =? "}")%char then JSON.Parsed [(k, v)] r4
                  else JSON.Unexpected
              | EmptyString => JSON.Unexpected
              end) as Hstep.
  { intros tail Htail. unfold member_text, Stringify.QuoteJSONString. cbn [fst snd].
    norm_append. cbn [JSON.parse_members].
    rewrite skip_ws_starts by done.
    change (JSON.quote =? JSON.quote)%char with true. cbn iota.
    rewrite parse_chars_quoted.
    rewrite skip_ws_starts by done.
    rewrite Hv by (done || cbn in Hf; lia). done. }
  destruct ms as [| kv ms].
  - cbn [fmap list_fmap Stringify.join]. rewrite Hstep by (by right; right).
    rewrite skip_ws_starts by done. done.
  - cbn [fmap list_fmap]. rewrite join_cons by done.
    rewrite !append_assoc. rewrite Hstep by (by left).
    rewrite skip_ws_starts by done. rewrite append_cons, append_nil_l.
    change ("," =? ",")%char with true. cbn iota.
    change (member_text kv :: (member_text <$> ms)) with (member_text <$> (kv :: ms)).
    rewrite IH; [done | done | done | cbn in *; lia].
Qed.

Lemma set_member_fresh (o : list (string * JSValue)) (k : string) (v : JSValue) :
  k ∉ o.*1 → JSON.set_member o k v = (o ++ [(k, v)])%list.
Proof.
  induction o as [| [k' v'] o IH]; [done |]. cbn. intros H.
  apply not_elem_of_cons in H as [Hne H].
  rewrite decide_False by done. by rewrite IH.
Qed.

Lemma fold_set_member (ms o : list (string * JSValue)) :
  NoDup ((o ++ ms)%list).*1 →
  fold_left (λ o '(k, v), JSON.set_member o k v) ms o = (o ++ ms)%list.
Proof.
  revert o. induction ms as [| [k v] ms IH]; intros o Hnd.
  - by rewrite app_nil_r.
  - change (fold_left _ ((k, v) :: ms) o)
      with (fold_left (λ o '(k, v), JSON.set_member o k v) ms (JSON.set_member o k v)).
    rewrite set_member_fresh.
    + rewrite IH; [by rewrite <- app_assoc | by rewrite <- app_assoc].
    + rewrite fmap_app in Hnd. apply NoDup_app in Hnd as (_ & Hdis & _).
      intros Hin. apply (Hdis k Hin). cbn. apply list_elem_of_here.
Qed.

(** An object with distinct names and values that are read back. *)
Lemma object_parsesBack (F : nat) (ms : list (string * JSValue)) :
  NoDup ms.*1 → Forall (λ kv, parsesBack F kv.2) ms →
  parsesBack (length ms + F + 1) (JObj ms).
Proof.
  intros Hnd Hall fuel rest Hf Hrest. destruct fuel as [| fuel]; [lia |].
  cbn [Stringify.stringify]. norm_append.
  change (JSON.parse_value (S fuel) (String "{" ?r))
    with (match JSON.skip_ws r with
          | String "}" r' => JSON.Parsed (JObj []) r'
          | _ =>
              match JSON.parse_members fuel r with
              | JSON.Parsed ms rest =>
                  JSON.Parsed
                    (JObj (fold_left (fun o '(k, v) => JSON.set_member o k v) ms [])) rest
              | JSON.Unexpected => JSON.Unexpected
              | JSON.OutOfFuel => JSON.OutOfFuel
              end
          end).
  destruct ms as [| [k v] ms].
  - cbn [map Stringify.join]. norm_append. by rewrite skip_ws_starts.
  - change (map _ ((k, v) :: ms)) with (member_text <$> ((k, v) :: ms)).
    rewrite (parse_members_back F); [| done | done | cbn in *; lia].
    rewrite fold_set_member by done. cbn [app].
    assert (∃ r, Stringify.join (member_text <$> (k, v) :: ms) ++ String "}" rest
                 = String JSON.quote r) as [r ->].
    { cbn [fmap list_fmap]. destruct ms; [cbn [Stringify.join] | rewrite join_cons by done];
        unfold member_text, Stringify.QuoteJSONString; rewrite !append_cons; by eexists. }
    by rewrite skip_ws_starts.
Qed.

(** The elements of an array that are read back. *)
Lemma parse_elements_back (F : nat) (vs : list JSValue) :
  vs ≠ [] → Forall (parsesBack F) vs →
  ∀ fuel rest,
    (length vs + F ≤ fuel)%nat →
    JSON.parse_elements fuel (Stringify.join (Stringify.stringify <$> vs) ++ String "]" rest)
    = JSON.Parsed vs rest.
Proof.
  induction vs as [| v vs IH]; [done |]. intros _ Hall fuel rest Hf.
  apply Forall_cons in Hall as [Hv Hall].
  destruct fuel as [| fuel]; [cbn in Hf; lia |].
  destruct vs as [| v' vs].
  - cbn [fmap list_fmap Stringify.join JSON.parse_elements].
    rewrite Hv by (done || (cbn in Hf; lia) || by right; left).
    by rewrite skip_ws_starts.
  - cbn [fmap list_fmap]. rewrite join_cons by done. rewrite !append_assoc.
    cbn [JSON.parse_elements].
    rewrite Hv by (done || (cbn in Hf; lia) || by left).
    rewrite skip_ws_starts by done. rewrite append_cons, append_nil_l.
    change ("," =? ",")%char with true. cbn iota.
    change (Stringify.stringify v' :: (Stringify.stringify <$> vs))
      with (Stringify.stringify <$> (v' :: vs)).
    rewrite IH; [done | done | done | cbn in *; lia].
Qed.

Lemma array_parsesBack (F : nat) (vs : list JSValue) :
  Forall (parsesBack F) vs →
  Forall (λ v, starts_value (Stringify.stringify v)) vs →
  parsesBack (length vs + F + 1) (JArr vs).
Proof.
  intros Hall Hstart fuel rest Hf Hrest. destruct fuel as [| fuel]; [lia |].
  cbn [Stringify.stringify]. norm_append.
  change (JSON.parse_value (S fuel) (String "[" ?r))
    with (match JSON.skip_ws r with
          | String "]" r' => JSON.Parsed (JArr []) r'
          | _ =>
              match JSON.parse_elements fuel r with
              | JSON.Parsed vs rest => JSON.Parsed (JArr vs) rest
              | JSON.Unexpected => JSON.Unexpected
              | JSON.OutOfFuel => JSON.OutOfFuel
              end
          end).
  destruct vs as [| v vs].
  - cbn [map Stringify.join]. norm_append. by rewrite skip_ws_starts.
  - change (map _ (v :: vs)) with (Stringify.stringify <$> (v :: vs)).
    rewrite (parse_elements_back F); [| done | done | cbn in *; lia].
    apply Forall_cons in Hstart as [Hs _].
    assert (∃ c r, Stringify.join (Stringify.stringify <$> v :: vs) ++ String "]" rest
                   = String c r ∧ JSON.is_ws c = false ∧ c ≠ "]"%char)
      as (c & r & -> & Hws & Hc).
    { cbn [fmap list_fmap].
      destruct (Stringify.stringify v) as [| c r] eqn:E; [done |].
      destruct Hs as (Hws & Hc & _).
      destruct vs; [cbn [Stringify.join] | rewrite join_cons by done];
        rewrite !append_cons; by eexists _, _. }
    rewrite skip_ws_starts by done.
    destruct c as [[] [] [] [] [] [] [] []]; try reflexivity. done.
Qed.

(** *** The collection *)

Lemma join_length (l : list string) (k : nat) :
  Forall (λ x, (k ≤ String.length x)%nat) l →
  (k * length l ≤ String.length (Stringify.join l))%nat.
Proof.
  induction 1 as [| x l Hx Hl IH]; [cbn; lia |].
  destruct l as [| y l]; [cbn in *; lia |].
  rewrite join_cons by done. rewrite !append_length. cbn [length] in *. lia.
Qed.

Lemma stringify_reloaded (t : Transaction) :
  Stringify.stringify (Transaction_toJS t) = Stringify.stringify (Transaction_reloaded t).
Proof.
  unfold Transaction_toJS, Transaction_reloaded, amount_toJSON.
  destruct (Stringify.isFinite (amount t)) eqn:E; [done |].
  cbn [Stringify.stringify map fst snd]. by rewrite E.
Qed.

Lemma save_reloaded (ts : list Transaction) :
  save ts = Stringify.stringify (JArr (Transaction_reloaded <$> ts)).
Proof.
  unfold save. cbn [Stringify.stringify]. do 3 f_equal.
  rewrite <- !list_fmap_compose. apply list_fmap_ext. intros i t _. apply stringify_reloaded.
Qed.

Lemma Transaction_reloaded_parsesBack (t : Transaction) :
  (Stringify.isFinite (amount t) = true → readsBack (amount t)) →
  parsesBack 9 (Transaction_reloaded t).
Proof.
  intros Ha.
  change 9%nat with (length [("id", JStr (id t)); ("amount", amount_toJSON (amount t));
                             ("date", JStr (date t)); ("description", JStr (description t));
                             ("type", TransactionType_toJS (type t));
                             ("category", JStr (category t));
                             ("createdAt", JStr (createdAt t))] + 1 + 1)%nat.
  apply (object_parsesBack 1).
  - apply (bool_decide_unpack _). by vm_compute.
  - repeat (apply Forall_cons; split; [apply leaf_parsesBack; try done |]);
      [| by destruct (type t) | apply Forall_nil_2].
    cbn [snd]. unfold amount_toJSON.
    destruct (Stringify.isFinite (amount t)) eqn:E; [| done]. split; [done | by apply Ha].
Qed.

Lemma Transaction_reloaded_length (t : Transaction) :
  (9 ≤ String.length (Stringify.stringify (Transaction_reloaded t)))%nat.
Proof.
  unfold Transaction_reloaded. cbn [Stringify.stringify map Stringify.join fst snd].
  unfold Stringify.QuoteJSONString. rewrite !append_length. cbn [String.length].
  rewrite !append_length. cbn [String.length]. lia.
Qed.

Lemma save_parsed (ts : list Transaction) :
  Forall (λ t, Stringify.isFinite (amount t) = true → readsBack (amount t)) ts →
  JSON.parse (save ts) = Ok (JArr (Transaction_reloaded <$> ts)).
Proof.
  intros Hall. destruct ts as [| t ts]; [by vm_compute |].
  rewrite save_reloaded. unfold JSON.parse.
  set (vs := Transaction_reloaded <$> t :: ts).
  assert (parsesBack (length vs + 9 + 1) (JArr vs)) as Hback.
  { apply array_parsesBack.
    - subst vs. apply Forall_fmap. eapply Forall_impl; [apply Hall |].
      intros u Hu. by apply Transaction_reloaded_parsesBack.
    - subst vs. apply Forall_fmap, Forall_forall. by intros u _. }
  rewrite <- (append_nil_r (Stringify.stringify (JArr vs))) at 2.
  rewrite Hback; [done | | done].
  cbn [Stringify.stringify]. rewrite !append_length. cbn [String.length].
  pose proof (join_length (map Stringify.stringify vs) 9) as Hlen.
  rewrite length_map in Hlen.
  assert (0 < length vs)%nat by (subst vs; cbn; lia).
  enough (9 * length vs ≤ String.length (Stringify.join (map Stringify.stringify vs)))%nat
    by lia.
  apply Hlen. subst vs. apply Forall_forall. intros x Hx.
  apply list_elem_of_fmap in Hx as (v & -> & Hv).
  apply list_elem_of_fmap in Hv as (u & -> & _). apply Transaction_reloaded_length.
Qed.

Lemma reloaded_finite (ts : list Transaction) :
  Forall (λ t, Stringify.isFinite (amount t) = true) ts →
  Transaction_reloaded <$> ts = Transaction_toJS <$> ts.
Proof.
  intros H. apply list_fmap_ext. intros i t Hi.
  eapply Forall_forall in H; [| by eapply list_elem_of_lookup_2].
  unfold Transaction_reloaded, Transaction_toJS, amount_toJSON. by rewrite H.
Qed.

(** X13: what the load at startup reads from the text the last save
    stored is the collection, field by field: for a collection whose
    finite amounts are written by [toString] in a way [JSON.parse] reads
    back, the saved text is not empty and [load] yields the array of the
    objects of the records, in their order, each with its seven properties,
    an amount that is NaN or infinite coming back as [null]; with finite
    amounts only it is the collection itself.  The empty collection is
    stored as the text of the empty array and comes back empty. *)
Theorem save_then_load (ts : list Transaction) :
  Forall (λ t, Stringify.isFinite (amount t) = true → readsBack (amount t)) ts →
  save ts ≠ ""
  ∧ load (Some (save ts)) = Ok (JArr (Transaction_reloaded <$> ts))
  ∧ (Forall (λ t, Stringify.isFinite (amount t) = true) ts →
     load (Some (save ts)) = Ok (JArr (Transaction_toJS <$> ts)))
  ∧ load (Some (save [])) = Ok (JArr []).
Proof.
  intros Hall.
  assert (save ts ≠ "") as Hne by done.
  assert (load (Some (save ts)) = Ok (JArr (Transaction_reloaded <$> ts))) as E.
  { unfold load. apply truthy_nonempty in Hne as ->. by rewrite save_parsed. }
  split_and!; [done | done | | by vm_compute]. intros Hfin. by rewrite E, reloaded_finite.
Qed.

Lemma save_then_load_witness :
  save savedCollection ≠ ""
  ∧ load (Some (save savedCollection))
    = Ok (JArr (Transaction_reloaded <$> savedCollection))
  ∧ (Forall (λ t, Stringify.isFinite (amount t) = true) savedCollection →
     load (Some (save savedCollection))
     = Ok (JArr (Transaction_toJS <$> savedCollection)))
  ∧ load (Some (save [])) = Ok (JArr []).
Proof.
  apply save_then_load.
  repeat (apply Forall_cons; split; [by vm_compute |]). apply Forall_nil_2.
Defined.

(** The text of two records, and what is read back for an amount that is
    NaN. *)
Example save_example :
  save [newTransaction 1700000000000 1700000000000 None lunch]
  = Stringify.stringify
      (JArr [JObj [("id", JStr "1700000000000"); ("amount", JNum (parseFloat "12.5"));
                   ("date", JStr "2024-01-15"); ("description", JStr "Lunch");
                   ("type", JStr "expense"); ("category", JStr "Food & Dining");
                   ("createdAt", JStr "2023-11-14T22:13:20.000Z")]])
  ∧ NumberPrototype.toString (parseFloat "12.50") = "12.5"
  ∧ NumberPrototype.toString (JSNumber.add (parseFloat "0.1") (parseFloat "0.2"))
    = "0.30000000000000004"
  ∧ NumberPrototype.toString (parseFloat "1e21") = "1e+21"
  ∧ NumberPrototype.toString (parseFloat "0.0000001") = "1e-7"
  ∧ load (Some (save [record "3" "abc" "2024-03-01" expense "Other"]))
    = Ok (JArr [JObj [("id", JStr "3"); ("amount", JNull);
                      ("date", JStr "2024-03-01"); ("description", JStr "-");
                      ("type", JStr "expense"); ("category", JStr "Other");
                      ("createdAt", JStr "2024-03-01T09:00:00.000Z")]]).
Proof. by vm_compute. Qed.
